(** * Housekeeper engine: planning, apply and rollback

    A shallow embedding of [housekeeper/util.py], [housekeeper/model.py] and
    [housekeeper/engine.py].  Registry objects are JSON dictionaries whose
    fields are strings or absent; they are records of [option string] here.
    Python [str] values are modelled as byte strings (ASCII), so [lower]
    only folds [A-Z] and ordering is byte-wise. *)

From Stdlib Require Import String Ascii List QArith DecimalString DecimalNat
  DecimalFacts Sorted.
From stdpp Require Import gmap strings list fin_maps relations.

Open Scope string_scope.
Open Scope list_scope.

(** ** Python built-ins used by the engine *)
Module Py.

(** [bool(x)] for a field that is a string or [None]. *)
Definition truthy (o : option string) : bool :=
  match o with
  | Some (String _ _) => true
  | _ => false
  end.

(** [bool(s)] for a string. *)
Definition nonempty (s : string) : bool :=
  match s with
  | String _ _ => true
  | EmptyString => false
  end.

(** [a or b] on optional strings. *)
Definition or_ (a b : option string) : option string :=
  if truthy a then a else b.

(** [str(x or "")]. *)
Definition str_or_empty (o : option string) : string :=
  match o with
  | Some s => s
  | None => EmptyString
  end.

Definition between (lo hi : nat) (c : ascii) : bool :=
  (lo <=? nat_of_ascii c)%nat && (nat_of_ascii c <=? hi)%nat.

Definition is_upper (c : ascii) : bool := between 65 90 c.
Definition is_lower (c : ascii) : bool := between 97 122 c.
Definition is_digit (c : ascii) : bool := between 48 57 c.

(** [str.isspace] on ASCII: tab, LF, VT, FF, CR, FS..US and space. *)
Definition is_space (c : ascii) : bool :=
  between 9 13 c || between 28 32 c.

Definition lower_char (c : ascii) : ascii :=
  if is_upper c then ascii_of_nat (nat_of_ascii c + 32) else c.

Fixpoint lower (s : string) : string :=
  match s with
  | EmptyString => EmptyString
  | String c r => String (lower_char c) (lower r)
  end.

Fixpoint lstrip (s : string) : string :=
  match s with
  | String c r => if is_space c then lstrip r else s
  | EmptyString => EmptyString
  end.

Fixpoint rstrip (s : string) : string :=
  match s with
  | EmptyString => EmptyString
  | String c r =>
      match rstrip r with
      | EmptyString => if is_space c then EmptyString else String c EmptyString
      | r' => String c r'
      end
  end.

Definition strip (s : string) : string := rstrip (lstrip s).

(** [s.startswith(p)]. *)
Definition startswith (s p : string) : bool := String.prefix p s.

(** [p in s] for strings. *)
Fixpoint contains (s p : string) : bool :=
  String.prefix p s ||
  match s with
  | EmptyString => false
  | String _ r => contains r p
  end.

(** [str(n)] for a non-negative integer. *)
Definition str_nat (n : nat) : string :=
  NilZero.string_of_uint (Nat.to_uint n).

(** Insertion of [x] into a list sorted by [le], after equal elements. *)
Fixpoint insert_sorted {A} (le : A -> A -> bool) (x : A) (l : list A) : list A :=
  match l with
  | [] => [x]
  | y :: r => if le y x then y :: insert_sorted le x r else x :: l
  end.

(** [sorted(l, key=...)]: a stable sort. *)
Definition sorted {A} (le : A -> A -> bool) (l : list A) : list A :=
  foldl (fun acc x => insert_sorted le x acc) [] l.

(** [d.setdefault(k, []).append(v)] on an insertion-ordered dictionary. *)
Fixpoint setdefault_append {K V} `{EqDecision K}
    (k : K) (v : V) (d : list (K * list V)) : list (K * list V) :=
  match d with
  | [] => [(k, [v])]
  | (k', vs) :: r =>
      if decide (k = k') then (k', vs ++ [v]) :: r
      else (k', vs) :: setdefault_append k v r
  end.

(** [d.get(k, [])] on such a dictionary. *)
Fixpoint get_list {K V} `{EqDecision K} (k : K) (d : list (K * list V)) : list V :=
  match d with
  | [] => []
  | (k', vs) :: r => if decide (k = k') then vs else get_list k r
  end.

End Py.

(** ** [housekeeper/util.py] *)
Module Util.
Import Py.

(** A character of the class [[a-z0-9]]. *)
Definition is_token_char (c : ascii) : bool := is_lower c || is_digit c.

(** [_split_re.split(s)] for [_split_re = [^a-z0-9]+]: the pieces between
    maximal runs of separator characters, empty pieces at either end
    included.  [cur] is the piece being read, [insep] tells whether the
    previous character was a separator. *)
Fixpoint split_go (s cur : string) (insep : bool) : list string :=
  match s with
  | EmptyString => [cur]
  | String c r =>
      if is_token_char c then split_go r (cur +:+ String c EmptyString) false
      else if insep then split_go r cur true
      else cur :: split_go r EmptyString true
  end.

Definition re_split (s : string) : list string := split_go s EmptyString false.

Definition tokenize (s : string) : gset string :=
  let s := lower (strip s) in
  if nonempty s then list_to_set (filter (fun t => nonempty t = true) (re_split s))
  else ∅.

Definition newline : ascii := "010"%char.
Definition underscore : ascii := "_"%char.

(** [$]: the end of the string, or just before a line feed that ends it. *)
Definition at_dollar (s : string) : bool :=
  match s with
  | EmptyString => true
  | String c EmptyString => Ascii.eqb c newline
  | _ => false
  end.

(** [[0-9]+$]. *)
Fixpoint digits_dollar (s : string) : bool :=
  match s with
  | EmptyString => false
  | String c r => is_digit c && (digits_dollar r || at_dollar r)
  end.

(** [([2-9]|[1-9][0-9]+)$]. *)
Definition suffix_number_dollar (s : string) : bool :=
  match s with
  | EmptyString => false
  | String c r =>
      (between 50 57 c && at_dollar r) || (between 49 57 c && digits_dollar r)
  end.

(** [^(?P<base>.+)_([2-9]|[1-9][0-9]+)$] with [re.match]: [base] holds what
    [.+] has consumed so far; the greedy [.+] first tries to consume one
    more character (never a line feed) and backtracks to the split here. *)
Fixpoint match_base (s base : string) : option string :=
  match s with
  | EmptyString => None
  | String c r =>
      let longer :=
        if Ascii.eqb c newline then None
        else match_base r (base +:+ String c EmptyString) in
      match longer with
      | Some b => Some b
      | None =>
          if nonempty base && Ascii.eqb c underscore && suffix_number_dollar r
          then Some base else None
      end
  end.

Definition is_suffix_duplicate_entity (entity_id : string) : bool * string :=
  match match_base entity_id EmptyString with
  | None => (false, entity_id)
  | Some base => (true, base)
  end.

End Util.

(** ** Registry objects and [housekeeper/model.py] *)
Module Model.

(** An entry of [config/area_registry/list]. *)
Record area := mk_area {
  ar_area_id : option string;
  ar_name : option string }.

(** An entry of [config/device_registry/list]. *)
Record device := mk_device {
  dv_id : option string;
  dv_name : option string;
  dv_name_by_user : option string;
  dv_area_id : option string }.

(** An entry of [config/entity_registry/list]. *)
Record entity := mk_entity {
  er_entity_id : option string;
  er_unique_id : option string;
  er_name : option string;
  er_original_name : option string;
  er_device_id : option string;
  er_area_id : option string;
  er_hidden_by : option string;
  er_disabled_by : option string }.

(** An entry of [get_states]; [st_friendly_name] is
    [attributes.friendly_name]. *)
Record state_obj := mk_state {
  st_entity_id : option string;
  st_state : option string;
  st_friendly_name : option string }.

(** [Action], and the dictionary [asdict_action] makes of it: the same six
    fields. *)
Record Action := mk_action {
  act_id : string;
  act_type : string;
  act_payload : gmap string string;
  act_reason : string;
  act_confidence : Q;
  act_requires_approval : bool }.

Definition asdict_action (a : Action) : Action := a.

(** The rules document of [rules.yaml]. *)
Record rename_rule := mk_rename_rule {
  rn_from : option string;
  rn_to : option string;
  rn_requires_approval : option bool }.

Record regex_rule := mk_regex_rule {
  rx_pattern : option string;
  rx_requires_approval : option bool }.

Record id_rules := mk_id_rules {
  ir_ids : list string;
  ir_regex : list regex_rule }.

Record area_rule := mk_area_rule {
  arl_pattern : option string;
  arl_area : option string;
  arl_overwrite : option bool;
  arl_requires_approval : option bool }.

Record helper_rule := mk_helper_rule {
  hr_area : option string;
  hr_keywords : list string;
  hr_requires_approval : option bool }.

Record rules := mk_rules {
  area_renames : list rename_rule;
  entity_remove : id_rules;
  entity_hide : id_rules;
  entity_area : list area_rule;
  device_area : list area_rule;
  helper_area_rules : list helper_rule }.

(** [load_rules] when no rules file is found or it cannot be read. *)
Definition empty_rules : rules :=
  mk_rules [] (mk_id_rules [] []) (mk_id_rules [] []) [] [] [].

(** The second component of [load_rules]. *)
Record rules_meta := mk_rules_meta {
  rm_path : option string;
  rm_error : option string }.

(** [bool(r.get(key, default))]. *)
Definition flag (default : bool) (o : option bool) : bool :=
  match o with
  | Some b => b
  | None => default
  end.

End Model.

Import Py Util Model.

(** ** [housekeeper/engine.py]: helpers and the planner *)
Module Engine.

(** A field that is present and truthy, as tested by [if not x: continue]. *)
Definition present (o : option string) : option string :=
  if truthy o then o else None.

(** [{key(x): x for x in l if key(x)}]: later entries win. *)
Definition index_by {A} (key : A -> option string) (l : list A) : gmap string A :=
  foldl (fun m x =>
           match present (key x) with
           | Some k => <[k := x]> m
           | None => m
           end) ∅ l.

Definition _is_active_state (state_obj : option state_obj) : bool :=
  match state_obj with
  | None => false
  | Some st =>
      match st_state st with
      | None => false
      | Some v => negb (String.eqb v "unavailable")
      end
  end.

(** [device_by_id.get(device_id, {}).get("area_id")]. *)
Definition device_area_of (device_by_id : gmap string device) (device_id : string)
  : option string :=
  match device_by_id !! device_id with
  | Some dv => dv_area_id dv
  | None => None
  end.

Definition _effective_area_id (entity_reg : entity) (device_by_id : gmap string device)
  : option string :=
  if truthy (er_area_id entity_reg) then er_area_id entity_reg
  else match present (er_device_id entity_reg) with
       | None => None
       | Some device_id => device_area_of device_by_id device_id
       end.

Definition _normalize_name (s : string) : string := lower (strip s).

Definition generic_names : list string :=
  ["tv"; "speaker"; "speakers"; "chromecast"; "google cast"; "google home";
   "media player"; "mediaplayer"; "nest audio"; "nest mini"; "home";
   "default"; "unknown"].

Definition _looks_generic_media_name (name : string) : bool :=
  let n := _normalize_name name in
  if negb (nonempty n) then true
  else bool_decide (n ∈ generic_names) || startswith n "media player".

Definition _media_base_label (entity_id friendly : string) : string :=
  let e := _normalize_name entity_id in
  let f := _normalize_name friendly in
  let hay := e +:+ " " +:+ f in
  if contains hay "tv" then "TV"
  else if contains hay "speaker" || contains hay "sonos" || contains hay "nest"
       then "Speaker"
  else if contains hay "beamer" || contains hay "projector" then "Beamer"
  else "Media".

(** [action_fingerprint]. *)
Definition fingerprint_key (p : gmap string string) : string :=
  str_or_empty
    (or_ (or_ (or_ (p !! "entity_id") (p !! "device_id")) (p !! "area_id"))
         (p !! "name")).

Definition action_fingerprint (action : Action) : string :=
  act_type action +:+ ":" +:+ fingerprint_key (act_payload action).

(** What [_fetch] returns. *)
Record snapshot := mk_snapshot {
  areas : list area;
  devices : list device;
  entities : list entity;
  states_by_entity_id : gmap string state_obj }.

(** The local variables of [plan] that the passes update. *)
Record pstate := mk_pstate {
  actions : list Action;
  planned_entity_area : gset string;
  planned_entity_remove : gset string;
  planned_entity_hide : gset string;
  needs_fallback_onbekend : bool }.

Definition init_pstate : pstate := mk_pstate [] ∅ ∅ ∅ false.

Definition add_planned_area (eid : string) (s : pstate) : pstate :=
  mk_pstate (actions s) ({[eid]} ∪ planned_entity_area s)
            (planned_entity_remove s) (planned_entity_hide s)
            (needs_fallback_onbekend s).

Definition add_planned_remove (eid : string) (s : pstate) : pstate :=
  mk_pstate (actions s) (planned_entity_area s)
            ({[eid]} ∪ planned_entity_remove s) (planned_entity_hide s)
            (needs_fallback_onbekend s).

Definition add_planned_hide (eid : string) (s : pstate) : pstate :=
  mk_pstate (actions s) (planned_entity_area s)
            (planned_entity_remove s) ({[eid]} ∪ planned_entity_hide s)
            (needs_fallback_onbekend s).

Definition set_needs_fallback (s : pstate) : pstate :=
  mk_pstate (actions s) (planned_entity_area s)
            (planned_entity_remove s) (planned_entity_hide s) true.

(** The persisted plan ([plan.json]). *)
Record plan_doc := mk_plan {
  pl_created_at : string;
  pl_rules : rules_meta;
  pl_actions : list Action;
  pl_area_name_by_id : gmap string string;
  pl_ignored_count : nat }.

Definition entity_ids_of (entities : list entity) : gset string :=
  list_to_set (omap (fun e => present (er_entity_id e)) entities).

(** [area_names], [area_name_by_id] and [area_tokens] of [plan]. *)
Definition named_areas (areas : list area) : list (string * string) :=
  omap (fun a => match present (ar_area_id a), present (ar_name a) with
                 | Some i, Some n => Some (i, n)
                 | _, _ => None
                 end) areas.

Definition area_names_of (areas : list area) : gset string :=
  list_to_set (snd <$> named_areas areas).

Definition area_name_by_id_of (areas : list area) : gmap string string :=
  foldl (fun m '(i, n) => <[i := n]> m) ∅ (named_areas areas).

Definition area_tokens_of (areas : list area) : list (string * string * gset string) :=
  (fun '(i, n) => (i, n, tokenize n)) <$> named_areas areas.

Definition entities_by_device_id_of (entities : list entity)
  : list (string * list entity) :=
  foldl (fun d er => match present (er_device_id er) with
                     | Some did => setdefault_append did er d
                     | None => d
                     end) [] entities.

Definition area_by_name_ci_of (areas : list area) : list (string * list area) :=
  foldl (fun d a => match present (ar_name a) with
                    | Some nm => setdefault_append (lower (strip nm)) a d
                    | None => d
                    end) [] areas.

Definition area_id_by_name_lower_of (areas : list area) : gmap string string :=
  foldl (fun m a => match present (ar_name a), present (ar_area_id a) with
                    | Some nm, Some i => <[lower (strip nm) := i]> m
                    | _, _ => m
                    end) ∅ areas.

(** [area_id_by_name_lower.get(k)] followed by [if not target_area_id]. *)
Definition target_area (m : gmap string string) (area_name : string) : option string :=
  present (m !! lower area_name).

(** The token-match candidates of one haystack: [matches]. *)
Definition token_matches (area_tokens : list (string * string * gset string))
    (ht : gset string) : list (string * string) :=
  omap (fun '(area_id, area_name, at_) =>
          if negb (bool_decide (at_ = ∅)) && bool_decide (at_ ⊆ ht)
          then Some (area_id, area_name) else None) area_tokens.

Definition entity_id_payload (entity_id : string) : gmap string string :=
  {[ "entity_id" := entity_id ]}.

Definition entity_area_payload (entity_id area_id : string) : gmap string string :=
  <[ "area_id" := area_id ]> {[ "entity_id" := entity_id ]}.

Definition device_area_payload (device_id area_id : string) : gmap string string :=
  <[ "area_id" := area_id ]> {[ "device_id" := device_id ]}.

Definition hide_payload (entity_id : string) : gmap string string :=
  <[ "hidden_by" := "user" ]> {[ "entity_id" := entity_id ]}.

Definition rename_payload (key target name : string) : gmap string string :=
  <[ "name" := name ]> {[ key := target ]}.

(** *** [HousekeeperEngine.plan] *)
Section Plan.
(** [uuid4 n] is the identifier drawn for the [n]-th action of a run. *)
Variable uuid4 : nat -> string.
(** [_compile_regex]: [None] when [re.compile] raises, else the
    case-insensitive [search] of the compiled pattern. *)
Variable _compile_regex : string -> option (string -> bool).
Variable onbekend_area_name : string.

(** [actions.append(Action(id=str(uuid.uuid4()), ...))]. *)
Definition emit (s : pstate) (type : string) (payload : gmap string string)
    (reason : string) (confidence : Q) (requires_approval : bool) : pstate :=
  mk_pstate
    (actions s ++
       [mk_action (uuid4 (length (actions s))) type payload reason
                  confidence requires_approval])
    (planned_entity_area s) (planned_entity_remove s)
    (planned_entity_hide s) (needs_fallback_onbekend s).

(** Area renames from rules. *)
Definition rename_area_rule (area_by_name_ci : list (string * list area))
    (s : pstate) (r : rename_rule) : pstate :=
  let src := strip (str_or_empty (rn_from r)) in
  let dst := strip (str_or_empty (rn_to r)) in
  if negb (nonempty src) || negb (nonempty dst) || String.eqb src dst then s
  else
    let req := flag true (rn_requires_approval r) in
    match get_list (lower src) area_by_name_ci,
          get_list (lower dst) area_by_name_ci with
    | [a], [] =>
        match present (ar_area_id a) with
        | None => s
        | Some area_id =>
            emit s "rename_area" (rename_payload "area_id" area_id dst)
                 ("Rule: rename area '" +:+ src +:+ "' -> '" +:+ dst +:+ "'.")
                 0.9 req
        end
    | _, _ => s
    end.

(** Explicit entity removals from rules: listed ids, then patterns. *)
Definition remove_listed (entity_ids : gset string) (s : pstate) (eid : string)
  : pstate :=
  if bool_decide (eid ∈ entity_ids)
     && negb (bool_decide (eid ∈ planned_entity_remove s))
  then add_planned_remove eid
         (emit s "remove_entity_registry_entry" (entity_id_payload eid)
               "Rule: explicit entity removal." 1 true)
  else s.

Definition remove_regex (entity_ids : gset string) (s : pstate) (rr : regex_rule)
  : pstate :=
  let pat := str_or_empty (rx_pattern rr) in
  match _compile_regex pat with
  | None => s
  | Some rx =>
      let req := flag true (rx_requires_approval rr) in
      foldl (fun s eid =>
               if bool_decide (eid ∈ planned_entity_remove s) then s
               else if rx eid
                    then add_planned_remove eid
                           (emit s "remove_entity_registry_entry"
                                 (entity_id_payload eid)
                                 ("Rule: entity_id matches /" +:+ pat +:+ "/.")
                                 0.95 req)
                    else s)
            s (sorted String.leb (elements entity_ids))
  end.

(** Explicit entity hides from rules. *)
Definition hide_listed (entity_ids : gset string) (s : pstate) (eid : string)
  : pstate :=
  if bool_decide (eid ∈ entity_ids)
     && negb (bool_decide (eid ∈ planned_entity_hide s))
  then add_planned_hide eid
         (emit s "hide_entity" (hide_payload eid)
               "Rule: explicit entity hide." 1 true)
  else s.

Definition hide_regex (entity_ids : gset string) (s : pstate) (rr : regex_rule)
  : pstate :=
  let pat := str_or_empty (rx_pattern rr) in
  match _compile_regex pat with
  | None => s
  | Some rx =>
      let req := flag true (rx_requires_approval rr) in
      foldl (fun s eid =>
               if bool_decide (eid ∈ planned_entity_hide s) then s
               else if rx eid
                    then add_planned_hide eid
                           (emit s "hide_entity" (hide_payload eid)
                                 ("Rule: entity_id matches /" +:+ pat +:+ "/.")
                                 0.95 req)
                    else s)
            s (sorted String.leb (elements entity_ids))
  end.

(** Entities: device has an area and the entity has none. *)
Definition inherit_entity (snap : snapshot) (device_by_id : gmap string device)
    (s : pstate) (er : entity) : pstate :=
  match present (er_entity_id er) with
  | None => s
  | Some entity_id =>
      if bool_decide (entity_id ∈ planned_entity_remove s) then s
      else if negb (_is_active_state (states_by_entity_id snap !! entity_id)) then s
      else if truthy (er_area_id er) then s
      else match present (er_device_id er) with
           | None => s
           | Some device_id =>
               match present (device_area_of device_by_id device_id) with
               | None => s
               | Some device_area_id =>
                   add_planned_area entity_id
                     (emit s "set_entity_area"
                           (entity_area_payload entity_id device_area_id)
                           "Entity has no area_id; device has area_id, so entity can inherit deterministically."
                           1 false)
               end
           end
  end.

(** Devices: no area, and the linked active entities have exactly one
    explicit area. *)
Definition linked_explicit_areas (snap : snapshot) (linked : list entity)
  : gset string :=
  foldl (fun acc er =>
           match present (er_entity_id er) with
           | None => acc
           | Some eid =>
               if negb (_is_active_state (states_by_entity_id snap !! eid)) then acc
               else match present (er_area_id er) with
                    | Some a => {[a]} ∪ acc
                    | None => acc
                    end
           end) ∅ linked.

Definition backfill_device (snap : snapshot)
    (entities_by_device_id : list (string * list entity))
    (s : pstate) (dv : device) : pstate :=
  match present (dv_id dv) with
  | None => s
  | Some device_id =>
      if truthy (dv_area_id dv) then s
      else
        let linked := get_list device_id entities_by_device_id in
        match elements (linked_explicit_areas snap linked) with
        | [area_id] =>
            emit s "set_device_area" (device_area_payload device_id area_id)
                 "Device has no area_id; all linked active entities have exactly 1 explicit area_id."
                 0.98 false
        | _ => s
        end
  end.

(** Entities without effective area: token match to a single area. *)
Definition haystack (entity_id : string) (er : entity) (st : option state_obj)
  : string :=
  entity_id +:+ " " +:+ str_or_empty (er_name er) +:+ " "
    +:+ str_or_empty (er_original_name er) +:+ " "
    +:+ str_or_empty (st ≫= st_friendly_name).

Definition token_match_entity (snap : snapshot) (device_by_id : gmap string device)
    (area_tokens : list (string * string * gset string))
    (include_onbekend_fallback : bool) (s : pstate) (er : entity) : pstate :=
  match present (er_entity_id er) with
  | None => s
  | Some entity_id =>
      if bool_decide (entity_id ∈ planned_entity_area s) then s
      else if bool_decide (entity_id ∈ planned_entity_remove s) then s
      else
        let st := states_by_entity_id snap !! entity_id in
        if negb (_is_active_state st) then s
        else if truthy (er_area_id er) then s
        else if match present (er_device_id er) with
                | Some device_id => truthy (device_area_of device_by_id device_id)
                | None => false
                end then s
        else
          let ht := tokenize (haystack entity_id er st) in
          match token_matches area_tokens ht with
          | [(area_id, area_name)] =>
              add_planned_area entity_id
                (emit s "set_entity_area" (entity_area_payload entity_id area_id)
                      ("Token match to area name '" +:+ area_name
                         +:+ "' from entity metadata.")
                      0.95 false)
          | _ => if include_onbekend_fallback then set_needs_fallback s else s
          end
  end.

(** Creation of the fallback area. *)
Definition create_fallback_area (area_names : gset string)
    (include_onbekend_fallback : bool) (s : pstate) : pstate :=
  if include_onbekend_fallback && needs_fallback_onbekend s
     && negb (bool_decide (onbekend_area_name ∈ area_names))
  then emit s "create_area" {[ "name" := onbekend_area_name ]}
            "Fallback area requested to ensure everything has an effective area."
            0.6 true
  else s.

(** The first area of the snapshot named [onbekend_area_name]: the loop
    with [break]. *)
Fixpoint find_onbekend_area_id (areas : list area) : option string :=
  match areas with
  | [] => None
  | a :: r =>
      if bool_decide (ar_name a = Some onbekend_area_name) then ar_area_id a
      else find_onbekend_area_id r
  end.

(** Entities still without effective area: placed in the fallback area. *)
Definition fallback_entity (snap : snapshot) (device_by_id : gmap string device)
    (onbekend_area_id : string) (s : pstate) (er : entity) : pstate :=
  match present (er_entity_id er) with
  | None => s
  | Some entity_id =>
      if bool_decide (entity_id ∈ planned_entity_area s) then s
      else if bool_decide (entity_id ∈ planned_entity_remove s) then s
      else if negb (_is_active_state (states_by_entity_id snap !! entity_id)) then s
      else if truthy (_effective_area_id er device_by_id) then s
      else
        add_planned_area entity_id
          (emit s "set_entity_area"
                (entity_area_payload entity_id onbekend_area_id)
                ("Fallback: put entity into area '" +:+ onbekend_area_name +:+ "'.")
                0.6 true)
  end.

Definition fallback_placement (snap : snapshot) (device_by_id : gmap string device)
    (include_onbekend_fallback : bool) (s : pstate) : pstate :=
  if include_onbekend_fallback then
    match present (find_onbekend_area_id (areas snap)) with
    | Some onbekend_area_id =>
        foldl (fallback_entity snap device_by_id onbekend_area_id) s (entities snap)
    | None => s
    end
  else s.

(** Suffix duplicate entities: removal proposed. *)
Definition suffix_duplicate_entity (entity_ids : gset string)
    (s : pstate) (er : entity) : pstate :=
  match present (er_entity_id er) with
  | None => s
  | Some entity_id =>
      if bool_decide (entity_id ∈ planned_entity_remove s) then s
      else
        let '(is_dup, base) := is_suffix_duplicate_entity entity_id in
        if negb is_dup || negb (bool_decide (base ∈ entity_ids)) then s
        else
          add_planned_remove entity_id
            (emit s "remove_entity_registry_entry" (entity_id_payload entity_id)
                  ("Entity id looks like a suffix duplicate of '" +:+ base +:+ "'.")
                  0.9 true)
  end.

(** Entities sharing a [unique_id]: all but the smallest id are hidden. *)
Definition by_unique_id_of (entities : list entity) : list (string * list string) :=
  foldl (fun d er =>
           match present (er_unique_id er), present (er_entity_id er) with
           | Some uid, Some eid => setdefault_append uid eid d
           | _, _ => d
           end) [] entities.

Definition hide_unique_id_group (s : pstate) (g : string * list string) : pstate :=
  let '(uid, eids) := g in
  match sorted String.leb eids with
  | kept :: ((_ :: _) as rest) =>
      foldl (fun s eid =>
               if bool_decide (eid ∈ planned_entity_hide s)
                  || bool_decide (eid ∈ planned_entity_remove s) then s
               else
                 add_planned_hide eid
                   (emit s "hide_entity" (hide_payload eid)
                         ("Duplicate unique_id '" +:+ uid +:+ "'. Keeping '"
                            +:+ kept +:+ "', hiding '" +:+ eid +:+ "'.")
                         0.9 true))
            s rest
  | _ => s
  end.

(** Entity area assignment rules (regex -> area). *)
Definition entity_area_rule (snap : snapshot) (device_by_id : gmap string device)
    (area_id_by_name_lower : gmap string string)
    (s : pstate) (rr : area_rule) : pstate :=
  let pat := str_or_empty (arl_pattern rr) in
  let area_name := strip (str_or_empty (arl_area rr)) in
  if negb (nonempty pat) || negb (nonempty area_name) then s
  else
    match _compile_regex pat with
    | None => s
    | Some rx =>
        let req := flag true (arl_requires_approval rr) in
        let overwrite := flag false (arl_overwrite rr) in
        match target_area area_id_by_name_lower area_name with
        | None => s
        | Some target_area_id =>
            foldl (fun s er =>
                     let entity_id := str_or_empty (er_entity_id er) in
                     if negb (nonempty entity_id)
                        || bool_decide (entity_id ∈ planned_entity_remove s) then s
                     else if negb (_is_active_state
                                     (states_by_entity_id snap !! entity_id)) then s
                     else if negb overwrite
                             && (truthy (_effective_area_id er device_by_id)
                                 || bool_decide (entity_id ∈ planned_entity_area s))
                          then s
                     else if rx entity_id
                          then add_planned_area entity_id
                                 (emit s "set_entity_area"
                                       (entity_area_payload entity_id target_area_id)
                                       ("Rule: entity_id matches /" +:+ pat
                                          +:+ "/ -> area '" +:+ area_name +:+ "'.")
                                       0.9 req)
                          else s)
                  s (entities snap)
        end
    end.

(** Device area assignment rules (device name regex -> area). *)
Definition device_area_rule (snap : snapshot)
    (area_id_by_name_lower : gmap string string)
    (s : pstate) (rr : area_rule) : pstate :=
  let pat := str_or_empty (arl_pattern rr) in
  let area_name := strip (str_or_empty (arl_area rr)) in
  if negb (nonempty pat) || negb (nonempty area_name) then s
  else
    match _compile_regex pat with
    | None => s
    | Some rx =>
        let req := flag true (arl_requires_approval rr) in
        let overwrite := flag false (arl_overwrite rr) in
        match target_area area_id_by_name_lower area_name with
        | None => s
        | Some target_area_id =>
            foldl (fun s dv =>
                     match present (dv_id dv) with
                     | None => s
                     | Some device_id =>
                         if truthy (dv_area_id dv) && negb overwrite then s
                         else
                           let name :=
                             str_or_empty (or_ (or_ (dv_name_by_user dv) (dv_name dv))
                                               (Some EmptyString)) in
                           if negb (nonempty name) then s
                           else if rx name
                                then emit s "set_device_area"
                                          (device_area_payload device_id target_area_id)
                                          ("Rule: device name matches /" +:+ pat
                                             +:+ "/ -> area '" +:+ area_name +:+ "'.")
                                          0.9 req
                                else s
                     end)
                  s (devices snap)
        end
    end.

(** Helpers: the first keyword rule that fires, if any (the inner loop
    with [break]). *)
Definition keywords_of (kws_raw : list string) : gset string :=
  list_to_set ((fun x => lower (strip x))
                 <$> filter (fun x => nonempty (strip x) = true) kws_raw).

Fixpoint first_helper_rule (area_id_by_name_lower : gmap string string)
    (tokens : gset string) (rules : list helper_rule)
  : option (string * string * bool) :=
  match rules with
  | [] => None
  | hr :: rest =>
      let area_name := strip (str_or_empty (hr_area hr)) in
      let kws := keywords_of (hr_keywords hr) in
      if negb (nonempty area_name) || bool_decide (kws = ∅)
      then first_helper_rule area_id_by_name_lower tokens rest
      else
        let req := flag true (hr_requires_approval hr) in
        if bool_decide (kws ∩ tokens = ∅)
        then first_helper_rule area_id_by_name_lower tokens rest
        else match target_area area_id_by_name_lower (strip area_name) with
             | None => first_helper_rule area_id_by_name_lower tokens rest
             | Some target_area_id => Some (target_area_id, area_name, req)
             end
  end.

Definition helper_entity (snap : snapshot) (device_by_id : gmap string device)
    (area_id_by_name_lower : gmap string string) (rules : list helper_rule)
    (s : pstate) (er : entity) : pstate :=
  let entity_id := str_or_empty (er_entity_id er) in
  if negb (_is_active_state (states_by_entity_id snap !! entity_id)) then s
  else if negb (nonempty entity_id) then s
  else if bool_decide (entity_id ∈ planned_entity_area s) then s
  else if truthy (_effective_area_id er device_by_id) then s
  else
    let tokens :=
      tokenize (entity_id +:+ " " +:+ str_or_empty (er_original_name er)
                  +:+ " " +:+ str_or_empty (er_name er)) in
    match first_helper_rule area_id_by_name_lower tokens rules with
    | None => s
    | Some (target_area_id, area_name, req) =>
        emit s "set_entity_area" (entity_area_payload entity_id target_area_id)
             ("Rule: keyword match suggests area '" +:+ area_name +:+ "'.")
             0.85 req
    end.

(** Media players with a generic name: renamed after their area. *)
Definition media_current (er : entity) (st : option state_obj) : string :=
  str_or_empty
    (or_ (or_ (er_name er) (er_original_name er))
         (Some (str_or_empty (st ≫= st_friendly_name)))).

Definition media_candidate (snap : snapshot) (device_by_id : gmap string device)
    (er : entity) : option (string * string * string * string) :=
  match present (er_entity_id er) with
  | None => None
  | Some entity_id =>
      if negb (startswith entity_id "media_player.") then None
      else
        let st := states_by_entity_id snap !! entity_id in
        if negb (_is_active_state st) then None
        else match present (_effective_area_id er device_by_id) with
             | None => None
             | Some eff_area_id =>
                 let current := media_current er st in
                 if negb (_looks_generic_media_name current) then None
                 else Some (eff_area_id, _media_base_label entity_id current,
                            entity_id, current)
             end
  end.

Definition media_grouped (cands : list (string * string * string * string))
  : list ((string * string) * list (string * string)) :=
  foldl (fun d '(area_id, base, entity_id, current) =>
           setdefault_append (area_id, base) (entity_id, current) d) [] cands.

Definition media_group (area_name_by_id : gmap string string) (s : pstate)
    (g : (string * string) * list (string * string)) : pstate :=
  let '((area_id, base), items) := g in
  let items_sorted := sorted (fun x y => String.leb (fst x) (fst y)) items in
  let area_name :=
    str_or_empty (or_ (area_name_by_id !! area_id) (Some area_id)) in
  let need_numbers := (1 <? length items_sorted)%nat in
  foldl (fun s '(idx, (entity_id, current)) =>
           let new_name :=
             base +:+ " " +:+ area_name
               +:+ (if need_numbers then " " +:+ str_nat idx else EmptyString) in
           emit s "rename_entity" (rename_payload "entity_id" entity_id new_name)
                ("Generic media player name '" +:+ current +:+ "' -> '"
                   +:+ new_name +:+ "' based on effective area.")
                0.8 true)
        s (zip (seq 1 (length items_sorted)) items_sorted).

(** The passes of [plan], in source order. *)
Definition pass_area_renames (snap : snapshot) (rules : rules) (s : pstate) :=
  foldl (rename_area_rule (area_by_name_ci_of (areas snap))) s (area_renames rules).

Definition pass_remove_ids (snap : snapshot) (rules : rules) (s : pstate) :=
  foldl (remove_listed (entity_ids_of (entities snap))) s
        (ir_ids (entity_remove rules)).

Definition pass_remove_regex (snap : snapshot) (rules : rules) (s : pstate) :=
  foldl (remove_regex (entity_ids_of (entities snap))) s
        (ir_regex (entity_remove rules)).

Definition pass_hide_ids (snap : snapshot) (rules : rules) (s : pstate) :=
  foldl (hide_listed (entity_ids_of (entities snap))) s
        (ir_ids (entity_hide rules)).

Definition pass_hide_regex (snap : snapshot) (rules : rules) (s : pstate) :=
  foldl (hide_regex (entity_ids_of (entities snap))) s
        (ir_regex (entity_hide rules)).

Definition pass_inherit (snap : snapshot) (s : pstate) :=
  foldl (inherit_entity snap (index_by dv_id (devices snap))) s (entities snap).

Definition pass_backfill (snap : snapshot) (s : pstate) :=
  foldl (backfill_device snap (entities_by_device_id_of (entities snap))) s
        (devices snap).

Definition pass_token_match (snap : snapshot) (include_onbekend_fallback : bool)
    (s : pstate) :=
  foldl (token_match_entity snap (index_by dv_id (devices snap))
           (area_tokens_of (areas snap)) include_onbekend_fallback)
        s (entities snap).

Definition pass_create_fallback (snap : snapshot) (include_onbekend_fallback : bool)
    (s : pstate) :=
  create_fallback_area (area_names_of (areas snap)) include_onbekend_fallback s.

Definition pass_fallback (snap : snapshot) (include_onbekend_fallback : bool)
    (s : pstate) :=
  fallback_placement snap (index_by dv_id (devices snap))
                     include_onbekend_fallback s.

Definition pass_suffix_duplicates (snap : snapshot) (s : pstate) :=
  foldl (suffix_duplicate_entity (entity_ids_of (entities snap))) s (entities snap).

Definition pass_unique_id (snap : snapshot) (s : pstate) :=
  foldl hide_unique_id_group s (by_unique_id_of (entities snap)).

Definition pass_entity_area (snap : snapshot) (rules : rules) (s : pstate) :=
  foldl (entity_area_rule snap (index_by dv_id (devices snap))
           (area_id_by_name_lower_of (areas snap))) s (entity_area rules).

Definition pass_device_area (snap : snapshot) (rules : rules) (s : pstate) :=
  foldl (device_area_rule snap (area_id_by_name_lower_of (areas snap))) s
        (device_area rules).

Definition pass_helpers (snap : snapshot) (rules : rules) (s : pstate) :=
  foldl (helper_entity snap (index_by dv_id (devices snap))
           (area_id_by_name_lower_of (areas snap)) (helper_area_rules rules))
        s (entities snap).

Definition pass_media (snap : snapshot) (s : pstate) :=
  foldl (media_group (area_name_by_id_of (areas snap))) s
        (media_grouped
           (omap (media_candidate snap (index_by dv_id (devices snap)))
                 (entities snap))).

(** The state of [plan] when the token-match pass starts, when the
    fallback placement starts, and when the suffix-duplicate pass
    starts. *)
Definition before_token_match (snap : snapshot) (rules : rules) : pstate :=
  pass_backfill snap
    (pass_inherit snap
       (pass_hide_regex snap rules
          (pass_hide_ids snap rules
             (pass_remove_regex snap rules
                (pass_remove_ids snap rules
                   (pass_area_renames snap rules init_pstate)))))).

Definition before_fallback (snap : snapshot) (rules : rules)
    (include_onbekend_fallback : bool) : pstate :=
  pass_create_fallback snap include_onbekend_fallback
    (pass_token_match snap include_onbekend_fallback
       (before_token_match snap rules)).

Definition before_suffix_duplicates (snap : snapshot) (rules : rules)
    (include_onbekend_fallback : bool) : pstate :=
  pass_fallback snap include_onbekend_fallback
    (before_fallback snap rules include_onbekend_fallback).

Definition after_suffix_duplicates (snap : snapshot) (rules : rules)
    (include_onbekend_fallback : bool) : pstate :=
  pass_suffix_duplicates snap
    (before_suffix_duplicates snap rules include_onbekend_fallback).

Definition run_passes (snap : snapshot) (rules : rules)
    (include_onbekend_fallback : bool) : pstate :=
  pass_media snap
    (pass_helpers snap rules
       (pass_device_area snap rules
          (pass_entity_area snap rules
             (pass_unique_id snap
                (after_suffix_duplicates snap rules include_onbekend_fallback))))).

Definition all_actions (snap : snapshot) (rules : rules)
    (include_onbekend_fallback : bool) : list Action :=
  asdict_action <$> actions (run_passes snap rules include_onbekend_fallback).

(** Filter out ignored actions. *)
Definition visible_actions (ignored : gset string) (all : list Action)
  : list Action :=
  filter (fun a => action_fingerprint a ∉ ignored) all.

(** The plan document [plan] builds from a fetched snapshot, the loaded
    rules and the ignore list; [now] is [_now_iso()]. *)
Definition build_plan (now : string) (snap : snapshot) (rules : rules)
    (meta : rules_meta) (ignored : list string)
    (include_onbekend_fallback : bool) : plan_doc :=
  let all := all_actions snap rules include_onbekend_fallback in
  let visible := visible_actions (list_to_set ignored) all in
  mk_plan now meta visible (area_name_by_id_of (areas snap))
          (length all - length visible).

End Plan.
End Engine.

(** ** The registry behind [HAWebSocketClient]

    The client of [ha_ws.py] forwards each call to Home Assistant, which is
    not part of the repository.  The registry is modelled after the contract
    the engine relies on: a call either fails (the client raises
    [RuntimeError]) and changes nothing, or is carried out atomically.
    Logical rejections are: an update or removal of an unknown target, and
    an area name that is already taken. *)
Module HA.

Inductive request :=
| Area_list
| Device_list
| Entity_list
| Get_states
| Area_create (name : string)
| Area_update (area_id name : string)
| Entity_update (entity_id : string) (kwargs : gmap string (option string))
| Entity_remove (entity_id : string)
| Device_update (device_id : string) (kwargs : gmap string (option string)).

(** The registry contents, the client's [_msg_id] counter and the requests
    handed to [send] so far, oldest first. *)
Record ha_state := mk_ha {
  reg_areas : list area;
  reg_devices : list device;
  reg_entities : list entity;
  reg_states : list state_obj;
  _msg_id : nat;
  attempted : list request }.

Definition with_areas (h : ha_state) (l : list area) : ha_state :=
  mk_ha l (reg_devices h) (reg_entities h) (reg_states h) (_msg_id h) (attempted h).

Definition with_devices (h : ha_state) (l : list device) : ha_state :=
  mk_ha (reg_areas h) l (reg_entities h) (reg_states h) (_msg_id h) (attempted h).

Definition with_entities (h : ha_state) (l : list entity) : ha_state :=
  mk_ha (reg_areas h) (reg_devices h) l (reg_states h) (_msg_id h) (attempted h).

(** [kwargs.get(k, old)]: a field is overwritten only when it is sent; a
    sent [None] clears it. *)
Definition sent_or (kwargs : gmap string (option string)) (k : string)
    (old : option string) : option string :=
  match kwargs !! k with
  | Some v => v
  | None => old
  end.

Definition set_entity_fields (kwargs : gmap string (option string)) (e : entity)
  : entity :=
  mk_entity (er_entity_id e) (er_unique_id e)
            (sent_or kwargs "name" (er_name e))
            (er_original_name e) (er_device_id e)
            (sent_or kwargs "area_id" (er_area_id e))
            (sent_or kwargs "hidden_by" (er_hidden_by e))
            (sent_or kwargs "disabled_by" (er_disabled_by e)).

Definition set_device_fields (kwargs : gmap string (option string)) (d : device)
  : device :=
  mk_device (dv_id d) (dv_name d)
            (sent_or kwargs "name_by_user" (dv_name_by_user d))
            (sent_or kwargs "area_id" (dv_area_id d)).

Definition is_entity (entity_id : string) (e : entity) : bool :=
  bool_decide (er_entity_id e = Some entity_id).

Definition is_device (device_id : string) (d : device) : bool :=
  bool_decide (dv_id d = Some device_id).

Definition is_area (area_id : string) (a : area) : bool :=
  bool_decide (ar_area_id a = Some area_id).

Definition has_name (name : string) (a : area) : bool :=
  bool_decide (ar_name a = Some name).

(** The registry side of each call: [None] is a rejection. *)
Definition serve_entity_update (entity_id : string)
    (kwargs : gmap string (option string)) (h : ha_state) : option (ha_state * unit) :=
  if existsb (is_entity entity_id) (reg_entities h)
  then Some (with_entities h
               ((fun e => if is_entity entity_id e
                          then set_entity_fields kwargs e else e)
                  <$> reg_entities h), tt)
  else None.

Definition serve_entity_remove (entity_id : string) (h : ha_state)
  : option (ha_state * unit) :=
  if existsb (is_entity entity_id) (reg_entities h)
  then Some (with_entities h
               (filter (fun e => is_entity entity_id e = false) (reg_entities h)), tt)
  else None.

Definition serve_device_update (device_id : string)
    (kwargs : gmap string (option string)) (h : ha_state) : option (ha_state * unit) :=
  if existsb (is_device device_id) (reg_devices h)
  then Some (with_devices h
               ((fun d => if is_device device_id d
                          then set_device_fields kwargs d else d)
                  <$> reg_devices h), tt)
  else None.

(** The identifier of a new area is derived from its name; a name or an
    identifier already in use is rejected. *)
Definition new_area_id (name : string) : string :=
  String.concat "_"
    (filter (fun t => nonempty t = true) (re_split (lower name))).

Definition serve_area_create (name : string) (h : ha_state)
  : option (ha_state * area) :=
  if existsb (has_name name) (reg_areas h)
     || existsb (is_area (new_area_id name)) (reg_areas h)
  then None
  else let a := mk_area (Some (new_area_id name)) (Some name) in
       Some (with_areas h (reg_areas h ++ [a]), a).

Definition serve_area_update (area_id name : string) (h : ha_state)
  : option (ha_state * unit) :=
  if existsb (is_area area_id) (reg_areas h)
     && negb (existsb (fun a => has_name name a && negb (is_area area_id a))
                      (reg_areas h))
  then Some (with_areas h
               ((fun a => if is_area area_id a
                          then mk_area (ar_area_id a) (Some name) else a)
                  <$> reg_areas h), tt)
  else None.

Section Client.
(** [fault n]: the transport fails (time-out, connection loss) on the
    message numbered [n]. *)
Variable fault : nat -> bool.

(** [send]: the message counter advances, then the call either fails or
    is served.  [None] stands for the raised [RuntimeError]. *)
Definition send {A} (h : ha_state) (r : request)
    (serve : ha_state -> option (ha_state * A)) : ha_state * option A :=
  let h1 := mk_ha (reg_areas h) (reg_devices h) (reg_entities h) (reg_states h)
                  (S (_msg_id h)) (attempted h ++ [r]) in
  if fault (_msg_id h) then (h1, None)
  else match serve h1 with
       | Some (h2, x) => (h2, Some x)
       | None => (h1, None)
       end.

Definition area_list (h : ha_state) : ha_state * option (list area) :=
  send h Area_list (fun h => Some (h, reg_areas h)).

Definition device_list (h : ha_state) : ha_state * option (list device) :=
  send h Device_list (fun h => Some (h, reg_devices h)).

Definition entity_list (h : ha_state) : ha_state * option (list entity) :=
  send h Entity_list (fun h => Some (h, reg_entities h)).

Definition get_states (h : ha_state) : ha_state * option (list state_obj) :=
  send h Get_states (fun h => Some (h, reg_states h)).

Definition area_create (h : ha_state) (name : string) :=
  send h (Area_create name) (serve_area_create name).

Definition area_update (h : ha_state) (area_id name : string) :=
  send h (Area_update area_id name) (serve_area_update area_id name).

Definition entity_update (h : ha_state) (entity_id : string)
    (kwargs : gmap string (option string)) :=
  send h (Entity_update entity_id kwargs) (serve_entity_update entity_id kwargs).

Definition entity_remove (h : ha_state) (entity_id : string) :=
  send h (Entity_remove entity_id) (serve_entity_remove entity_id).

Definition device_update (h : ha_state) (device_id : string)
    (kwargs : gmap string (option string)) :=
  send h (Device_update device_id kwargs) (serve_device_update device_id kwargs).
End Client.

End HA.

(** ** [HousekeeperEngine]: persisted documents, apply, rollback *)
Module Executor.
Import Engine HA.

(** A rollback step, one constructor per ["type"]. *)
Inductive step :=
| Note (note : string) (area_id : option string) (name : string)
| Entity_update_step (entity_id : string) (before : gmap string (option string))
| Device_update_step (device_id : string) (before : gmap string (option string))
| Area_update_step (area_id : string) (before : gmap string (option string))
| Entity_restore_note (entity_id : string) (before : option entity).

(** [rollback.json]. *)
Record rollback_doc := mk_rollback {
  rb_created_at : string;
  steps : list step }.

(** The engine: its client and the three documents under [data_dir]. *)
Record engine := mk_engine {
  ha : ha_state;
  plan_json : option plan_doc;
  rollback_json : option rollback_doc;
  ignored_json : option (list string) }.

Inductive exn :=
| ValueError (msg : string)
| RuntimeError
| TypeError.

(** How a call ends: with a value, or with an exception that leaves it. *)
Inductive outcome (A : Type) :=
| Returned (a : A)
| Raised (e : exn).
Arguments Returned {A} a.
Arguments Raised {A} e.

Record apply_result := mk_apply_result {
  applied_action_ids : list string;
  res_skipped : list (string * string);
  res_rollback : rollback_doc }.

(** The local variables of the loop of [apply]. *)
Record astate := mk_astate {
  a_ha : ha_state;
  rollback_steps : list step;
  applied : list string;
  skipped : list (string * string) }.

(** The registries fetched at the start of [apply]. *)
Record registries := mk_registries {
  entity_by_id : gmap string entity;
  area_by_name : gmap string area;
  device_by_id : gmap string device;
  area_by_id : gmap string area }.

(** [entity_by_id], [area_by_name], [device_by_id] and [area_by_id]. *)
Definition registries_of (entities : list entity) (areas : list area)
    (devices : list device) : registries :=
  mk_registries (index_by er_entity_id entities) (index_by ar_name areas)
                (index_by dv_id devices) (index_by ar_area_id areas).

Definition load_plan (e : engine) : option plan_doc := plan_json e.
Definition load_rollback (e : engine) : option rollback_doc := rollback_json e.

Definition save_plan (e : engine) (p : plan_doc) : engine :=
  mk_engine (ha e) (Some p) (rollback_json e) (ignored_json e).

Definition save_rollback (e : engine) (rb : rollback_doc) : engine :=
  mk_engine (ha e) (plan_json e) (Some rb) (ignored_json e).

Definition with_ha (e : engine) (h : ha_state) : engine :=
  mk_engine h (plan_json e) (rollback_json e) (ignored_json e).

(** The ignore list. *)
Definition load_ignored (e : engine) : list string :=
  match ignored_json e with
  | Some l => l
  | None => []
  end.

Definition save_ignored (e : engine) (fingerprints : list string) : engine :=
  mk_engine (ha e) (plan_json e) (rollback_json e)
            (Some (sorted String.leb
                     (elements (list_to_set fingerprints : gset string)))).

Definition add_ignored (e : engine) (fingerprints : list string)
  : engine * list string :=
  let current : gset string :=
    list_to_set (load_ignored e) ∪ list_to_set fingerprints in
  let result := sorted String.leb (elements current) in
  (save_ignored e result, result).

Definition remove_ignored (e : engine) (fingerprints : list string)
  : engine * list string :=
  let current : gset string :=
    list_to_set (load_ignored e) ∖ list_to_set fingerprints in
  let result := sorted String.leb (elements current) in
  (save_ignored e result, result).

Definition clear_ignored (e : engine) : engine := save_ignored e [].

Definition skip (st : astate) (aid reason : string) : astate :=
  mk_astate (a_ha st) (rollback_steps st) (applied st)
            (skipped st ++ [(aid, reason)]).

(** The tail of a handler: the mutation has been issued with the steps
    [steps']; on success the id is appended to [applied], on failure the
    exception leaves [apply]. *)
Definition finish {A} (st : astate) (steps' : list step) (aid : string)
    (r : ha_state * option A) : astate * option exn :=
  match r with
  | (h, Some _) => (mk_astate h steps' (applied st ++ [aid]) (skipped st), None)
  | (h, None) => (mk_astate h steps' (applied st) (skipped st), Some RuntimeError)
  end.

Definition before_field (k : string) (v : option string)
  : gmap string (option string) := {[ k := v ]}.

Section Run.
Variable fault : nat -> bool.

(** One iteration of the loop of [apply]. *)
Definition apply_action (reg : registries) (approved : gset string)
    (st : astate) (a : Action) : astate * option exn :=
  let aid := act_id a in
  if act_requires_approval a && negb (bool_decide (aid ∈ approved))
  then (skip st aid "requires_approval", None)
  else
    let atype := act_type a in
    let payload := act_payload a in
    if String.eqb atype "create_area" then
      match present (payload !! "name") with
      | None => (skip st aid "missing name", None)
      | Some name =>
          if bool_decide (is_Some (area_by_name reg !! name))
          then (mk_astate (a_ha st) (rollback_steps st) (applied st ++ [aid])
                          (skipped st), None)
          else
            match area_create fault (a_ha st) name with
            | (h, Some res) =>
                (mk_astate h
                   (rollback_steps st ++
                      [Note "Area created; rollback does not delete areas."
                            (ar_area_id res) name])
                   (applied st ++ [aid]) (skipped st), None)
            | (h, None) =>
                (mk_astate h (rollback_steps st) (applied st) (skipped st),
                 Some RuntimeError)
            end
      end
    else if String.eqb atype "set_entity_area" then
      match present (payload !! "entity_id"), present (payload !! "area_id") with
      | Some entity_id, Some area_id =>
          let before := entity_by_id reg !! entity_id in
          finish st
            (rollback_steps st ++
               [Entity_update_step entity_id
                  (before_field "area_id" (before ≫= er_area_id))])
            aid
            (entity_update fault (a_ha st) entity_id
               (before_field "area_id" (Some area_id)))
      | _, _ => (skip st aid "missing entity_id/area_id", None)
      end
    else if String.eqb atype "set_device_area" then
      match present (payload !! "device_id"), present (payload !! "area_id") with
      | Some device_id, Some area_id =>
          let before := device_by_id reg !! device_id in
          finish st
            (rollback_steps st ++
               [Device_update_step device_id
                  (before_field "area_id" (before ≫= dv_area_id))])
            aid
            (device_update fault (a_ha st) device_id
               (before_field "area_id" (Some area_id)))
      | _, _ => (skip st aid "missing device_id/area_id", None)
      end
    else if String.eqb atype "rename_entity" then
      match present (payload !! "entity_id"), present (payload !! "name") with
      | Some entity_id, Some name =>
          let before := entity_by_id reg !! entity_id in
          finish st
            (rollback_steps st ++
               [Entity_update_step entity_id
                  (before_field "name" (before ≫= er_name))])
            aid
            (entity_update fault (a_ha st) entity_id
               (before_field "name" (Some name)))
      | _, _ => (skip st aid "missing entity_id/name", None)
      end
    else if String.eqb atype "hide_entity" then
      let hidden_by := default "user" (payload !! "hidden_by") in
      match present (payload !! "entity_id") with
      | None => (skip st aid "missing entity_id", None)
      | Some entity_id =>
          let before := entity_by_id reg !! entity_id in
          let steps' :=
            rollback_steps st ++
              [Entity_update_step entity_id
                 (<[ "disabled_by" := before ≫= er_disabled_by ]>
                    (before_field "hidden_by" (before ≫= er_hidden_by)))] in
          match entity_update fault (a_ha st) entity_id
                  (before_field "hidden_by" (Some hidden_by)) with
          | (h, Some r) => finish st steps' aid (h, Some r)
          | (h, None) =>
              finish st steps' aid
                (entity_update fault h entity_id
                   (before_field "disabled_by" (Some hidden_by)))
          end
      end
    else if String.eqb atype "remove_entity_registry_entry" then
      match present (payload !! "entity_id") with
      | None => (skip st aid "missing entity_id", None)
      | Some entity_id =>
          let before := entity_by_id reg !! entity_id in
          finish st
            (rollback_steps st ++ [Entity_restore_note entity_id before])
            aid
            (entity_remove fault (a_ha st) entity_id)
      end
    else if String.eqb atype "rename_device" then
      match present (payload !! "device_id"), present (payload !! "name") with
      | Some device_id, Some name =>
          let before := device_by_id reg !! device_id in
          finish st
            (rollback_steps st ++
               [Device_update_step device_id
                  (before_field "name_by_user" (before ≫= dv_name_by_user))])
            aid
            (device_update fault (a_ha st) device_id
               (before_field "name_by_user" (Some name)))
      | _, _ => (skip st aid "missing device_id/name", None)
      end
    else if String.eqb atype "rename_area" then
      match present (payload !! "area_id"), present (payload !! "name") with
      | Some area_id, Some name =>
          let before := area_by_id reg !! area_id in
          finish st
            (rollback_steps st ++
               [Area_update_step area_id
                  (before_field "name" (before ≫= ar_name))])
            aid
            (area_update fault (a_ha st) area_id name)
      | _, _ => (skip st aid "missing area_id/name", None)
      end
    else (skip st aid ("unsupported action type " +:+ atype), None).

(** [for a in actions]: an exception ends the loop. *)
Fixpoint apply_loop (reg : registries) (approved : gset string)
    (st : astate) (actions : list Action) : astate * option exn :=
  match actions with
  | [] => (st, None)
  | a :: rest =>
      match apply_action reg approved st a with
      | (st', None) => apply_loop reg approved st' rest
      | (st', Some e) => (st', Some e)
      end
  end.

(** Snapshot registries for rollback: three list calls, any of which
    may raise. *)
Definition snapshot_registries (h : ha_state) : ha_state * option registries :=
  match entity_list fault h with
  | (h1, None) => (h1, None)
  | (h1, Some entities) =>
      match area_list fault h1 with
      | (h2, None) => (h2, None)
      | (h2, Some areas) =>
          match device_list fault h2 with
          | (h3, None) => (h3, None)
          | (h3, Some devices) =>
              (h3, Some (registries_of entities areas devices))
          end
      end
  end.

(** [apply]; [now] is [_now_iso()] at the end of the run. *)
Definition apply (now : string) (e : engine) (approved_action_ids : list string)
  : engine * outcome apply_result :=
  match load_plan e with
  | None => (e, Raised (ValueError "No plan.json found; run /plan first"))
  | Some plan =>
      let approved : gset string := list_to_set approved_action_ids in
      match snapshot_registries (ha e) with
      | (h, None) => (with_ha e h, Raised RuntimeError)
      | (h, Some reg) =>
          match apply_loop reg approved (mk_astate h [] [] []) (pl_actions plan) with
          | (st, Some ex) => (with_ha e (a_ha st), Raised ex)
          | (st, None) =>
              let rb := mk_rollback now (rollback_steps st) in
              (save_rollback (with_ha e (a_ha st)) rb,
               Returned (mk_apply_result (applied st) (skipped st) rb))
          end
      end
  end.

(** The local variables of the loop of [rollback]. *)
Record rstate := mk_rstate {
  r_ha : ha_state;
  reverted : nat;
  errors : list (step * exn) }.

Definition reverted_one {A} (st : rstate) (s : step) (r : ha_state * option A)
  : rstate :=
  match r with
  | (h, Some _) => mk_rstate h (S (reverted st)) (errors st)
  | (h, None) => mk_rstate h (reverted st) (errors st ++ [(s, RuntimeError)])
  end.

Definition failed (st : rstate) (s : step) (e : exn) : rstate :=
  mk_rstate (r_ha st) (reverted st) (errors st ++ [(s, e)]).

(** The body of the loop of [rollback]: the [try] block and its handler.
    A [before] map that repeats the target keyword, or that does not fit
    the signature of [area_update], makes the call itself raise
    [TypeError]. *)
Definition rollback_step (st : rstate) (s : step) : rstate :=
  match s with
  | Entity_update_step entity_id before =>
      if bool_decide (is_Some (before !! "entity_id")) then failed st s TypeError
      else reverted_one st s (entity_update fault (r_ha st) entity_id before)
  | Device_update_step device_id before =>
      if bool_decide (is_Some (before !! "device_id")) then failed st s TypeError
      else reverted_one st s (device_update fault (r_ha st) device_id before)
  | Area_update_step area_id before =>
      let clean : gmap string string := omap (fun v => v) before in
      if bool_decide (clean = ∅)
      then mk_rstate (r_ha st) (S (reverted st)) (errors st)
      else match clean !! "name" with
           | Some name =>
               if bool_decide (clean = {[ "name" := name ]})
               then reverted_one st s (area_update fault (r_ha st) area_id name)
               else failed st s TypeError
           | None => failed st s TypeError
           end
  | Note _ _ _ => st
  | Entity_restore_note _ _ => st
  end.

Inductive rollback_result :=
| No_rollback (detail : string)
| Rolled_back (ok : bool) (reverted : nat) (errors : list (step * exn)).


Definition result_errors (r : rollback_result) : list (step * exn) :=
  match r with
  | No_rollback _ => []
  | Rolled_back _ _ errors => errors
  end.

(** [for st in reversed(steps)]. *)
Definition rollback_loop (h : ha_state) (steps : list step) : rstate :=
  foldl rollback_step (mk_rstate h 0 []) (reverse steps).

Definition rollback (e : engine) : engine * rollback_result :=
  match load_rollback e with
  | None => (e, No_rollback "No rollback.json found")
  | Some rb =>
      let st := rollback_loop (ha e) (steps rb) in
      (with_ha e (r_ha st),
       Rolled_back (Nat.eqb (length (errors st)) 0) (reverted st) (errors st))
  end.

(** [_fetch]. *)
Definition _fetch (h : ha_state) : ha_state * option snapshot :=
  match area_list fault h with
  | (h1, None) => (h1, None)
  | (h1, Some areas) =>
      match device_list fault h1 with
      | (h2, None) => (h2, None)
      | (h2, Some devices) =>
          match entity_list fault h2 with
          | (h3, None) => (h3, None)
          | (h3, Some entities) =>
              match get_states fault h3 with
              | (h4, None) => (h4, None)
              | (h4, Some states) =>
                  (h4, Some (mk_snapshot areas devices entities
                                         (index_by st_entity_id states)))
              end
          end
      end
  end.

(** [plan]: fetch, load the rules, run the passes, drop what is
    ignored, persist.  [loaded] is what [_load_rules] returns. *)
Definition plan (uuid4 : nat -> string)
    (_compile_regex : string -> option (string -> bool))
    (onbekend_area_name now : string) (loaded : rules * rules_meta)
    (e : engine) (include_onbekend_fallback : bool)
  : engine * outcome plan_doc :=
  match _fetch (ha e) with
  | (h, None) => (with_ha e h, Raised RuntimeError)
  | (h, Some snap) =>
      let p := build_plan uuid4 _compile_regex onbekend_area_name now snap
                          (fst loaded) (snd loaded) (load_ignored e)
                          include_onbekend_fallback in
      (save_plan (with_ha e h) p, Returned p)
  end.
End Run.
End Executor.

(** ** Notions of the specification, stated independently of the code *)
Module Spec.
Import Engine HA Executor.

(** The first of [keys] that the payload binds to a non-empty value, the
    empty string when there is none: the reading of "first present key"
    under which an absent key and an empty value are both passed over. *)
Fixpoint first_present (p : gmap string string) (keys : list string) : string :=
  match keys with
  | [] => EmptyString
  | k :: rest =>
      match present (p !! k) with
      | Some v => v
      | None => first_present p rest
      end
  end.

Definition fingerprint_keys : list string :=
  ["entity_id"; "device_id"; "area_id"; "name"].

(** [c] occurs in [s]. *)
Fixpoint mentions (c : ascii) (s : string) : bool :=
  match s with
  | EmptyString => false
  | String c' r => Ascii.eqb c' c || mentions c r
  end.

Fixpoint all_digits (s : string) : bool :=
  match s with
  | EmptyString => true
  | String c r => is_digit c && all_digits r
  end.

(** A decimal numeral without leading zero whose value is at least 2: one
    digit from 2 to 9, or a digit from 1 to 9 followed by further digits. *)
Definition numeral_ge2 (s : string) : bool :=
  match s with
  | EmptyString => false
  | String c r =>
      (between 50 57 c && negb (nonempty r))
      || (between 49 57 c && nonempty r && all_digits r)
  end.

(** The entity an action is about. *)
Definition target (a : Action) : option string := act_payload a !! "entity_id".

Definition is_removal (a : Action) : Prop :=
  act_type a = "remove_entity_registry_entry".

Definition is_hide (a : Action) : Prop := act_type a = "hide_entity".















Section Transitions.
Variable uuid4 : nat -> string.

Local Abbreviation emit := (emit uuid4).

(** What one iteration of any loop of [plan] can do to its state. *)
Inductive pstep : pstate -> pstate -> Prop :=
| step_flag s :
    pstep s (set_needs_fallback s)
| step_remove s eid reason conf req :
    eid ∉ planned_entity_remove s ->
    pstep s (add_planned_remove eid
               (emit s "remove_entity_registry_entry" (entity_id_payload eid)
                     reason conf req))
| step_hide s eid reason conf req :
    eid ∉ planned_entity_hide s ->
    pstep s (add_planned_hide eid
               (emit s "hide_entity" (hide_payload eid) reason conf req))
| step_area s eid area reason conf req :
    eid ∉ planned_entity_remove s ->
    (conf = 0.95%Q \/ conf = 0.6%Q -> eid ∉ planned_entity_area s) ->
    conf <> 0.85%Q ->
    pstep s (add_planned_area eid
               (emit s "set_entity_area" (entity_area_payload eid area)
                     reason conf req))
| step_helper s eid area reason req :
    pstep s (emit s "set_entity_area" (entity_area_payload eid area)
                  reason 0.85 req)
| step_other s type payload reason conf req :
    type ∈ ["rename_area"; "set_device_area"; "create_area"; "rename_entity"] ->
    pstep s (emit s type payload reason conf req).

Definition psteps : pstate -> pstate -> Prop := rtc pstep.

(** The condition under which the suffix-duplicate pass proposes the
    removal of [eid]. *)
Definition flagged (ids : gset string) (eid : string) : Prop :=
  fst (is_suffix_duplicate_entity eid) = true
  /\ snd (is_suffix_duplicate_entity eid) ∈ ids.

Definition suffix_removal (n : nat) (eid : string) : Action :=
  mk_action (uuid4 n) "remove_entity_registry_entry" (entity_id_payload eid)
            ("Entity id looks like a suffix duplicate of '"
               +:+ snd (is_suffix_duplicate_entity eid) +:+ "'.")
            0.9 true.

End Transitions.

End Spec.

(** ** Sample inputs *)
Module Samples.
Import Engine HA Executor.

(** Identifiers for the actions of a sample run. *)
Definition sample_uuid4 (n : nat) : string := "action-" +:+ str_nat n.

(** Case-insensitive substring search: what [_compile_regex] yields for a
    pattern without metacharacters.  The sample rules below hold no
    pattern. *)
Definition literal_search (pattern : string) : option (string -> bool) :=
  Some (fun s => contains (lower s) (lower pattern)).

Definition no_fault (n : nat) : bool := false.

(** What a plan proposes: type, entity and area or name of each action,
    with its confidence and approval flag. *)
Definition outline (a : Action)
  : string * option string * option string * option string * Q * bool :=
  (act_type a, act_payload a !! "entity_id", act_payload a !! "area_id",
   act_payload a !! "name", act_confidence a, act_requires_approval a).

Definition bare_entity (entity_id : string) (area_id : option string) : entity :=
  mk_entity (Some entity_id) None None None None area_id None None.

Definition state_on (entity_id : string) : state_obj :=
  mk_state (Some entity_id) (Some "on") None.

(** A house with two areas and four area-less sensors. *)
Definition house_entities : list entity :=
  [bare_entity "sensor.living_room_temp" None;
   bare_entity "sensor.kitchen_temp" None;
   bare_entity "sensor.kitchen_temp_2" None;
   bare_entity "sensor.attic" None].

Definition house_areas : list area :=
  [mk_area (Some "living_room") (Some "Living Room");
   mk_area (Some "kitchen") (Some "Kitchen")].

Definition house_states : gmap string state_obj :=
  index_by st_entity_id
    (state_on <$> ["sensor.living_room_temp"; "sensor.kitchen_temp";
                   "sensor.kitchen_temp_2"; "sensor.attic"]).

Definition house : snapshot := mk_snapshot house_areas [] house_entities house_states.

(** The same house with the fallback area already present. *)
Definition house_with_fallback : snapshot :=
  mk_snapshot (house_areas ++ [mk_area (Some "onbekend") (Some "Onbekend")])
              [] house_entities house_states.



(** A registry with two lights, and a plan of three area assignments, the
    second of which is for an entity the registry does not have. *)
Definition two_lights : ha_state :=
  mk_ha [mk_area (Some "a") (Some "A"); mk_area (Some "b") (Some "B")] []
        [bare_entity "light.x" (Some "a"); bare_entity "light.y" None] [] 1 [].

Definition area_action (id entity_id area_id : string) : Action :=
  mk_action id "set_entity_area" (entity_area_payload entity_id area_id)
            "sample" 1 false.

Definition plan_of (acts : list Action) : plan_doc :=
  mk_plan "2024-01-01T00:00:00+00:00" (mk_rules_meta None None) acts ∅ 0.


(** A plan that moves one light twice, with an action that stays
    unapproved. *)
Definition engine_twice : engine :=
  mk_engine two_lights
            (Some (plan_of [area_action "1" "light.x" "b";
                            area_action "2" "light.x" "c";
                            mk_action "3" "hide_entity" (hide_payload "light.y")
                                      "sample" 0.9 true]))
            None None.



(** The run of [apply] on [engine_twice] without approvals, and what it
    returns. *)
Definition run_twice : engine * outcome apply_result :=
  apply no_fault "2024-01-02T00:00:00+00:00" engine_twice [].

Definition result_twice : apply_result :=
  match run_twice.2 with
  | Returned res => res
  | Raised _ => mk_apply_result [] [] (mk_rollback EmptyString [])
  end.

End Samples.

(** ** [HousekeeperEngine.audit] *)
Module Audit.
Import Engine HA Executor.

(** The lists of the report; each entry keeps the fields of the dictionary
    the source appends. *)
Record report := mk_report {
  generated_at : string;
  devices_without_area : list (option string * string);
  entities_without_effective_area : list (string * string * option string);
  suffix_duplicate_entities : list (string * string);
  unique_id_duplicates : list (string * list string);
  generic_media_players : list (string * string * option string);
  helpers : list (string * option string);
  area_id_by_name : gmap string string;
  area_name_by_id : gmap string (option string) }.

(** The ["counts"] of the report. *)
Record counts := mk_counts {
  n_areas : nat;
  n_devices : nat;
  n_entities : nat;
  n_devices_without_area : nat;
  n_entities_without_effective_area : nat;
  n_suffix_duplicate_entities : nat;
  n_unique_id_duplicate_groups : nat;
  n_generic_media_players : nat }.

Definition device_without_area (dv : device) : option (option string * string) :=
  if truthy (dv_area_id dv) then None
  else Some (dv_id dv,
             str_or_empty (or_ (or_ (dv_name_by_user dv) (dv_name dv))
                               (Some EmptyString))).

Definition entity_without_effective_area (snap : snapshot)
    (device_by_id : gmap string device) (er : entity)
  : option (string * string * option string) :=
  match present (er_entity_id er) with
  | None => None
  | Some entity_id =>
      if negb (_is_active_state (states_by_entity_id snap !! entity_id)) then None
      else if truthy (_effective_area_id er device_by_id) then None
      else Some (entity_id,
                 str_or_empty (or_ (or_ (er_name er) (er_original_name er))
                                   (Some EmptyString)),
                 er_device_id er)
  end.

Definition suffix_duplicate (entity_ids : gset string) (er : entity)
  : option (string * string) :=
  match present (er_entity_id er) with
  | None => None
  | Some entity_id =>
      let '(is_dup, base) := is_suffix_duplicate_entity entity_id in
      if is_dup && bool_decide (base ∈ entity_ids) then Some (entity_id, base)
      else None
  end.

Definition unique_id_group (g : string * list string)
  : option (string * list string) :=
  let '(uid, eids) := g in
  if (1 <? length eids)%nat then Some (uid, sorted String.leb eids) else None.

Definition generic_media_player (snap : snapshot)
    (device_by_id : gmap string device) (er : entity)
  : option (string * string * option string) :=
  match present (er_entity_id er) with
  | None => None
  | Some entity_id =>
      if negb (startswith entity_id "media_player.") then None
      else
        let st := states_by_entity_id snap !! entity_id in
        if negb (_is_active_state st) then None
        else
          let friendly := media_current er st in
          if _looks_generic_media_name friendly
          then Some (entity_id, friendly, _effective_area_id er device_by_id)
          else None
  end.

Definition helper (snap : snapshot) (device_by_id : gmap string device)
    (er : entity) : option (string * option string) :=
  let entity_id := str_or_empty (er_entity_id er) in
  if negb (startswith entity_id "input_" || startswith entity_id "sensor."
           || startswith entity_id "template.") then None
  else if negb (_is_active_state (states_by_entity_id snap !! entity_id)) then None
  else Some (entity_id, _effective_area_id er device_by_id).

(** [{a.get("name"): a.get("area_id") for a in areas if name and area_id}]. *)
Definition area_id_by_name_of (areas : list area) : gmap string string :=
  foldl (fun m a => match present (ar_name a), present (ar_area_id a) with
                    | Some nm, Some i => <[nm := i]> m
                    | _, _ => m
                    end) ∅ areas.

(** [{a.get("area_id"): a.get("name") for a in areas if a.get("area_id")}]. *)
Definition name_by_area_id (areas : list area) : gmap string (option string) :=
  foldl (fun m a => match present (ar_area_id a) with
                    | Some i => <[i := ar_name a]> m
                    | None => m
                    end) ∅ areas.

(** The report [audit] builds from a fetched snapshot; [now] is
    [_now_iso()]. *)
Definition build_report (now : string) (snap : snapshot) : report :=
  let device_by_id := index_by dv_id (devices snap) in
  let entity_ids := entity_ids_of (entities snap) in
  mk_report now
    (omap device_without_area (devices snap))
    (omap (entity_without_effective_area snap device_by_id) (entities snap))
    (omap (suffix_duplicate entity_ids) (entities snap))
    (omap unique_id_group (by_unique_id_of (entities snap)))
    (omap (generic_media_player snap device_by_id) (entities snap))
    (omap (helper snap device_by_id) (entities snap))
    (area_id_by_name_of (areas snap))
    (name_by_area_id (areas snap)).

Definition report_counts (snap : snapshot) (r : report) : counts :=
  mk_counts (length (areas snap)) (length (devices snap)) (length (entities snap))
            (length (devices_without_area r))
            (length (entities_without_effective_area r))
            (length (suffix_duplicate_entities r))
            (length (unique_id_duplicates r))
            (length (generic_media_players r)).

(** [audit]: fetch, then report; the engine's documents are not touched. *)
Definition audit (fault : nat -> bool) (now : string) (e : engine)
  : engine * outcome (report * counts) :=
  match _fetch fault (ha e) with
  | (h, None) => (with_ha e h, Raised RuntimeError)
  | (h, Some snap) =>
      let r := build_report now snap in
      (with_ha e h, Returned (r, report_counts snap r))
  end.

End Audit.

(** ** [housekeeper/rules.py] *)
Module Rules.
Import Engine.

Definition DEFAULT_RULES_PATH : string := "/app/config/rules.yaml".

(** One round of the de-duplication loop of [_candidate_paths]: [seen] and
    [uniq]. *)
Definition uniq_step (acc : gset string * list string) (p : string)
  : gset string * list string :=
  if bool_decide (p ∈ acc.1) then acc
  else ({[p]} ∪ acc.1, acc.2 ++ [p]).

(** The list [out] before de-duplication. *)
Definition candidate_out (explicit_path : option string) : list string :=
  match present explicit_path with
  | Some p => [p]
  | None => []
  end
  ++ ["/config/ha_housekeeper/rules.yaml";
      "/config/ha_housekeeper_rules.yaml";
      DEFAULT_RULES_PATH].

Definition _candidate_paths (explicit_path : option string) : list string :=
  (foldl uniq_step (∅, []) (candidate_out explicit_path)).2.

(** What opening and parsing a rules file gives: a mapping, a falsy
    document (read as the empty mapping), another kind of root, or an
    exception with its message. *)
Inductive yaml :=
| Yaml_mapping (data : rules)
| Yaml_empty
| Yaml_other
| Yaml_error (msg : string).

Section Files.
(** [os.path.exists], and [open] followed by [yaml.safe_load]. *)
Variable path_exists : string -> bool.
Variable safe_load : string -> yaml.

Fixpoint first_existing (paths : list string) : option string :=
  match paths with
  | [] => None
  | p :: rest =>
      if nonempty p && path_exists p then Some p else first_existing rest
  end.

Definition find_rules_path (explicit_path : option string) : option string :=
  first_existing (_candidate_paths explicit_path).

Definition load_rules (explicit_path : option string) : rules * rules_meta :=
  match find_rules_path explicit_path with
  | None => (empty_rules, mk_rules_meta None (Some "No rules file found"))
  | Some path =>
      match safe_load path with
      | Yaml_mapping data => (data, mk_rules_meta (Some path) None)
      | Yaml_empty => (empty_rules, mk_rules_meta (Some path) None)
      | Yaml_other =>
          (empty_rules,
           mk_rules_meta (Some path)
                         (Some "Rules file root must be a mapping/object"))
      | Yaml_error msg => (empty_rules, mk_rules_meta (Some path) (Some msg))
      end
  end.
End Files.

End Rules.

(** ** [api/dependencies.py]: the Supervisor token *)
Module Dependencies.

(** What is found at a path: nothing, a file that cannot be read, or a
    file with its text. *)
Inductive file :=
| Missing
| Unreadable
| Content (text : string).

Definition s6_dirs : list string :=
  ["/var/run/s6/container_environment"; "/run/s6/container_environment"].

Section Environment.
(** [os.environ] and the file system. *)
Variable environ : string -> option string.
Variable file_at : string -> file.

(** [os.environ.get(k, default)] with the empty string as default. *)
Definition getenv (k : string) : string := str_or_empty (environ k).

(** The loop over the s6 directories: the first file whose stripped
    text is not empty ends it. *)
Fixpoint s6_token (token : string) (dirs : list string) : string :=
  match dirs with
  | [] => token
  | s6_dir :: rest =>
      match file_at (s6_dir +:+ "/SUPERVISOR_TOKEN") with
      | Content text =>
          let token := strip text in
          if nonempty token then token else s6_token token rest
      | Unreadable => s6_token token rest
      | Missing => s6_token token rest
      end
  end.

Definition _get_supervisor_token : string :=
  let token := getenv "SUPERVISOR_TOKEN" in
  let token := if nonempty token then token else s6_token token s6_dirs in
  if nonempty token then token else getenv "HASSIO_TOKEN".
End Environment.

End Dependencies.

(** ** Further notions used to state properties *)
Module Notions.
Import Engine HA Executor Spec.

(** Every character of [s] is of the class [[a-z0-9]]. *)
Fixpoint all_token_chars (s : string) : bool :=
  match s with
  | EmptyString => true
  | String c r => is_token_char c && all_token_chars r
  end.

(** *** The approval gate of [apply] *)

(** The action passes the gate: it needs no approval, or its id is among
    the approved ones. *)
Definition permitted (approved : gset string) (a : Action) : bool :=
  negb (act_requires_approval a) || bool_decide (act_id a ∈ approved).

(** The request [r] is one the action [a] stands for: its kind fits the
    type of the action, and its target and its value are the ones of the
    payload. *)
Definition asks (a : Action) (r : request) : Prop :=
  let p := act_payload a in
  match r with
  | Area_create name => act_type a = "create_area" /\ p !! "name" = Some name
  | Area_update area_id name =>
      act_type a = "rename_area"
      /\ p !! "area_id" = Some area_id /\ p !! "name" = Some name
  | Entity_update entity_id kwargs =>
      p !! "entity_id" = Some entity_id
      /\ ((act_type a = "set_entity_area"
           /\ exists v, p !! "area_id" = Some v
                        /\ kwargs = {[ "area_id" := Some v ]})
          \/ (act_type a = "rename_entity"
              /\ exists v, p !! "name" = Some v
                           /\ kwargs = {[ "name" := Some v ]})
          \/ (act_type a = "hide_entity"
              /\ exists k, (k = "hidden_by" \/ k = "disabled_by")
                           /\ kwargs
                              = {[ k := Some (default "user"
                                                      (p !! "hidden_by")) ]}))
  | Entity_remove entity_id =>
      act_type a = "remove_entity_registry_entry"
      /\ p !! "entity_id" = Some entity_id
  | Device_update device_id kwargs =>
      p !! "device_id" = Some device_id
      /\ ((act_type a = "set_device_area"
           /\ exists v, p !! "area_id" = Some v
                        /\ kwargs = {[ "area_id" := Some v ]})
          \/ (act_type a = "rename_device"
              /\ exists v, p !! "name" = Some v
                           /\ kwargs = {[ "name_by_user" := Some v ]}))
  | Area_list | Device_list | Entity_list | Get_states => False
  end.

(** The registry contents of a client state. *)
Definition registry (h : ha_state)
  : list area * list device * list entity * list state_obj :=
  (reg_areas h, reg_devices h, reg_entities h, reg_states h).

(** *** Rollback steps that [rollback] can replay *)

(** The keyword arguments [entity_update], [device_update] and
    [area_update] accept besides the target. *)
Definition entity_keywords : gset string :=
  {[ "area_id"; "name"; "hidden_by"; "disabled_by" ]}.
Definition device_keywords : gset string := {[ "area_id"; "name_by_user" ]}.
Definition area_keywords : gset string := {[ "name" ]}.

(** The [before] map of the step holds keyword arguments of its call
    only. *)
Definition replayable (s : step) : bool :=
  match s with
  | Entity_update_step _ before => bool_decide (dom before ⊆ entity_keywords)
  | Device_update_step _ before => bool_decide (dom before ⊆ device_keywords)
  | Area_update_step _ before => bool_decide (dom before ⊆ area_keywords)
  | Note _ _ _ | Entity_restore_note _ _ => true
  end.

(** *** What [apply] needs of an action *)



(** *** Where the actions of a plan come from *)
Section Origin.
Variable snap : snapshot.
Variable rules : rules.
Variable onbekend_area_name : string.

Definition known_entity (entity_id : string) : Prop :=
  entity_id ∈ entity_ids_of (entities snap).

Definition known_device (device_id : string) : Prop :=
  exists dv, dv ∈ devices snap /\ present (dv_id dv) = Some device_id.

Definition active (entity_id : string) : Prop :=
  _is_active_state (states_by_entity_id snap !! entity_id) = true.

(** A registry entry of the entity has no [area_id] of its own; has no
    effective area. *)
Definition lacks_own_area (entity_id : string) : Prop :=
  exists er, er ∈ entities snap
             /\ present (er_entity_id er) = Some entity_id
             /\ truthy (er_area_id er) = false.

Definition lacks_effective_area (entity_id : string) : Prop :=
  exists er, er ∈ entities snap
             /\ present (er_entity_id er) = Some entity_id
             /\ truthy (_effective_area_id er (index_by dv_id (devices snap)))
                = false.

(** The [requires_approval] entries of the rules that carry one. *)
Definition approval_flags : list (option bool) :=
  (rn_requires_approval <$> area_renames rules)
    ++ (rx_requires_approval <$> ir_regex (Model.entity_remove rules))
    ++ (rx_requires_approval <$> ir_regex (Model.entity_hide rules))
    ++ (arl_requires_approval <$> entity_area rules)
    ++ (arl_requires_approval <$> device_area rules)
    ++ (hr_requires_approval <$> helper_area_rules rules).

(** [req] is what some rule says about approval; approval is required
    unless the rule says otherwise. *)
Definition by_rule (req : bool) : Prop :=
  exists o, o ∈ approval_flags /\ req = flag true o.

(** The actions the passes of [plan] can propose, with what is known
    where each is proposed. *)
Inductive origin : Action -> Prop :=
| origin_rename_area id area_id name reason req :
    area_id <> EmptyString -> name <> EmptyString -> by_rule req ->
    origin (mk_action id "rename_area"
                      (rename_payload "area_id" area_id name) reason 0.9 req)
| origin_removal id entity_id reason confidence req :
    known_entity entity_id ->
    (confidence = 1%Q /\ req = true)
    \/ (confidence = 0.95%Q /\ by_rule req)
    \/ (confidence = 0.9%Q /\ req = true) ->
    origin (mk_action id "remove_entity_registry_entry"
                      (entity_id_payload entity_id) reason confidence req)
| origin_hide id entity_id reason confidence req :
    known_entity entity_id ->
    (confidence = 1%Q /\ req = true)
    \/ (confidence = 0.95%Q /\ by_rule req)
    \/ (confidence = 0.9%Q /\ req = true) ->
    origin (mk_action id "hide_entity" (hide_payload entity_id)
                      reason confidence req)
| origin_entity_area id entity_id area_id reason confidence req :
    known_entity entity_id -> active entity_id -> area_id <> EmptyString ->
    (confidence = 1%Q /\ req = false /\ lacks_own_area entity_id)
    \/ (confidence = 0.95%Q /\ req = false /\ lacks_effective_area entity_id)
    \/ (confidence = 0.6%Q /\ req = true /\ lacks_effective_area entity_id)
    \/ (confidence = 0.9%Q /\ by_rule req)
    \/ (confidence = 0.85%Q /\ by_rule req /\ lacks_effective_area entity_id) ->
    origin (mk_action id "set_entity_area"
                      (entity_area_payload entity_id area_id)
                      reason confidence req)
| origin_device_area id device_id area_id reason confidence req :
    known_device device_id -> area_id <> EmptyString ->
    (confidence = 0.98%Q /\ req = false)
    \/ (confidence = 0.9%Q /\ by_rule req) ->
    origin (mk_action id "set_device_area"
                      (device_area_payload device_id area_id)
                      reason confidence req)
| origin_create_area id reason :
    origin (mk_action id "create_area" {[ "name" := onbekend_area_name ]}
                      reason 0.6 true)
| origin_rename_entity id entity_id name reason :
    known_entity entity_id -> active entity_id -> name <> EmptyString ->
    origin (mk_action id "rename_entity"
                      (rename_payload "entity_id" entity_id name)
                      reason 0.8 true).
End Origin.

(** *** The ignore list *)

(** The list [sorted(s)] of a set of fingerprints. *)
Definition canonical (X : gset string) : list string :=
  sorted String.leb (elements X).

(** *** What one run of [apply] sends *)

(** What one iteration of [apply] sends and records. *)
Definition gated (approved : gset string) (a : Action) (st st' : astate)
  : Prop :=
  exists new,
    attempted (a_ha st') = attempted (a_ha st) ++ new
    /\ (new <> [] -> permitted approved a = true)
    /\ Forall (asks a) new
    /\ (applied st' = applied st
        \/ (permitted approved a = true
            /\ applied st' = applied st ++ [act_id a])).

(** [x] is related by [R] to an action of [acts] that passes the gate. *)
Definition from_permitted {A} (approved : gset string) (acts : list Action)
    (R : Action -> A -> Prop) (x : A) : Prop :=
  exists a, a ∈ acts /\ permitted approved a = true /\ R a x.

(** *** The state of the planner *)

(** The identifiers of the actions are the draws of [uuid4], in order. *)
Definition ids_in_order (uuid4 : nat -> string) (s : pstate) : Prop :=
  act_id <$> actions s = uuid4 <$> seq 0 (length (actions s)).

(** Every marker is backed by an action of its kind for that entity. *)
Definition backed (s : pstate) : Prop :=
  (forall eid, eid ∈ planned_entity_area s ->
               exists a, a ∈ actions s /\ act_type a = "set_entity_area"
                         /\ target a = Some eid)
  /\ (forall eid, eid ∈ planned_entity_remove s ->
                  exists a, a ∈ actions s /\ is_removal a
                            /\ target a = Some eid)
  /\ (forall eid, eid ∈ planned_entity_hide s ->
                  exists a, a ∈ actions s /\ is_hide a
                            /\ target a = Some eid).

Definition area_or_removal (s : pstate) : gset string :=
  planned_entity_area s ∪ planned_entity_remove s.

Definition hide_or_removal (s : pstate) : gset string :=
  planned_entity_hide s ∪ planned_entity_remove s.

(** The name the media pass gives in the area [area_id]. *)
Definition media_name (snap : snapshot) (area_id entity_id current suffix : string)
  : string :=
  _media_base_label entity_id current +:+ " "
    +:+ str_or_empty (or_ (area_name_by_id_of (areas snap) !! area_id)
                          (Some area_id))
    +:+ suffix.

(** The action renames the media player [item] after the area. *)
Definition renames (snap : snapshot) (area_id : string)
    (item : string * string) (a : Action) : Prop :=
  act_type a = "rename_entity"
  /\ act_requires_approval a = true
  /\ exists suffix,
       act_payload a
       = rename_payload "entity_id" (fst item)
                        (media_name snap area_id (fst item) (snd item) suffix).

(** *** The sources of the Supervisor token *)

(** The s6 file in [dir] yields no token: there is none, it cannot be
    read, or its text is blank. *)
Definition blank (file_at : string -> Dependencies.file) (dir : string) : Prop :=
  match file_at (dir +:+ "/SUPERVISOR_TOKEN") with
  | Dependencies.Content text => strip text = EmptyString
  | Dependencies.Unreadable | Dependencies.Missing => True
  end.

End Notions.

(** ** Further sample inputs *)
Module Cases.
Import Engine HA Executor Samples.

(** A file system that holds one rules file. *)
Definition only_data_rules (p : string) : bool :=
  String.eqb p "/data/rules.yaml".

(** A stored plan whose only action needs approval. *)
Definition unapproved_plan : plan_doc :=
  plan_of [mk_action "3" "hide_entity" (hide_payload "light.y")
                     "sample" 0.9 true].

Definition engine_unapproved : engine :=
  mk_engine two_lights (Some unapproved_plan) None None.



End Cases.

(** * Properties *)

(** ** Fingerprints and the ignore list *)
Module FingerprintFacts.
Import Engine Executor Spec.

Lemma present_Some o v : present o = Some v <-> o = Some v /\ v <> EmptyString.
Proof.
  unfold present. destruct o as [[|c r]|]; simpl; split;
    try discriminate; try (intros [[= <-] ?]; congruence); try (intros [[=] ?]).
  intros [= <-]. split; [reflexivity | discriminate].
Qed.

Lemma present_None_absent (o : option string) : o = None -> present o = None.
Proof. by intros ->. Qed.

Lemma fingerprint_key_first_present p :
  fingerprint_key p = first_present p fingerprint_keys.
Proof.
  unfold fingerprint_key, fingerprint_keys, first_present, or_, present.
  destruct (p !! "entity_id") as [[|? ?]|]; simpl;
    destruct (p !! "device_id") as [[|? ?]|]; simpl;
    destruct (p !! "area_id") as [[|? ?]|]; simpl;
    destruct (p !! "name") as [[|? ?]|]; reflexivity.
Qed.



Lemma insert_sorted_elem {A} (le : A -> A -> bool) x y l :
  y ∈ insert_sorted le x l <-> y = x \/ y ∈ l.
Proof.
  induction l as [|z l IH]; simpl.
  - rewrite list_elem_of_singleton. set_solver.
  - destruct (le z x); rewrite !elem_of_cons; [rewrite IH |]; tauto.
Qed.

Lemma sorted_acc_elem {A} (le : A -> A -> bool) l acc y :
  y ∈ foldl (fun acc x => insert_sorted le x acc) acc l <-> y ∈ acc \/ y ∈ l.
Proof.
  revert acc. induction l as [|x l IH]; intros acc; simpl.
  - set_solver.
  - rewrite IH, insert_sorted_elem, elem_of_cons. tauto.
Qed.

Lemma sorted_elem {A} (le : A -> A -> bool) l y : y ∈ sorted le l <-> y ∈ l.
Proof. unfold sorted. rewrite sorted_acc_elem. set_solver. Qed.




(** C5.  The fingerprint depends on the type and the payload only, and it
    is the type, a colon, and the value of the first of [entity_id],
    [device_id], [area_id], [name] that the payload holds (bound to a
    non-empty value), the empty string when it holds none. *)
Theorem action_fingerprint_pure (a1 a2 : Action)
    (Htype : act_type a1 = act_type a2)
    (Hpayload : act_payload a1 = act_payload a2) :
  action_fingerprint a1 = action_fingerprint a2
  /\ action_fingerprint a1
     = act_type a1 +:+ ":" +:+ first_present (act_payload a1) fingerprint_keys.
Proof.
  unfold action_fingerprint. rewrite Htype, Hpayload. split; [reflexivity |].
  by rewrite fingerprint_key_first_present.
Qed.

Lemma action_fingerprint_pure_witness :
  let a1 := mk_action "id-1" "set_entity_area"
                      (entity_area_payload "light.desk" "office") "first" 1 false in
  let a2 := mk_action "id-2" "set_entity_area"
                      (entity_area_payload "light.desk" "office") "second" 0.6 true in
  action_fingerprint a1 = action_fingerprint a2
  /\ action_fingerprint a1 = "set_entity_area:light.desk".
Proof.
  intros a1 a2.
  destruct (action_fingerprint_pure a1 a2 eq_refl eq_refl) as [H1 H2].
  split; [exact H1 |]. rewrite H2. vm_compute. reflexivity.
Defined.

(** An empty value is passed over like an absent key. *)
Example fingerprint_skips_empty_value :
  action_fingerprint
    (mk_action "id" "set_device_area"
               (<[ "entity_id" := EmptyString ]> (device_area_payload "d1" "office"))
               "r" 1 false)
  = "set_device_area:d1".
Proof. vm_compute. reflexivity. Qed.



End FingerprintFacts.

(** ** The suffix-duplicate pattern *)
Module SuffixFacts.
Import Spec.

Local Arguments String.append !_ _ / : simpl nomatch.

Lemma append_nil_r (s : string) : s +:+ EmptyString = s.
Proof. induction s; simpl; congruence. Qed.

Lemma append_assoc (a b c : string) : (a +:+ b) +:+ c = a +:+ (b +:+ c).
Proof. induction a; simpl; congruence. Qed.

Lemma mentions_append c a b : mentions c (a +:+ b) = mentions c a || mentions c b.
Proof. induction a as [|x a IH]; simpl; [done |]. by rewrite IH, orb_assoc. Qed.

Lemma nonempty_append_l a b : nonempty a = true -> nonempty (a +:+ b) = true.
Proof. by destruct a. Qed.

Lemma is_digit_not c x : is_digit c = true -> is_digit x = false -> Ascii.eqb c x = false.
Proof.
  intros Hc Hx. destruct (Ascii.eqb_spec c x) as [-> |]; [congruence | done].
Qed.

Lemma all_digits_mentions s x :
  is_digit x = false -> all_digits s = true -> mentions x s = false.
Proof.
  intros Hx. induction s as [|c s IH]; simpl; [done |].
  intros [Hc Hs]%andb_prop. by rewrite (is_digit_not c x), IH.
Qed.

Lemma between_digit lo hi c :
  (48 <= lo)%nat -> (hi <= 57)%nat -> between lo hi c = true -> is_digit c = true.
Proof.
  unfold is_digit, between. intros Hlo Hhi [H1 H2]%andb_prop.
  apply Nat.leb_le in H1, H2. apply andb_true_intro.
  split; apply Nat.leb_le; lia.
Qed.

Lemma numeral_ge2_digits s : numeral_ge2 s = true -> all_digits s = true.
Proof.
  destruct s as [|c r]; simpl; [done |].
  intros [[H1 H2]%andb_prop | [[H1 H2]%andb_prop H3]%andb_prop]%orb_prop.
  - rewrite (between_digit 50 57) by (done || lia). by destruct r.
  - rewrite (between_digit 49 57) by (done || lia). done.
Qed.

(** On a string without line feed, [$] is the end of the string. *)
Lemma at_dollar_no_newline r :
  mentions newline r = false -> at_dollar r = negb (nonempty r).
Proof.
  destruct r as [|c [|c' r]]; simpl; try done.
  intros [H _]%orb_false_elim. by rewrite H.
Qed.

Lemma digits_dollar_no_newline r :
  mentions newline r = false -> digits_dollar r = nonempty r && all_digits r.
Proof.
  induction r as [|c r IH]; simpl; [done |].
  intros [_ Hr]%orb_false_elim.
  rewrite IH, at_dollar_no_newline by done.
  destruct (is_digit c); [| done]. destruct r; simpl; [done |].
  by rewrite orb_false_r.
Qed.

Lemma suffix_number_no_newline s :
  mentions newline s = false -> suffix_number_dollar s = numeral_ge2 s.
Proof.
  destruct s as [|c r]; simpl; [done |].
  intros [_ Hr]%orb_false_elim.
  rewrite at_dollar_no_newline, digits_dollar_no_newline by done.
  by rewrite andb_assoc.
Qed.

(** *** Numerals and [str] *)
Lemma string_of_uint_digits d : all_digits (NilEmpty.string_of_uint d) = true.
Proof. induction d; simpl; done. Qed.

Lemma string_of_uint_nonempty d :
  d <> Decimal.Nil -> nonempty (NilEmpty.string_of_uint d) = true.
Proof. destruct d; simpl; congruence. Qed.

Lemma uint_of_digits s :
  all_digits s = true -> exists d, NilEmpty.uint_of_string s = Some d.
Proof.
  induction s as [|c s IH]; simpl; [eauto |].
  intros [Hc Hs]%andb_prop. destruct (IH Hs) as [d ->].
  destruct c as [[|] [|] [|] [|] [|] [|] [|] [|]];
    try discriminate Hc; simpl; eauto.
Qed.

Lemma to_uint_normal n : Decimal.unorm (Nat.to_uint n) = Nat.to_uint n.
Proof. by rewrite <- Unsigned.to_of, Unsigned.of_to. Qed.

Lemma str_nat_numeral n : (2 <= n)%nat -> numeral_ge2 (str_nat n) = true.
Proof.
  intros Hn. unfold str_nat, NilZero.string_of_uint.
  pose proof (to_uint_normal n) as Hnorm.
  pose proof (Unsigned.of_to n) as Hof.
  destruct (Nat.to_uint n) as [|d|d|d|d|d|d|d|d|d|d] eqn:E.
  - by destruct (unorm_nonnil Decimal.Nil).
  - rewrite unorm_D0 in Hnorm.
    assert (d = Decimal.Nil) as ->.
    { unfold Decimal.unorm in Hnorm.
      destruct (Decimal.nzhead d) eqn:Hz; try discriminate Hnorm.
      - congruence.
      - exfalso. eapply nzhead_nonzero. eassumption. }
    cbv in Hof. lia.
  - simpl. destruct d; simpl; try (by rewrite ?string_of_uint_digits).
    cbv in Hof. lia.
  - simpl. destruct d; simpl; by rewrite ?string_of_uint_digits.
  - simpl. destruct d; simpl; by rewrite ?string_of_uint_digits.
  - simpl. destruct d; simpl; by rewrite ?string_of_uint_digits.
  - simpl. destruct d; simpl; by rewrite ?string_of_uint_digits.
  - simpl. destruct d; simpl; by rewrite ?string_of_uint_digits.
  - simpl. destruct d; simpl; by rewrite ?string_of_uint_digits.
  - simpl. destruct d; simpl; by rewrite ?string_of_uint_digits.
  - simpl. destruct d; simpl; by rewrite ?string_of_uint_digits.
Qed.

Lemma numeral_str_nat s :
  numeral_ge2 s = true -> exists n, (2 <= n)%nat /\ s = str_nat n.
Proof.
  intros Hs. pose proof (numeral_ge2_digits s Hs) as Hd.
  destruct (uint_of_digits s Hd) as [d Hparse].
  pose proof (NilEmpty.sus s d Hparse) as Hprint.
  assert (Hnorm : Decimal.unorm d = d /\ d <> Decimal.Nil).
  { destruct s as [|c r]; [discriminate Hs |].
    simpl in Hparse. destruct (NilEmpty.uint_of_string r) as [d'|]; [| done].
    simpl in Hs.
    destruct c as [[|] [|] [|] [|] [|] [|] [|] [|]];
      try discriminate Hs; simpl in Hparse; injection Hparse as <-; done. }
  destruct Hnorm as [Hnorm Hnil].
  exists (Nat.of_uint d).
  assert (Hstr : str_nat (Nat.of_uint d) = s).
  { unfold str_nat. rewrite Unsigned.to_of, Hnorm.
    unfold NilZero.string_of_uint. by destruct d. }
  split; [| done].
  destruct (Nat.of_uint d) as [|[|n]] eqn:E; [| | lia].
  - rewrite <- Hstr in Hs. by vm_compute in Hs.
  - rewrite <- Hstr in Hs. by vm_compute in Hs.
Qed.

Lemma numeral_ge2_iff s :
  numeral_ge2 s = true <-> exists n, (2 <= n)%nat /\ s = str_nat n.
Proof.
  split; [apply numeral_str_nat |]. intros (n & Hn & ->). by apply str_nat_numeral.
Qed.

(** *** The greedy match *)
Lemma match_base_sound s : forall acc b,
  match_base s acc = Some b ->
  exists pre post,
    s = pre +:+ String underscore post /\ b = acc +:+ pre
    /\ nonempty b = true /\ suffix_number_dollar post = true.
Proof.
  induction s as [|c r IH]; intros acc b; simpl; [done |].
  destruct (if Ascii.eqb c newline then None
            else match_base r (acc +:+ String c EmptyString)) as [b'|] eqn:Hl.
  - intros [= ->]. destruct (Ascii.eqb c newline); [done |].
    destruct (IH _ _ Hl) as (pre & post & -> & -> & Hne & Hnum).
    exists (String c pre), post. rewrite append_assoc in *. done.
  - destruct (nonempty acc && Ascii.eqb c underscore && suffix_number_dollar r)
      eqn:Hc; [| done].
    intros [= ->]. apply andb_prop in Hc as [[H1 H2]%andb_prop H3].
    apply Ascii.eqb_eq in H2 as ->.
    exists EmptyString, r. by rewrite append_nil_r.
Qed.

Lemma match_base_complete pre : forall acc post,
  mentions newline pre = false ->
  nonempty (acc +:+ pre) = true ->
  suffix_number_dollar post = true ->
  exists b, match_base (pre +:+ String underscore post) acc = Some b.
Proof.
  induction pre as [|c pre IH]; intros acc post Hnl Hne Hnum; simpl.
  - rewrite append_nil_r in Hne. rewrite Hne, Hnum. simpl.
    destruct (match_base post _); eauto.
  - simpl in Hnl. apply orb_false_elim in Hnl as [Hc Hnl]. rewrite Hc.
    destruct (IH (acc +:+ String c EmptyString) post Hnl) as [b Hb].
    + by rewrite append_assoc.
    + done.
    + rewrite Hb. eauto.
Qed.

Lemma split_unique pre1 : forall pre2 post1 post2,
  mentions underscore post1 = false ->
  mentions underscore post2 = false ->
  pre1 +:+ String underscore post1 = pre2 +:+ String underscore post2 ->
  pre1 = pre2 /\ post1 = post2.
Proof.
  induction pre1 as [|c pre1 IH]; intros [|c2 pre2] post1 post2 H1 H2; simpl.
  - by intros [= ->].
  - intros [= <- ->]. rewrite mentions_append in H1. simpl in H1.
    by rewrite orb_true_r in H1.
  - intros [= -> <-]. rewrite mentions_append in H2. simpl in H2.
    by rewrite orb_true_r in H2.
  - intros [= -> H]. destruct (IH _ _ _ H1 H2 H) as [-> ->]. done.
Qed.

Lemma numeral_no_underscore s : numeral_ge2 s = true -> mentions underscore s = false.
Proof. intros H. apply all_digits_mentions; [done |]. by apply numeral_ge2_digits. Qed.

Lemma is_suffix_duplicate_iff id :
  mentions newline id = false ->
  (fst (is_suffix_duplicate_entity id) = true
   <-> exists base n,
         base <> EmptyString /\ (2 <= n)%nat
         /\ id = base +:+ "_" +:+ str_nat n)
  /\ (forall base n,
        base <> EmptyString -> (2 <= n)%nat ->
        id = base +:+ "_" +:+ str_nat n ->
        is_suffix_duplicate_entity id = (true, base)).
Proof.
  intros Hnl.
  assert (Hfwd : forall b, match_base id EmptyString = Some b ->
            exists n, b <> EmptyString /\ (2 <= n)%nat
                      /\ id = b +:+ "_" +:+ str_nat n).
  { intros b Hb. destruct (match_base_sound _ _ _ Hb) as (pre & post & -> & -> & Hne & Hnum).
    simpl in *. rewrite mentions_append in Hnl. simpl in Hnl.
    apply orb_false_elim in Hnl as [_ Hnl].
    rewrite suffix_number_no_newline in Hnum by done.
    destruct (numeral_str_nat _ Hnum) as (n & Hn & ->).
    exists n. split; [by destruct pre | done]. }
  assert (Hbwd : forall base n,
            base <> EmptyString -> (2 <= n)%nat ->
            id = base +:+ "_" +:+ str_nat n ->
            match_base id EmptyString = Some base).
  { intros base n Hbase Hn ->.
    pose proof (str_nat_numeral n Hn) as Hnum.
    rewrite mentions_append in Hnl. simpl in Hnl.
    apply orb_false_elim in Hnl as [Hnl1 Hnl2].
    destruct (match_base_complete base EmptyString (str_nat n)) as [b Hb];
      [done | by destruct base | by rewrite suffix_number_no_newline |].
    change (base +:+ "_" +:+ str_nat n) with (base +:+ String underscore (str_nat n)).
    rewrite Hb. f_equal.
    destruct (match_base_sound _ _ _ Hb) as (pre & post & Heq & -> & Hne & Hnum').
    assert (Hpost : mentions newline post = false).
    { apply (f_equal (mentions newline)) in Heq.
      rewrite !mentions_append in Heq. simpl in Heq.
      rewrite Hnl1, Hnl2 in Heq. simpl in Heq.
      symmetry in Heq. apply orb_false_elim in Heq as [_ Heq]. done. }
    rewrite suffix_number_no_newline in Hnum' by done.
    apply split_unique in Heq as [-> _]; [done | |];
      by apply numeral_no_underscore. }
  unfold is_suffix_duplicate_entity. split.
  - split.
    + destruct (match_base id EmptyString) as [b|] eqn:Hb; [| done].
      intros _. destruct (Hfwd b eq_refl) as (n & ? & ? & ?). by exists b, n.
    + intros (base & n & Hbase & Hn & Hid). by rewrite (Hbwd base n).
  - intros base n Hbase Hn Hid. by rewrite (Hbwd base n).
Qed.

(** Outside the ids a registry holds: a leading zero is not matched, and a
    line feed that ends the string is passed over by [$]. *)
Example leading_zero_not_matched :
  is_suffix_duplicate_entity "sensor.kitchen_temp_02"
  = (false, "sensor.kitchen_temp_02").
Proof. by vm_compute. Qed.

Example final_line_feed_passed_over :
  is_suffix_duplicate_entity ("sensor.kitchen_temp_2" +:+ String newline EmptyString)
  = (true, "sensor.kitchen_temp").
Proof. by vm_compute. Qed.

End SuffixFacts.

(** ** The planner as a transition system *)
Module PlanFacts.
Import Engine Spec.

Section Steps.
Variable uuid4 : nat -> string.
Variable _compile_regex : string -> option (string -> bool).
Variable onbekend_area_name : string.

Local Abbreviation pstep := (pstep uuid4).
Local Abbreviation psteps := (psteps uuid4).

Lemma psteps_foldl {A} (f : pstate -> A -> pstate) (l : list A) :
  (forall s x, psteps s (f s x)) -> forall s, psteps s (foldl f s l).
Proof.
  intros Hf. induction l as [|x l IH]; intros s; simpl.
  - apply rtc_refl.
  - eapply rtc_trans; [apply Hf | apply IH].
Qed.

Ltac not_elem :=
  match goal with
  | H : bool_decide (?x ∈ ?X) = false |- ?x ∉ ?X =>
      by apply bool_decide_eq_false in H
  | H : negb (bool_decide (?x ∈ ?X)) = true |- ?x ∉ ?X =>
      apply negb_true_iff, bool_decide_eq_false in H; exact H
  end.

Ltac one_step :=
  first
    [ apply rtc_refl
    | apply rtc_once; first
        [ apply step_flag
        | apply step_remove; not_elem
        | apply step_hide; not_elem
        | apply step_area;
          [ not_elem
          | first [ intros _; not_elem | intros [?|?]; discriminate ]
          | discriminate ]
        | apply step_helper
        | apply step_other; set_solver ] ].

Ltac split_bools :=
  repeat match goal with
    | H : _ && _ = true |- _ => apply andb_prop in H; destruct H
    | H : _ || _ = false |- _ => apply orb_false_elim in H; destruct H
    end.

Ltac steps := repeat case_match; simplify_eq/=; split_bools; one_step.

Lemma rename_area_rule_steps d s r : psteps s (rename_area_rule uuid4 d s r).
Proof. unfold rename_area_rule. steps. Qed.

Lemma remove_listed_steps ids s eid : psteps s (remove_listed uuid4 ids s eid).
Proof. unfold remove_listed. steps. Qed.

Lemma remove_regex_steps ids s rr :
  psteps s (remove_regex uuid4 _compile_regex ids s rr).
Proof.
  unfold remove_regex. case_match; [| apply rtc_refl].
  apply psteps_foldl. intros. steps.
Qed.

Lemma hide_listed_steps ids s eid : psteps s (hide_listed uuid4 ids s eid).
Proof. unfold hide_listed. steps. Qed.

Lemma hide_regex_steps ids s rr :
  psteps s (hide_regex uuid4 _compile_regex ids s rr).
Proof.
  unfold hide_regex. case_match; [| apply rtc_refl].
  apply psteps_foldl. intros. steps.
Qed.

Lemma inherit_entity_steps snap d s er : psteps s (inherit_entity uuid4 snap d s er).
Proof. unfold inherit_entity. steps. Qed.

Lemma backfill_device_steps snap d s dv :
  psteps s (backfill_device uuid4 snap d s dv).
Proof. unfold backfill_device. steps. Qed.

Lemma token_match_entity_steps snap d at_ incl s er :
  psteps s (token_match_entity uuid4 snap d at_ incl s er).
Proof. unfold token_match_entity. steps. Qed.

Lemma create_fallback_area_steps names incl s :
  psteps s (create_fallback_area uuid4 onbekend_area_name names incl s).
Proof. unfold create_fallback_area. steps. Qed.

Lemma fallback_entity_steps snap d aid s er :
  psteps s (fallback_entity uuid4 onbekend_area_name snap d aid s er).
Proof. unfold fallback_entity. steps. Qed.

Lemma fallback_placement_steps snap d incl s :
  psteps s (fallback_placement uuid4 onbekend_area_name snap d incl s).
Proof.
  unfold fallback_placement. repeat case_match; try apply rtc_refl.
  apply psteps_foldl. intros. apply fallback_entity_steps.
Qed.

Lemma suffix_duplicate_entity_steps ids s er :
  psteps s (suffix_duplicate_entity uuid4 ids s er).
Proof. unfold suffix_duplicate_entity. steps. Qed.

Lemma hide_unique_id_group_steps s g : psteps s (hide_unique_id_group uuid4 s g).
Proof.
  unfold hide_unique_id_group. destruct g as [uid eids].
  repeat case_match; try apply rtc_refl.
  apply psteps_foldl. intros. steps.
Qed.

Lemma entity_area_rule_steps snap d m s rr :
  psteps s (entity_area_rule uuid4 _compile_regex snap d m s rr).
Proof.
  unfold entity_area_rule. repeat case_match; try apply rtc_refl.
  apply psteps_foldl. intros. steps.
Qed.

Lemma device_area_rule_steps snap m s rr :
  psteps s (device_area_rule uuid4 _compile_regex snap m s rr).
Proof.
  unfold device_area_rule. repeat case_match; try apply rtc_refl.
  apply psteps_foldl. intros. steps.
Qed.

Lemma helper_entity_steps snap d m rules s er :
  psteps s (helper_entity uuid4 snap d m rules s er).
Proof. unfold helper_entity. steps. Qed.

Lemma media_group_steps m s g : psteps s (media_group uuid4 m s g).
Proof.
  unfold media_group. destruct g as [[area_id base] items].
  apply psteps_foldl. intros s' [idx [eid cur]]. steps.
Qed.

Local Abbreviation pass_token_match := (pass_token_match uuid4).
Local Abbreviation pass_create_fallback :=
  (pass_create_fallback uuid4 onbekend_area_name).
Local Abbreviation pass_fallback := (pass_fallback uuid4 onbekend_area_name).
Local Abbreviation pass_suffix_duplicates := (pass_suffix_duplicates uuid4).
Local Abbreviation before_token_match := (before_token_match uuid4 _compile_regex).
Local Abbreviation before_fallback :=
  (before_fallback uuid4 _compile_regex onbekend_area_name).
Local Abbreviation before_suffix_duplicates :=
  (before_suffix_duplicates uuid4 _compile_regex onbekend_area_name).
Local Abbreviation after_suffix_duplicates :=
  (after_suffix_duplicates uuid4 _compile_regex onbekend_area_name).
Local Abbreviation run_passes := (run_passes uuid4 _compile_regex onbekend_area_name).
Local Abbreviation all_actions :=
  (all_actions uuid4 _compile_regex onbekend_area_name).

Lemma pass_token_match_steps snap incl s : psteps s (pass_token_match snap incl s).
Proof. apply psteps_foldl. intros. apply token_match_entity_steps. Qed.

Lemma pass_create_fallback_steps snap incl s :
  psteps s (pass_create_fallback snap incl s).
Proof. apply create_fallback_area_steps. Qed.

Lemma pass_fallback_steps snap incl s : psteps s (pass_fallback snap incl s).
Proof. apply fallback_placement_steps. Qed.

Lemma pass_suffix_duplicates_steps snap s :
  psteps s (pass_suffix_duplicates snap s).
Proof. apply psteps_foldl. intros. apply suffix_duplicate_entity_steps. Qed.

Lemma before_token_match_steps snap rules :
  psteps init_pstate (before_token_match snap rules).
Proof.
  unfold before_token_match, Engine.before_token_match, pass_backfill,
    pass_inherit, pass_hide_regex, pass_hide_ids, pass_remove_regex,
    pass_remove_ids, pass_area_renames.
  repeat (eapply rtc_trans; [| apply psteps_foldl; intros;
    first [ apply backfill_device_steps | apply inherit_entity_steps
          | apply hide_regex_steps | apply hide_listed_steps
          | apply remove_regex_steps | apply remove_listed_steps
          | apply rename_area_rule_steps ]]).
  apply rtc_refl.
Qed.

Lemma after_suffix_to_end_steps snap rules incl :
  psteps (after_suffix_duplicates snap rules incl) (run_passes snap rules incl).
Proof.
  unfold run_passes, Engine.run_passes, pass_media, pass_helpers,
    pass_device_area, pass_entity_area, pass_unique_id.
  repeat (eapply rtc_trans; [| apply psteps_foldl; intros;
    first [ apply media_group_steps | apply helper_entity_steps
          | apply device_area_rule_steps | apply entity_area_rule_steps
          | apply hide_unique_id_group_steps ]]).
  apply rtc_refl.
Qed.

Lemma before_suffix_to_end_steps snap rules incl :
  psteps (before_suffix_duplicates snap rules incl) (run_passes snap rules incl).
Proof.
  eapply rtc_trans; [| apply after_suffix_to_end_steps].
  apply pass_suffix_duplicates_steps.
Qed.

Lemma before_fallback_to_end_steps snap rules incl :
  psteps (before_fallback snap rules incl) (run_passes snap rules incl).
Proof.
  eapply rtc_trans; [| apply before_suffix_to_end_steps].
  apply pass_fallback_steps.
Qed.

Lemma token_match_to_end_steps snap rules incl :
  psteps (pass_token_match snap incl (before_token_match snap rules))
         (run_passes snap rules incl).
Proof.
  eapply rtc_trans; [| apply before_fallback_to_end_steps].
  apply pass_create_fallback_steps.
Qed.

Lemma run_passes_steps snap rules incl :
  psteps init_pstate (run_passes snap rules incl).
Proof.
  eapply rtc_trans; [apply before_token_match_steps |].
  eapply rtc_trans; [apply pass_token_match_steps |].
  apply token_match_to_end_steps.
Qed.

(** Actions are only ever appended, and markers only ever added. *)
Lemma pstep_grows s s' :
  pstep s s' ->
  actions s `prefix_of` actions s'
  /\ planned_entity_area s ⊆ planned_entity_area s'
  /\ planned_entity_remove s ⊆ planned_entity_remove s'
  /\ planned_entity_hide s ⊆ planned_entity_hide s'.
Proof.
  destruct 1; simpl; repeat split;
    try apply prefix_app_r; try reflexivity; try apply union_subseteq_r.
Qed.

Lemma psteps_grows s s' :
  psteps s s' ->
  actions s `prefix_of` actions s'
  /\ planned_entity_area s ⊆ planned_entity_area s'
  /\ planned_entity_remove s ⊆ planned_entity_remove s'
  /\ planned_entity_hide s ⊆ planned_entity_hide s'.
Proof.
  induction 1 as [s|s1 s2 s3 H12 _ IH]; [done |].
  destruct (pstep_grows _ _ H12) as (Ha & Hb & Hc & Hd).
  destruct IH as (Ha' & Hb' & Hc' & Hd').
  repeat split; etrans; eassumption.
Qed.

Lemma psteps_actions_elem s s' a : psteps s s' -> a ∈ actions s -> a ∈ actions s'.
Proof.
  intros H Ha. destruct (psteps_grows _ _ H) as ([k ->] & _).
  apply elem_of_app. by left.
Qed.

Lemma all_actions_elem snap rules incl a :
  a ∈ all_actions snap rules incl <-> a ∈ actions (run_passes snap rules incl).
Proof.
  unfold all_actions, Engine.all_actions, asdict_action.
  by rewrite list_fmap_id.
Qed.

(** *** Token match *)
Lemma named_areas_elem areas i n :
  (i, n) ∈ named_areas areas
  <-> exists a, a ∈ areas /\ present (ar_area_id a) = Some i
                /\ present (ar_name a) = Some n.
Proof.
  unfold named_areas. rewrite list_elem_of_omap. split.
  - intros (a & Ha & Hf). exists a. split; [exact Ha |].
    destruct (present (ar_area_id a)), (present (ar_name a)); naive_solver.
  - intros (a & Ha & H1 & H2). exists a. split; [exact Ha |].
    by rewrite H1, H2.
Qed.

Lemma token_matches_spec areas ht i n :
  (i, n) ∈ token_matches (area_tokens_of areas) ht
  <-> (exists a, a ∈ areas /\ present (ar_area_id a) = Some i
                 /\ present (ar_name a) = Some n)
      /\ tokenize n <> ∅ /\ tokenize n ⊆ ht.
Proof.
  rewrite <- named_areas_elem. unfold token_matches, area_tokens_of.
  rewrite list_elem_of_omap. split.
  - intros ([[i' n'] at_] & Hin & Hf).
    apply list_elem_of_fmap in Hin as ([i'' n''] & [= -> -> ->] & Hin).
    destruct (negb (bool_decide (tokenize n'' = ∅))
              && bool_decide (tokenize n'' ⊆ ht)) eqn:E; [| discriminate].
    injection Hf as -> ->.
    apply andb_prop in E as [E1 E2].
    apply negb_true_iff, bool_decide_eq_false in E1.
    apply bool_decide_eq_true in E2. done.
  - intros (Hin & Hne & Hsub). exists (i, n, tokenize n). split.
    + apply list_elem_of_fmap. by exists (i, n).
    + rewrite bool_decide_eq_false_2 by done.
      by rewrite bool_decide_eq_true_2.
Qed.

Lemma tokenize_living_room : tokenize "Living Room" = {[ "living"; "room" ]}.
Proof. by vm_compute. Qed.

(** C7.  A grouping is a token-match candidate exactly when the token
    set of its name is a non-empty subset of the haystack's token set;
    "Living Room" gives the tokens living and room, so a haystack with
    both matches and one with only living does not; and an entity that
    reaches the token-match pass with exactly one candidate gets a
    [set_entity_area] action, confidence 0.95, no approval. *)
Theorem token_match_inference snap rules incl l1 er l2 entity_id area_id area_name
    (Hsplit : entities snap = l1 ++ er :: l2)
    (Hid : present (er_entity_id er) = Some entity_id)
    (Hunplanned :
       let s := foldl (token_match_entity uuid4 snap (index_by dv_id (devices snap))
                         (area_tokens_of (areas snap)) incl)
                      (before_token_match snap rules) l1 in
       (entity_id ∉ planned_entity_area s) /\ (entity_id ∉ planned_entity_remove s))
    (Hactive : _is_active_state (states_by_entity_id snap !! entity_id) = true)
    (Hnoarea : truthy (er_area_id er) = false)
    (Hnodev : forall d, present (er_device_id er) = Some d ->
                truthy (device_area_of (index_by dv_id (devices snap)) d) = false)
    (Hone : token_matches (area_tokens_of (areas snap))
              (tokenize (haystack entity_id er (states_by_entity_id snap !! entity_id)))
            = [(area_id, area_name)]) :
  (forall ht i n,
      (i, n) ∈ token_matches (area_tokens_of (areas snap)) ht
      <-> (exists a, a ∈ areas snap /\ present (ar_area_id a) = Some i
                     /\ present (ar_name a) = Some n)
          /\ tokenize n <> ∅ /\ tokenize n ⊆ ht)
  /\ tokenize "Living Room" = {[ "living"; "room" ]}
  /\ (forall ht : gset string,
         "living" ∈ ht -> "room" ∈ ht ->
         tokenize "Living Room" <> ∅ /\ tokenize "Living Room" ⊆ ht)
  /\ (forall ht : gset string,
         "living" ∈ ht -> "room" ∉ ht -> ~ tokenize "Living Room" ⊆ ht)
  /\ exists a,
       a ∈ all_actions snap rules incl
       /\ act_type a = "set_entity_area"
       /\ act_payload a = entity_area_payload entity_id area_id
       /\ act_confidence a = 0.95%Q
       /\ act_requires_approval a = false.
Proof.
  split; [intros; apply token_matches_spec |].
  split; [apply tokenize_living_room |].
  rewrite tokenize_living_room.
  split; [intros ht H1 H2; split; set_solver |].
  split; [intros ht H1 H2; set_solver |].
  set (f := token_match_entity uuid4 snap (index_by dv_id (devices snap))
              (area_tokens_of (areas snap)) incl) in *.
  set (s := foldl f (before_token_match snap rules) l1) in *.
  destruct Hunplanned as [Hna Hnr].
  assert (Hstep : exists reason,
             actions (f s er)
             = actions s ++ [mk_action (uuid4 (length (actions s))) "set_entity_area"
                               (entity_area_payload entity_id area_id) reason
                               0.95 false]).
  { subst f. unfold token_match_entity. rewrite Hid.
    rewrite (bool_decide_eq_false_2 _ Hna), (bool_decide_eq_false_2 _ Hnr).
    rewrite Hactive, Hnoarea. simpl.
    destruct (present (er_device_id er)) as [d|] eqn:Hd.
    - rewrite (Hnodev d eq_refl), Hone. simpl. eauto.
    - rewrite Hone. simpl. eauto. }
  destruct Hstep as [reason Hstep].
  exists (mk_action (uuid4 (length (actions s))) "set_entity_area"
                    (entity_area_payload entity_id area_id) reason 0.95 false).
  split; [| simpl; repeat split; reflexivity].
  apply all_actions_elem.
  eapply psteps_actions_elem; [apply token_match_to_end_steps |].
  unfold pass_token_match, Engine.pass_token_match. fold f.
  rewrite Hsplit, foldl_app. simpl. fold s.
  eapply psteps_actions_elem; [apply psteps_foldl; intros; apply token_match_entity_steps |].
  rewrite Hstep. apply elem_of_app. right. apply list_elem_of_singleton. reflexivity.
Qed.

(** *** Fallback placement *)
Lemma pass_fallback_disabled snap s : pass_fallback snap false s = s.
Proof. reflexivity. Qed.

Lemma pass_fallback_no_area snap incl s :
  present (find_onbekend_area_id onbekend_area_name (areas snap)) = None ->
  pass_fallback snap incl s = s.
Proof.
  intros H. unfold pass_fallback, Engine.pass_fallback, fallback_placement.
  rewrite H. by destruct incl.
Qed.

(** C3, as the code has it.  With the fallback enabled and the fallback
    area already in the snapshot (the first area of that name has an
    id), an active entity without effective area that is reached with
    neither an area assignment nor a removal planned gets a
    [set_entity_area] into that area, confidence 0.6, approval required.
    When the area is not in the snapshot, or the fallback is disabled,
    the placement pass adds nothing. *)
Theorem fallback_placement_existing_area snap rules l1 er l2 entity_id
    onbekend_area_id
    (Hsplit : entities snap = l1 ++ er :: l2)
    (Hid : present (er_entity_id er) = Some entity_id)
    (Harea : present (find_onbekend_area_id onbekend_area_name (areas snap))
             = Some onbekend_area_id)
    (Hunplanned :
       let s := foldl (fallback_entity uuid4 onbekend_area_name snap
                         (index_by dv_id (devices snap)) onbekend_area_id)
                      (before_fallback snap rules true) l1 in
       (entity_id ∉ planned_entity_area s) /\ (entity_id ∉ planned_entity_remove s))
    (Hactive : _is_active_state (states_by_entity_id snap !! entity_id) = true)
    (Hnoarea : truthy (_effective_area_id er (index_by dv_id (devices snap))) = false) :
  (exists a,
      a ∈ all_actions snap rules true
      /\ act_type a = "set_entity_area"
      /\ act_payload a = entity_area_payload entity_id onbekend_area_id
      /\ act_confidence a = 0.6%Q
      /\ act_requires_approval a = true)
  /\ (forall snap' rules' incl',
         present (find_onbekend_area_id onbekend_area_name (areas snap')) = None
         \/ incl' = false ->
         before_suffix_duplicates snap' rules' incl'
         = before_fallback snap' rules' incl').
Proof.
  split.
  - set (f := fallback_entity uuid4 onbekend_area_name snap
                (index_by dv_id (devices snap)) onbekend_area_id) in *.
    set (s := foldl f (before_fallback snap rules true) l1) in *.
    destruct Hunplanned as [Hna Hnr].
    set (a := mk_action (uuid4 (length (actions s))) "set_entity_area"
                (entity_area_payload entity_id onbekend_area_id)
                ("Fallback: put entity into area '" +:+ onbekend_area_name +:+ "'.")
                0.6 true).
    assert (Hstep : actions (f s er) = actions s ++ [a]).
    { subst f. unfold fallback_entity. rewrite Hid.
      rewrite (bool_decide_eq_false_2 _ Hna), (bool_decide_eq_false_2 _ Hnr).
      by rewrite Hactive, Hnoarea. }
    exists a. split; [| simpl; repeat split; reflexivity].
    apply all_actions_elem.
    eapply psteps_actions_elem; [apply before_suffix_to_end_steps |].
    unfold before_suffix_duplicates, Engine.before_suffix_duplicates,
      Engine.pass_fallback, fallback_placement.
    rewrite Harea. fold f. rewrite Hsplit, foldl_app. simpl. fold s.
    eapply psteps_actions_elem;
      [apply psteps_foldl; intros; apply fallback_entity_steps |].
    rewrite Hstep. apply elem_of_app. right. by apply list_elem_of_singleton.
  - intros snap' rules' incl' [H| ->].
    + unfold before_suffix_duplicates, Engine.before_suffix_duplicates.
      by apply pass_fallback_no_area.
    + reflexivity.
Qed.

(** *** Suffix duplicates *)
Lemma entity_id_payload_inj a b : entity_id_payload a = entity_id_payload b -> a = b.
Proof.
  unfold entity_id_payload. intros H.
  apply (f_equal (fun m => m !! "entity_id")) in H.
  rewrite !lookup_singleton_eq in H. congruence.
Qed.

Local Abbreviation suffix_removal := (suffix_removal uuid4).

Lemma suffix_step_cases ids s er :
  (exists eid,
      present (er_entity_id er) = Some eid /\ flagged ids eid
      /\ (eid ∉ planned_entity_remove s)
      /\ suffix_duplicate_entity uuid4 ids s er
         = add_planned_remove eid
             (mk_pstate (actions s ++ [suffix_removal (length (actions s)) eid])
                        (planned_entity_area s) (planned_entity_remove s)
                        (planned_entity_hide s) (needs_fallback_onbekend s)))
  \/ (suffix_duplicate_entity uuid4 ids s er = s
      /\ forall eid, present (er_entity_id er) = Some eid -> flagged ids eid ->
                     eid ∈ planned_entity_remove s).
Proof.
  unfold suffix_duplicate_entity, flagged, suffix_removal.
  destruct (present (er_entity_id er)) as [eid|]; [| right; split; [done | congruence]].
  destruct (bool_decide (eid ∈ planned_entity_remove s)) eqn:Hrm.
  { right. split; [done |]. intros ? [= <-] _. by apply bool_decide_eq_true in Hrm. }
  apply bool_decide_eq_false in Hrm.
  destruct (is_suffix_duplicate_entity eid) as [is_dup base] eqn:Hdup. simpl.
  destruct is_dup; simpl.
  - destruct (bool_decide (base ∈ ids)) eqn:Hb; simpl.
    + apply bool_decide_eq_true in Hb. left. exists eid.
      rewrite Hdup. simpl. done.
    + apply bool_decide_eq_false in Hb. right. split; [done |].
      intros ? [= <-]. rewrite Hdup. simpl. tauto.
  - right. split; [done |]. intros ? [= <-]. rewrite Hdup. simpl.
    intros [? _]. discriminate.
Qed.

Lemma suffix_pass_spec ids l s :
  exists k,
    actions (foldl (suffix_duplicate_entity uuid4 ids) s l) = actions s ++ k
    /\ (forall a, a ∈ k ->
          act_type a = "remove_entity_registry_entry"
          /\ act_confidence a = 0.9%Q /\ act_requires_approval a = true)
    /\ forall eid,
         (exists a, a ∈ k /\ act_payload a = entity_id_payload eid)
         <-> ((exists er, er ∈ l /\ present (er_entity_id er) = Some eid)
              /\ flagged ids eid /\ eid ∉ planned_entity_remove s).
Proof.
  revert s. induction l as [|er l IH]; intros s; simpl.
  - exists []. rewrite app_nil_r. split; [done |]. split; [set_solver |].
    intros eid. split; [intros (a & Ha & _); set_solver |].
    intros ((er & Her & _) & _). set_solver.
  - destruct (suffix_step_cases ids s er)
      as [(eid0 & Hid0 & Hfl0 & Hnr0 & ->) | (-> & Hskip)].
    + destruct (IH (add_planned_remove eid0
                      (mk_pstate (actions s ++ [suffix_removal (length (actions s)) eid0])
                         (planned_entity_area s) (planned_entity_remove s)
                         (planned_entity_hide s) (needs_fallback_onbekend s))))
        as (k & Hk & Hty & Hiff).
      simpl in Hk, Hiff.
      exists (suffix_removal (length (actions s)) eid0 :: k).
      split; [by rewrite Hk, <- app_assoc |].
      split.
      { intros a [-> | Ha]%elem_of_cons; [done | by apply Hty]. }
      intros eid. split.
      * intros (a & [-> | Ha]%elem_of_cons & Hp).
        -- apply entity_id_payload_inj in Hp as <-.
           split; [exists er; split; [left | done] | done].
        -- destruct (proj1 (Hiff eid)) as ((er' & Her' & Hid') & Hfl & Hnr);
             [by exists a |].
           split; [exists er'; split; [by right | done] |].
           split; [done |]. set_solver.
      * intros ((er' & Her' & Hid') & Hfl & Hnr).
        destruct (decide (eid = eid0)) as [-> | Hne].
        -- exists (suffix_removal (length (actions s)) eid0). split; [left | done].
        -- apply elem_of_cons in Her' as [-> | Her']; [congruence |].
           destruct (proj2 (Hiff eid)) as (a & Ha & Hp).
           { split; [by exists er' |]. split; [done |]. set_solver. }
           exists a. split; [by right | done].
    + destruct (IH s) as (k & Hk & Hty & Hiff).
      exists k. split; [done |]. split; [done |].
      intros eid. rewrite Hiff. split.
      * intros ((er' & Her' & Hid') & Hfl & Hnr).
        split; [exists er'; split; [by right | done] | done].
      * intros ((er' & Her' & Hid') & Hfl & Hnr). split; [| done].
        apply elem_of_cons in Her' as [-> | Her']; [| by exists er'].
        exfalso. apply Hnr. by apply Hskip.
Qed.





Lemma target_entity_id_payload eid n ty reason c req :
  target (mk_action n ty (entity_id_payload eid) reason c req) = Some eid.
Proof. apply lookup_singleton_eq. Qed.

Lemma target_hide_payload eid n ty reason c req :
  target (mk_action n ty (hide_payload eid) reason c req) = Some eid.
Proof.
  unfold target, hide_payload. simpl.
  rewrite lookup_insert_ne by done. apply lookup_singleton_eq.
Qed.

Lemma target_entity_area_payload eid area n ty reason c req :
  target (mk_action n ty (entity_area_payload eid area) reason c req) = Some eid.
Proof.
  unfold target, entity_area_payload. simpl.
  rewrite lookup_insert_ne by done. apply lookup_singleton_eq.
Qed.






Lemma entity_ids_of_elem l x :
  x ∈ entity_ids_of l <-> exists er, er ∈ l /\ present (er_entity_id er) = Some x.
Proof.
  unfold entity_ids_of. by rewrite elem_of_list_to_set, list_elem_of_omap.
Qed.

(** C8.  For an entity id without line feed: the id is classified as a
    suffix duplicate exactly when it is a non-empty base, an underscore
    and the decimal numeral of an integer at least 2, and the base
    reported is that base.  The suffix-duplicate pass adds a removal of
    the id (confidence 0.9, approval required) exactly when the id is
    in the registry, is so classified, its base is an id of the
    registry too, and it is not yet marked for removal; what the pass
    adds is in the un-filtered plan.  "sensor.kitchen_temp_2" has base
    "sensor.kitchen_temp"; "sensor.kitchen_temp_1" is not classified. *)
Theorem suffix_duplicate_removal snap rules incl id
    (Hline : mentions newline id = false) :
  (fst (is_suffix_duplicate_entity id) = true
   <-> exists base n,
         base <> EmptyString /\ (2 <= n)%nat /\ id = base +:+ "_" +:+ str_nat n)
  /\ (forall base n,
        base <> EmptyString -> (2 <= n)%nat -> id = base +:+ "_" +:+ str_nat n ->
        is_suffix_duplicate_entity id = (true, base))
  /\ (exists added,
        actions (after_suffix_duplicates snap rules incl)
        = actions (before_suffix_duplicates snap rules incl) ++ added
        /\ (forall a, a ∈ added ->
              a ∈ all_actions snap rules incl
              /\ act_type a = "remove_entity_registry_entry"
              /\ act_confidence a = 0.9%Q /\ act_requires_approval a = true)
        /\ ((exists a, a ∈ added /\ act_payload a = entity_id_payload id)
            <-> (id ∈ entity_ids_of (entities snap)
                 /\ fst (is_suffix_duplicate_entity id) = true
                 /\ snd (is_suffix_duplicate_entity id)
                      ∈ entity_ids_of (entities snap)
                 /\ id ∉ planned_entity_remove
                           (before_suffix_duplicates snap rules incl))))
  /\ is_suffix_duplicate_entity "sensor.kitchen_temp_2"
     = (true, "sensor.kitchen_temp")
  /\ fst (is_suffix_duplicate_entity "sensor.kitchen_temp_1") = false.
Proof.
  destruct (SuffixFacts.is_suffix_duplicate_iff id Hline) as [Hiff Hbase].
  split; [exact Hiff |]. split; [exact Hbase |].
  split; [| split; by vm_compute].
  destruct (suffix_pass_spec (entity_ids_of (entities snap)) (entities snap)
              (before_suffix_duplicates snap rules incl))
    as (added & Hadd & Hty & Hspec).
  exists added. split; [exact Hadd |]. split.
  - intros a Ha. split; [| by apply Hty].
    apply all_actions_elem.
    eapply psteps_actions_elem; [apply after_suffix_to_end_steps |].
    unfold after_suffix_duplicates, Engine.after_suffix_duplicates,
      Engine.pass_suffix_duplicates.
    rewrite Hadd. apply elem_of_app. by right.
  - rewrite Hspec, entity_ids_of_elem. unfold flagged. tauto.
Qed.

End Steps.
End PlanFacts.

(** ** The planner on the sample inputs *)
Module PlanSamples.
Import Engine Spec Samples PlanFacts.

Ltac by_decide := apply (bool_decide_unpack _); vm_compute; exact I.

Lemma token_match_inference_witness :
  exists a,
    a ∈ all_actions sample_uuid4 literal_search "Onbekend" house empty_rules false
    /\ act_type a = "set_entity_area"
    /\ act_payload a = entity_area_payload "sensor.living_room_temp" "living_room"
    /\ act_confidence a = 0.95%Q
    /\ act_requires_approval a = false.
Proof.
  refine (proj2 (proj2 (proj2 (proj2
    (token_match_inference sample_uuid4 literal_search "Onbekend" house empty_rules
       false [] (bare_entity "sensor.living_room_temp" None)
       (tail house_entities) "sensor.living_room_temp" "living_room" "Living Room"
       _ _ _ _ _ _ _))))).
  - reflexivity.
  - reflexivity.
  - split; by_decide.
  - by vm_compute.
  - reflexivity.
  - intros d Hd. by vm_compute in Hd.
  - by vm_compute.
Defined.

Lemma fallback_placement_existing_area_witness :
  exists a,
    a ∈ all_actions sample_uuid4 literal_search "Onbekend" house_with_fallback
          empty_rules true
    /\ act_type a = "set_entity_area"
    /\ act_payload a = entity_area_payload "sensor.attic" "onbekend"
    /\ act_confidence a = 0.6%Q
    /\ act_requires_approval a = true.
Proof.
  refine (proj1
    (fallback_placement_existing_area sample_uuid4 literal_search "Onbekend"
       house_with_fallback empty_rules (take 3 house_entities)
       (bare_entity "sensor.attic" None) [] "sensor.attic" "onbekend"
       _ _ _ _ _ _)).
  - reflexivity.
  - reflexivity.
  - by vm_compute.
  - split; by_decide.
  - by vm_compute.
  - reflexivity.
Defined.

(** Counterexample to C3 as stated, where the fallback area is only about
    to be created: the
    plan creates it, and the active, area-less, unplanned entity
    "sensor.attic" gets no area assignment. *)
Lemma fallback_area_created_entity_not_placed :
  _is_active_state (states_by_entity_id house !! "sensor.attic") = true
  /\ _effective_area_id (bare_entity "sensor.attic" None)
                        (index_by dv_id (devices house)) = None
  /\ outline <$> all_actions sample_uuid4 literal_search "Onbekend" house
                             empty_rules true
     = [("set_entity_area", Some "sensor.living_room_temp", Some "living_room",
         None, 0.95%Q, false);
        ("set_entity_area", Some "sensor.kitchen_temp", Some "kitchen",
         None, 0.95%Q, false);
        ("set_entity_area", Some "sensor.kitchen_temp_2", Some "kitchen",
         None, 0.95%Q, false);
        ("create_area", None, None, Some "Onbekend", 0.6%Q, true);
        ("remove_entity_registry_entry", Some "sensor.kitchen_temp_2", None,
         None, 0.9%Q, true)].
Proof. by vm_compute. Qed.


Lemma suffix_duplicate_removal_witness :
  is_suffix_duplicate_entity "sensor.kitchen_temp_2" = (true, "sensor.kitchen_temp")
  /\ exists a,
       a ∈ all_actions sample_uuid4 literal_search "Onbekend" house empty_rules false
       /\ act_payload a = entity_id_payload "sensor.kitchen_temp_2"
       /\ act_type a = "remove_entity_registry_entry"
       /\ act_confidence a = 0.9%Q /\ act_requires_approval a = true.
Proof.
  destruct (suffix_duplicate_removal sample_uuid4 literal_search "Onbekend"
              house empty_rules false "sensor.kitchen_temp_2" eq_refl)
    as (_ & Hbase & (added & _ & Hty & Hiff) & _).
  split.
  - apply (Hbase "sensor.kitchen_temp" 2); [discriminate | lia | reflexivity].
  - destruct (proj2 Hiff) as (a & Ha & Hp).
    { repeat split; try by_decide; by vm_compute. }
    exists a. destruct (Hty a Ha) as (? & ? & ? & ?). done.
Defined.

End PlanSamples.

(** ** Apply and rollback *)
Module ExecutorFacts.
Import Engine HA Executor Spec.

(** *** Dictionaries built from registry lists *)
Lemma index_by_snoc {A} (key : A -> option string) l x :
  index_by key (l ++ [x])
  = match present (key x) with
    | Some k => <[k := x]> (index_by key l)
    | None => index_by key l
    end.
Proof. unfold index_by. by rewrite foldl_app. Qed.


Lemma index_by_is_Some {A} (key : A -> option string) l k x :
  x ∈ l -> present (key x) = Some k -> is_Some (index_by key l !! k).
Proof.
  induction l as [|y l IH] using rev_ind; [by intros ?%elem_of_nil |].
  intros [Hx | ->%list_elem_of_singleton]%elem_of_app Hk;
    rewrite index_by_snoc.
  - destruct (present (key y)) as [k'|]; [| by apply IH].
    destruct (decide (k' = k)) as [-> | Hne].
    + rewrite lookup_insert_eq. eauto.
    + rewrite lookup_insert_ne by done. by apply IH.
  - rewrite Hk, lookup_insert_eq. eauto.
Qed.


(** *** An existing area name makes [create_area] a no-op *)

(** C6.  A [create_area] action that passes the approval gate and whose
    name is that of a fetched area is reported as applied; the client
    state (and so the list of requests issued) and the rollback steps are
    left as they are, and nothing is raised or skipped. *)
Theorem create_area_existing_name fault entities areas devices approved st a name ar
    (Htype : act_type a = "create_area")
    (Hname : act_payload a !! "name" = Some name)
    (Hnonempty : name <> EmptyString)
    (Har : ar ∈ areas)
    (Harname : ar_name ar = Some name)
    (Hgate : act_requires_approval a = false \/ act_id a ∈ approved) :
  apply_action fault (registries_of entities areas devices) approved st a
  = (mk_astate (a_ha st) (rollback_steps st) (applied st ++ [act_id a]) (skipped st),
     None).
Proof.
  unfold apply_action.
  assert (Hg : act_requires_approval a && negb (bool_decide (act_id a ∈ approved))
               = false).
  { destruct Hgate as [-> | Hin]; [done |].
    rewrite (bool_decide_eq_true_2 _ Hin). apply andb_false_r. }
  rewrite Hg, Htype, Hname. simpl.
  assert (Hp : present (Some name) = Some name) by (by destruct name).
  rewrite Hp.
  rewrite bool_decide_eq_true_2; [done |].
  eapply (index_by_is_Some ar_name); [exact Har |]. by rewrite Harname.
Qed.

Lemma create_area_existing_name_witness :
  let a := mk_action "id-7" "create_area" {[ "name" := "Onbekend" ]}
                     "Fallback area requested." 0.6 true in
  let areas := [mk_area (Some "kitchen") (Some "Kitchen");
                mk_area (Some "onbekend") (Some "Onbekend")] in
  let st := mk_astate (mk_ha areas [] [] [] 4 [Entity_list; Area_list; Device_list])
                      [] [] [] in
  apply_action (fun _ => false) (registries_of [] areas []) {[ "id-7" ]} st a
  = (mk_astate (a_ha st) [] ["id-7"] [], None).
Proof.
  intros a areas st.
  apply (create_area_existing_name (fun _ => false) [] areas [] {[ "id-7" ]} st a
           "Onbekend" (mk_area (Some "onbekend") (Some "Onbekend"))).
  - reflexivity.
  - reflexivity.
  - discriminate.
  - repeat constructor.
  - reflexivity.
  - right. apply (bool_decide_unpack _). vm_compute. exact I.
Defined.

(** *** The client: what a call records and what it changes *)
Section Calls.
Variable fault : nat -> bool.

Lemma send_attempted {A} h r (serve : ha_state -> option (ha_state * A)) :
  (forall h0 h1 x, serve h0 = Some (h1, x) -> attempted h1 = attempted h0) ->
  attempted (send fault h r serve).1 = attempted h ++ [r].
Proof.
  intros Hserve. unfold send. destruct (fault (_msg_id h)); [done |].
  destruct (serve _) as [[h2 x]|] eqn:E; [| done].
  simpl. by rewrite (Hserve _ _ _ E).
Qed.

Lemma entity_update_attempted h eid kw :
  attempted (entity_update fault h eid kw).1 = attempted h ++ [Entity_update eid kw].
Proof.
  apply send_attempted. intros h0 h1 x. unfold serve_entity_update.
  case_match; [| done]. by intros [= <- _].
Qed.

Lemma device_update_attempted h did kw :
  attempted (device_update fault h did kw).1 = attempted h ++ [Device_update did kw].
Proof.
  apply send_attempted. intros h0 h1 x. unfold serve_device_update.
  case_match; [| done]. by intros [= <- _].
Qed.

Lemma area_update_attempted h aid name :
  attempted (area_update fault h aid name).1 = attempted h ++ [Area_update aid name].
Proof.
  apply send_attempted. intros h0 h1 x. unfold serve_area_update.
  case_match; [| done]. by intros [= <- _].
Qed.





(** *** Apply *)








Lemma finish_steps {A} st steps' aid (r : ha_state * option A) :
  rollback_steps (finish st steps' aid r).1 = steps'.
Proof. by destruct r as [h [x|]]. Qed.








Lemma present_id (o : option string) k : present o = Some k -> o = Some k.
Proof. intros H. by apply FingerprintFacts.present_Some in H as [-> _]. Qed.




















End Calls.
End ExecutorFacts.

(** ** Apply and rollback on the sample inputs *)
Module ExecutorSamples.
Import Engine HA Executor Spec Samples ExecutorFacts.





End ExecutorSamples.

(** * Further properties *)

(** ** More on [util.py] *)
Module UtilFacts.
Import Spec Notions SuffixFacts.

Local Arguments String.append !_ _ / : simpl nomatch.

Lemma all_token_chars_snoc s c :
  all_token_chars s = true -> is_token_char c = true ->
  all_token_chars (s +:+ String c EmptyString) = true.
Proof.
  induction s as [|x s IH]; simpl; intros Hs Hc.
  - by rewrite Hc.
  - apply andb_prop in Hs as [-> Hs]. by apply IH.
Qed.

Lemma split_go_token_chars s : forall cur insep t,
  all_token_chars cur = true -> t ∈ split_go s cur insep ->
  all_token_chars t = true.
Proof.
  induction s as [|c r IH]; intros cur insep t Hcur; simpl.
  - by intros ->%list_elem_of_singleton.
  - destruct (is_token_char c) eqn:Hc.
    + apply IH. by apply all_token_chars_snoc.
    + destruct insep.
      * by apply IH.
      * intros [-> | Ht]%elem_of_cons; [done |].
        by apply (IH EmptyString true).
Qed.

(** X1.  Every token is a non-empty run of characters of [[a-z0-9]]. *)
Theorem tokenize_tokens s t (Ht : t ∈ tokenize s) :
  t <> EmptyString /\ all_token_chars t = true.
Proof.
  unfold tokenize in Ht. cbv zeta in Ht.
  case_match; [| by apply not_elem_of_empty in Ht].
  apply elem_of_list_to_set, list_elem_of_filter in Ht as [Hne Ht].
  split; [by destruct t |].
  exact (split_go_token_chars _ EmptyString false t eq_refl Ht).
Qed.

Lemma tokenize_tokens_witness :
  "room" <> EmptyString /\ all_token_chars "room" = true.
Proof.
  apply (tokenize_tokens "  Living-Room!" "room").
  apply (bool_decide_unpack _). vm_compute. exact I.
Defined.

(** *** Letter case *)
Lemma is_space_lower_char c : is_space (lower_char c) = is_space c.
Proof. destruct c as [[] [] [] [] [] [] [] []]; reflexivity. Qed.

Lemma lower_lstrip s : lower (lstrip s) = lstrip (lower s).
Proof.
  induction s as [|c s IH]; simpl; [done |].
  rewrite is_space_lower_char. by destruct (is_space c).
Qed.

Lemma lower_rstrip s : lower (rstrip s) = rstrip (lower s).
Proof.
  induction s as [|c s IH]; simpl; [done |].
  rewrite <- IH, is_space_lower_char.
  destruct (rstrip s); simpl; [by destruct (is_space c) | done].
Qed.

Lemma lower_strip s : lower (strip s) = strip (lower s).
Proof. unfold strip. by rewrite lower_rstrip, lower_lstrip. Qed.

(** X2.  Two strings that differ only in letter case have the same tokens. *)
Theorem tokenize_ignores_case s1 s2 (Hcase : lower s1 = lower s2) :
  tokenize s1 = tokenize s2.
Proof. unfold tokenize. by rewrite !lower_strip, Hcase. Qed.

Lemma tokenize_ignores_case_witness :
  tokenize "Living ROOM" = tokenize "living room".
Proof. apply tokenize_ignores_case. reflexivity. Defined.

(** *** The base of a suffix duplicate *)
Lemma length_append a b : String.length (a +:+ b) = String.length a + String.length b.
Proof. induction a; simpl; [done | by rewrite IHa]. Qed.

(** X3.  When an id is classified as a suffix duplicate, the base reported is a
    non-empty proper prefix of the id, followed in the id by an underscore
    and a non-empty rest; so the base is never the id itself.  When it is
    not classified, the id is returned unchanged. *)
Theorem suffix_base_is_proper_prefix id is_dup base
    (Hres : is_suffix_duplicate_entity id = (is_dup, base)) :
  if is_dup
  then base <> EmptyString /\ base <> id
       /\ exists rest, rest <> EmptyString /\ id = base +:+ "_" +:+ rest
  else base = id.
Proof.
  unfold is_suffix_duplicate_entity in Hres.
  destruct (match_base id EmptyString) as [b|] eqn:Hb; injection Hres as <- <-;
    [| done].
  destruct (match_base_sound _ _ _ Hb) as (pre & post & -> & -> & Hne & Hnum).
  simpl. split; [by destruct pre |]. split.
  - intros Heq. apply (f_equal String.length) in Heq.
    rewrite length_append in Heq. simpl in Heq. lia.
  - exists post. split; [by destruct post | done].
Qed.

Lemma suffix_base_is_proper_prefix_witness :
  "light.desk" <> EmptyString /\ "light.desk" <> "light.desk_12"
  /\ exists rest, rest <> EmptyString /\ "light.desk_12" = "light.desk" +:+ "_" +:+ rest.
Proof.
  apply (suffix_base_is_proper_prefix "light.desk_12" true "light.desk").
  by vm_compute.
Defined.

End UtilFacts.

(** ** The ignore list *)
Module IgnoreFacts.
Import Engine HA Executor Spec Notions.

Lemma sorted_mem {A} (le : A -> A -> bool) l y : y ∈ sorted le l <-> y ∈ l.
Proof. apply FingerprintFacts.sorted_elem. Qed.

Lemma insert_sorted_perm {A} (le : A -> A -> bool) x l :
  insert_sorted le x l ≡ₚ x :: l.
Proof.
  induction l as [|y l IH]; simpl; [done |].
  destruct (le y x); [| done]. rewrite IH. apply Permutation_swap.
Qed.

Lemma sorted_acc_perm {A} (le : A -> A -> bool) l : forall acc,
  foldl (fun acc x => insert_sorted le x acc) acc l ≡ₚ acc ++ l.
Proof.
  induction l as [|x l IH]; intros acc; simpl.
  - by rewrite app_nil_r.
  - rewrite IH, insert_sorted_perm. simpl. apply Permutation_middle.
Qed.

Lemma sorted_perm {A} (le : A -> A -> bool) l : sorted le l ≡ₚ l.
Proof. apply (sorted_acc_perm le l []). Qed.

Lemma insert_sorted_ordered x l :
  StronglySorted String.le l -> StronglySorted String.le (insert_sorted String.leb x l).
Proof.
  induction 1 as [|y l Hl IH Hy]; simpl.
  - repeat constructor.
  - destruct (String.leb y x) eqn:Hyx.
    + constructor; [exact IH |].
      apply Forall_forall. intros z [-> | Hz]%FingerprintFacts.insert_sorted_elem.
      * unfold String.le. by rewrite Hyx.
      * by eapply Forall_forall in Hy.
    + assert (Hxy : String.le x y).
      { destruct (total String.le x y) as [H | H]; [done |].
        unfold String.le in H. by rewrite Hyx in H. }
      constructor; [by constructor |].
      constructor; [done |].
      eapply Forall_impl; [exact Hy |]. intros z Hz. by etrans.
Qed.

Lemma sorted_ordered l : StronglySorted String.le (sorted String.leb l).
Proof.
  unfold sorted. assert (H : StronglySorted String.le []) by constructor.
  revert H. generalize (@nil string).
  induction l as [|x l IH]; intros acc Hacc; simpl; [done |].
  apply IH. by apply insert_sorted_ordered.
Qed.

Lemma canonical_set X : list_to_set (canonical X) = X.
Proof.
  apply set_eq. intros x. unfold canonical.
  by rewrite elem_of_list_to_set, sorted_mem, elem_of_elements.
Qed.

Lemma save_ignored_load e l :
  load_ignored (save_ignored e l) = canonical (list_to_set l).
Proof. reflexivity. Qed.

Lemma elem_of_canonical X x : x ∈ canonical X <-> x ∈ X.
Proof. unfold canonical. by rewrite sorted_mem, elem_of_elements. Qed.

Lemma add_ignored_load e fps :
  load_ignored (fst (add_ignored e fps))
  = canonical (list_to_set (load_ignored e) ∪ list_to_set fps)
  /\ snd (add_ignored e fps)
     = canonical (list_to_set (load_ignored e) ∪ list_to_set fps).
Proof.
  unfold add_ignored. simpl. rewrite save_ignored_load.
  fold (canonical (list_to_set (load_ignored e) ∪ list_to_set fps)).
  by rewrite canonical_set.
Qed.

Lemma remove_ignored_load e fps :
  load_ignored (fst (remove_ignored e fps))
  = canonical (list_to_set (load_ignored e) ∖ list_to_set fps)
  /\ snd (remove_ignored e fps)
     = canonical (list_to_set (load_ignored e) ∖ list_to_set fps).
Proof.
  unfold remove_ignored. simpl. rewrite save_ignored_load.
  fold (canonical (list_to_set (load_ignored e) ∖ list_to_set fps)).
  by rewrite canonical_set.
Qed.

(** X4.  What the three operations of the ignore list leave in it: adding
    gives the union, removing the difference, clearing nothing; and each
    of [add_ignored] and [remove_ignored] returns the list it has
    stored. *)
Theorem ignore_list_contents e fps fp :
  (fp ∈ load_ignored (fst (add_ignored e fps))
   <-> fp ∈ load_ignored e \/ fp ∈ fps)
  /\ (fp ∈ load_ignored (fst (remove_ignored e fps))
      <-> fp ∈ load_ignored e /\ fp ∉ fps)
  /\ load_ignored (clear_ignored e) = []
  /\ load_ignored (fst (add_ignored e fps)) = snd (add_ignored e fps)
  /\ load_ignored (fst (remove_ignored e fps)) = snd (remove_ignored e fps).
Proof.
  destruct (add_ignored_load e fps) as [Ha Ha'].
  destruct (remove_ignored_load e fps) as [Hr Hr'].
  rewrite Ha, Ha', Hr, Hr', !elem_of_canonical.
  split; [set_solver | split; [set_solver |]].
  split; [reflexivity | done].
Qed.

(** X5.  The stored ignore list is in ascending order and has no duplicate,
    whatever was stored before, and adding the same fingerprints a second
    time changes nothing. *)
Theorem add_ignored_canonical e fps :
  StronglySorted String.le (load_ignored (fst (add_ignored e fps)))
  /\ NoDup (load_ignored (fst (add_ignored e fps)))
  /\ add_ignored (fst (add_ignored e fps)) fps = add_ignored e fps.
Proof.
  destruct (add_ignored_load e fps) as [Hload _].
  split; [| split].
  - rewrite Hload. apply sorted_ordered.
  - rewrite Hload. unfold canonical. rewrite sorted_perm. apply NoDup_elements.
  - unfold add_ignored at 1. rewrite Hload, canonical_set.
    assert (Hsame : (list_to_set (load_ignored e) ∪ list_to_set fps : gset string)
                      ∪ list_to_set fps
                    = list_to_set (load_ignored e) ∪ list_to_set fps) by set_solver.
    rewrite Hsame. reflexivity.
Qed.

End IgnoreFacts.

Module RulesFacts.
Import Engine Rules Cases.

Lemma uniq_loop_spec out :
  forall seen uniq,
    (forall p, p ∈ seen <-> p ∈ uniq) ->
    NoDup uniq ->
    NoDup (foldl uniq_step (seen, uniq) out).2
    /\ (forall p, p ∈ (foldl uniq_step (seen, uniq) out).2
                  <-> p ∈ uniq \/ p ∈ out)
    /\ (exists added, (foldl uniq_step (seen, uniq) out).2 = uniq ++ added
                      /\ added `sublist_of` out).
Proof.
  induction out as [|q out IH]; intros seen uniq Hseen Hnd; simpl.
  - split; [done |]. split; [set_solver |].
    exists []. by rewrite app_nil_r.
  - assert (Hstep : uniq_step (seen, uniq) q
                    = if bool_decide (q ∈ seen) then (seen, uniq)
                      else ({[q]} ∪ seen, uniq ++ [q])) by reflexivity.
    rewrite Hstep. clear Hstep. case_bool_decide as Hq.
    + destruct (IH seen uniq Hseen Hnd) as (H1 & H2 & (added & H3 & H4)).
      split; [done |]. split.
      * intros p. rewrite H2, elem_of_cons.
        apply Hseen in Hq. split; [tauto |].
        intros [?|[->|?]]; tauto.
      * exists added. split; [done |].
        by apply sublist_cons.
    + assert (Hseen' : forall p, p ∈ ({[q]} ∪ seen : gset string)
                                 <-> p ∈ uniq ++ [q]).
      { intros p. specialize (Hseen p). set_solver. }
      assert (Hnd' : NoDup (uniq ++ [q])).
      { apply NoDup_app. split; [done |]. split.
        - intros p Hp ->%list_elem_of_singleton. by apply Hq, Hseen.
        - apply NoDup_singleton. }
      destruct (IH _ _ Hseen' Hnd') as (H1 & H2 & (added & H3 & H4)).
      split; [done |]. split.
      * intros p. rewrite H2. set_solver.
      * exists (q :: added). split.
        -- by rewrite H3, <- app_assoc.
        -- by apply sublist_skip.
Qed.

Lemma uniq_loop_head p rest :
  head (foldl uniq_step (∅, []) (p :: rest)).2 = Some p.
Proof.
  change (foldl uniq_step (∅, []) (p :: rest))
    with (foldl uniq_step (uniq_step (∅, []) p) rest).
  assert (Hstep : uniq_step (∅, []) p = ({[p]} ∪ ∅, [p])).
  { unfold uniq_step. by rewrite bool_decide_false by set_solver. }
  rewrite Hstep.
  destruct (uniq_loop_spec rest ({[p]} ∪ ∅) [p])
    as (_ & _ & (added & Hadd & _)); [set_solver | apply NoDup_singleton |].
  by rewrite Hadd.
Qed.

Lemma candidate_paths_elem explicit_path p :
  p ∈ _candidate_paths explicit_path <-> p ∈ candidate_out explicit_path.
Proof.
  unfold _candidate_paths.
  destruct (uniq_loop_spec (candidate_out explicit_path) ∅ [])
    as (_ & H2 & _); [set_solver | constructor |].
  rewrite H2. set_solver.
Qed.

Lemma candidate_paths_head explicit_path :
  head (_candidate_paths explicit_path) = head (candidate_out explicit_path).
Proof.
  unfold _candidate_paths, candidate_out.
  destruct (present explicit_path) as [p|]; apply uniq_loop_head.
Qed.

(** X6.  The candidate paths are the explicit path, when one is given, followed
    by the three built-in paths, each kept once and in that order: the
    result has no duplicate, has the members of the list it is built
    from, is a sublist of it, starts as it does, and always holds the
    default path. *)
Theorem candidate_paths_unique_in_order explicit_path :
  NoDup (_candidate_paths explicit_path)
  /\ (forall p, p ∈ _candidate_paths explicit_path
                <-> p ∈ candidate_out explicit_path)
  /\ _candidate_paths explicit_path `sublist_of` candidate_out explicit_path
  /\ head (_candidate_paths explicit_path)
     = head (candidate_out explicit_path)
  /\ DEFAULT_RULES_PATH ∈ _candidate_paths explicit_path.
Proof.
  split; [| split; [apply candidate_paths_elem |]].
  - unfold _candidate_paths.
    by destruct (uniq_loop_spec (candidate_out explicit_path) ∅ [])
      as (H1 & _); [set_solver | constructor |].
  - split; [| split; [apply candidate_paths_head |]].
    + unfold _candidate_paths.
      destruct (uniq_loop_spec (candidate_out explicit_path) ∅ [])
        as (_ & _ & (added & H3 & H4)); [set_solver | constructor |].
      simpl in H3. by rewrite H3.
    + apply candidate_paths_elem. unfold candidate_out.
      apply elem_of_app. right. rewrite !elem_of_cons. tauto.
Qed.

Section Files.
Variable path_exists : string -> bool.
Variable safe_load : string -> yaml.

Lemma first_existing_Some paths p :
  first_existing path_exists paths = Some p <->
  exists before after,
    paths = before ++ p :: after
    /\ nonempty p && path_exists p = true
    /\ Forall (fun q => nonempty q && path_exists q = false) before.
Proof.
  revert p. induction paths as [|q paths IH]; intros p; simpl.
  - split; [done |]. intros (before & after & H & _).
    by destruct before.
  - destruct (nonempty q && path_exists q) eqn:Hq.
    + split.
      * intros [= <-]. exists [], paths. by repeat split.
      * intros (before & after & H & Hp & Hb).
        destruct before as [|b before]; simplify_eq/=; [done |].
        apply Forall_cons in Hb as [Hb _]. congruence.
    + rewrite IH. split.
      * intros (before & after & -> & Hp & Hb).
        exists (q :: before), after. repeat split; [done |].
        by constructor.
      * intros (before & after & H & Hp & Hb).
        destruct before as [|b before]; simplify_eq/=; [congruence |].
        apply Forall_cons in Hb as [_ Hb]. by exists before, after.
Qed.

Lemma first_existing_None paths :
  first_existing path_exists paths = None <->
  Forall (fun q => nonempty q && path_exists q = false) paths.
Proof.
  induction paths as [|q paths IH]; simpl.
  - split; [constructor | done].
  - destruct (nonempty q && path_exists q) eqn:Hq.
    + split; [done |]. intros [H _]%Forall_cons. congruence.
    + rewrite IH. split; [by constructor | by intros [_ H]%Forall_cons].
Qed.

Lemma find_rules_path_exists explicit_path p :
  find_rules_path path_exists explicit_path = Some p -> path_exists p = true.
Proof.
  unfold find_rules_path.
  intros (before & after & _ & Hp & _)%first_existing_Some.
  by apply andb_true_iff in Hp as [_ ?].
Qed.

(** X7.  [find_rules_path] gives the first candidate that exists: the path it
    returns is a non-empty candidate that exists and no candidate before
    it does; it returns nothing only when no candidate exists. *)
Theorem find_rules_path_first_existing explicit_path :
  match find_rules_path path_exists explicit_path with
  | Some p =>
      p <> EmptyString /\ path_exists p = true
      /\ exists before after,
           _candidate_paths explicit_path = before ++ p :: after
           /\ forall q, q ∈ before -> q <> EmptyString ->
                        path_exists q = false
  | None =>
      forall q, q ∈ candidate_out explicit_path -> path_exists q = false
  end.
Proof.
  unfold find_rules_path.
  destruct (first_existing path_exists (_candidate_paths explicit_path))
    as [p|] eqn:Hf.
  - apply first_existing_Some in Hf as (before & after & Heq & Hp & Hb).
    apply andb_true_iff in Hp as [Hne Hex].
    split; [by destruct p |]. split; [done |].
    exists before, after. split; [done |].
    intros q Hq Hq0. rewrite Forall_forall in Hb.
    specialize (Hb q Hq). destruct q; [done |]. exact Hb.
  - apply first_existing_None in Hf. rewrite Forall_forall in Hf.
    intros q Hq.
    pose proof (candidate_paths_elem explicit_path) as Hmem.
    apply Hmem in Hq. specialize (Hf q Hq).
    assert (Hne : nonempty q = true).
    { apply Hmem in Hq. unfold candidate_out in Hq.
      apply elem_of_app in Hq as [Hq|Hq].
      - unfold present in Hq. destruct explicit_path as [[|c s]|];
          simpl in Hq; try by apply not_elem_of_nil in Hq.
        by apply list_elem_of_singleton in Hq as ->.
      - repeat (apply elem_of_cons in Hq as [->|Hq]; [done |]).
        by apply not_elem_of_nil in Hq. }
    by rewrite Hne in Hf.
Qed.

(** X8.  An explicit path that exists is the one used, whatever else
    exists. *)
Theorem explicit_rules_path_wins explicit_path p
    (Hgiven : present explicit_path = Some p)
    (Hexists : path_exists p = true) :
  find_rules_path path_exists explicit_path = Some p
  /\ rm_path (snd (load_rules path_exists safe_load explicit_path))
     = Some p.
Proof.
  assert (Hfind : find_rules_path path_exists explicit_path = Some p).
  { unfold find_rules_path.
    pose proof (candidate_paths_head explicit_path) as Hhead.
    unfold candidate_out in Hhead. rewrite Hgiven in Hhead. simpl in Hhead.
    destruct (_candidate_paths explicit_path) as [|q l]; [done |].
    simplify_eq/=. rewrite Hexists.
    unfold present in Hgiven. destruct explicit_path as [[|c s]|];
      simplify_eq/=. reflexivity. }
  split; [done |]. unfold load_rules. rewrite Hfind.
  by destruct (safe_load p).
Qed.

(** X9.  [load_rules] reports the path [find_rules_path] found; it reports
    an error exactly when no file was found or the file did not parse
    to a mapping (or to nothing), and then the rules are empty; without
    an error the file exists. *)
Theorem load_rules_meta explicit_path :
  let r := load_rules path_exists safe_load explicit_path in
  rm_path (snd r) = find_rules_path path_exists explicit_path
  /\ (rm_error (snd r) <> None -> fst r = empty_rules)
  /\ (rm_error (snd r) = None <->
      exists p, find_rules_path path_exists explicit_path = Some p
                /\ (safe_load p = Yaml_empty
                    \/ exists data, safe_load p = Yaml_mapping data))
  /\ (rm_error (snd r) = None ->
      exists p, rm_path (snd r) = Some p /\ path_exists p = true).
Proof.
  pose proof (find_rules_path_exists explicit_path) as Hfirst.
  unfold load_rules.
  destruct (find_rules_path path_exists explicit_path) as [p|]; simpl.
  - pose proof (Hfirst p eq_refl) as Hex.
    destruct (safe_load p) eqn:Hload; simpl;
      (split; [done |]); (split; [done |]); split;
      try (split; [intros _; exists p; split; eauto | done]);
      try (split; [done | intros (? & [= <-] & [?|[? ?]]); congruence]);
      try (intros _; by exists p); done.
  - split; [done |]. split; [done |]. split; [| done].
    split; [done |]. by intros (? & ? & _).
Qed.
End Files.

Lemma explicit_rules_path_wins_witness :
  present (Some "/data/rules.yaml") = Some "/data/rules.yaml"
  /\ only_data_rules "/data/rules.yaml" = true
  /\ find_rules_path only_data_rules (Some "/data/rules.yaml")
     = Some "/data/rules.yaml"
  /\ rm_path (snd (load_rules only_data_rules (fun _ => Yaml_empty)
                              (Some "/data/rules.yaml")))
     = Some "/data/rules.yaml".
Proof.
  split; [reflexivity |]. split; [reflexivity |].
  apply (explicit_rules_path_wins only_data_rules (fun _ => Yaml_empty)
           (Some "/data/rules.yaml") "/data/rules.yaml");
    reflexivity.
Defined.

End RulesFacts.

Module ApplyFacts.
Import Engine HA Executor Spec Notions ExecutorFacts.

Section Gate.
Variable fault : nat -> bool.

Lemma area_create_attempted h name :
  attempted (area_create fault h name).1 = attempted h ++ [Area_create name].
Proof.
  apply send_attempted. intros h0 h1 x. unfold serve_area_create.
  case_match; [done |]. by intros [= <- _].
Qed.

Lemma entity_remove_attempted h eid :
  attempted (entity_remove fault h eid).1 = attempted h ++ [Entity_remove eid].
Proof.
  apply send_attempted. intros h0 h1 x. unfold serve_entity_remove.
  case_match; [| done]. by intros [= <- _].
Qed.

Lemma finish_ha {A} st steps' aid (r : ha_state * option A) :
  a_ha (finish st steps' aid r).1 = r.1.
Proof. by destruct r as [h [x|]]. Qed.

Lemma finish_applied {A} st steps' aid (r : ha_state * option A) :
  applied (finish st steps' aid r).1 = applied st
  \/ applied (finish st steps' aid r).1 = applied st ++ [aid].
Proof. destruct r as [h [x|]]; simpl; auto. Qed.

Ltac sent_nothing :=
  exists []; rewrite app_nil_r;
  split; [reflexivity |]; split; [done |]; split; [constructor |];
  by left.

Ltac sent_one Hperm r :=
  exists [r]; rewrite finish_ha;
  split;
  [ first [ apply entity_update_attempted | apply device_update_attempted
          | apply area_update_attempted | apply entity_remove_attempted ] |];
  split; [intros _; exact Hperm |];
  split;
  [ constructor; [| constructor]
  | match goal with
    | |- context [finish ?s ?t ?i ?x] =>
        destruct (finish_applied s t i x) as [Hfin | Hfin]; rewrite Hfin; eauto
    end ].

Lemma apply_action_gated reg approved st a :
  gated approved a st (apply_action fault reg approved st a).1.
Proof.
  unfold apply_action.
  destruct (act_requires_approval a && negb (bool_decide (act_id a ∈ approved)))
    eqn:Hgate; [sent_nothing |].
  assert (Hperm : permitted approved a = true).
  { unfold permitted. destruct (act_requires_approval a); [| done].
    simpl in *. by apply negb_false_iff in Hgate. }
  clear Hgate.
  destruct (String.eqb (act_type a) "create_area") eqn:E1.
  { apply String.eqb_eq in E1.
    destruct (present (act_payload a !! "name")) as [name|] eqn:Hname;
      [| sent_nothing].
    apply present_id in Hname.
    case_bool_decide.
    - exists []. rewrite app_nil_r. simpl.
      split; [done |]. split; [done |]. split; [constructor | eauto].
    - pose proof (area_create_attempted (a_ha st) name) as Hatt.
      destruct (area_create fault (a_ha st) name) as [h [res|]];
        simpl in *; exists [Area_create name];
        (split; [done |]); (split; [done |]);
        (split; [by repeat constructor | eauto]). }
  destruct (String.eqb (act_type a) "set_entity_area") eqn:E2.
  { apply String.eqb_eq in E2.
    destruct (present (act_payload a !! "entity_id")) as [eid|] eqn:Hid;
      [| sent_nothing].
    destruct (present (act_payload a !! "area_id")) as [v|] eqn:Hv;
      [| sent_nothing].
    apply present_id in Hid, Hv.
    sent_one Hperm (Entity_update eid (before_field "area_id" (Some v))).
    simpl. split; [done |]. left. eauto. }
  destruct (String.eqb (act_type a) "set_device_area") eqn:E3.
  { apply String.eqb_eq in E3.
    destruct (present (act_payload a !! "device_id")) as [did|] eqn:Hid;
      [| sent_nothing].
    destruct (present (act_payload a !! "area_id")) as [v|] eqn:Hv;
      [| sent_nothing].
    apply present_id in Hid, Hv.
    sent_one Hperm (Device_update did (before_field "area_id" (Some v))).
    simpl. split; [done |]. left. eauto. }
  destruct (String.eqb (act_type a) "rename_entity") eqn:E4.
  { apply String.eqb_eq in E4.
    destruct (present (act_payload a !! "entity_id")) as [eid|] eqn:Hid;
      [| sent_nothing].
    destruct (present (act_payload a !! "name")) as [v|] eqn:Hv;
      [| sent_nothing].
    apply present_id in Hid, Hv.
    sent_one Hperm (Entity_update eid (before_field "name" (Some v))).
    simpl. split; [done |]. right. left. eauto. }
  destruct (String.eqb (act_type a) "hide_entity") eqn:E5.
  { apply String.eqb_eq in E5.
    destruct (present (act_payload a !! "entity_id")) as [eid|] eqn:Hid;
      [| sent_nothing].
    apply present_id in Hid.
    set (hb := default "user" (act_payload a !! "hidden_by")).
    assert (Hask : forall k, k = "hidden_by" \/ k = "disabled_by" ->
              asks a (Entity_update eid (before_field k (Some hb)))).
    { intros k Hk. simpl. split; [done |]. right. right.
      split; [done |]. by exists k. }
    pose proof (entity_update_attempted fault (a_ha st) eid
                  (before_field "hidden_by" (Some hb))) as Hatt1.
    destruct (entity_update fault (a_ha st) eid
                (before_field "hidden_by" (Some hb))) as [h [r|]] eqn:Hfirst.
    - exists [Entity_update eid (before_field "hidden_by" (Some hb))].
      simpl in *. split; [done |]. split; [done |].
      split; [constructor; [apply Hask; by left | constructor] | eauto].
    - exists [Entity_update eid (before_field "hidden_by" (Some hb));
              Entity_update eid (before_field "disabled_by" (Some hb))].
      rewrite finish_ha, entity_update_attempted. simpl in Hatt1.
      rewrite Hatt1, <- app_assoc.
      split; [done |]. split; [done |]. split.
      + constructor; [apply Hask; by left |].
        constructor; [apply Hask; by right | constructor].
      + match goal with
        | |- context [finish ?s ?t ?i ?x] =>
            destruct (finish_applied s t i x) as [Hfin | Hfin]; rewrite Hfin; eauto
        end. }
  destruct (String.eqb (act_type a) "remove_entity_registry_entry") eqn:E6.
  { apply String.eqb_eq in E6.
    destruct (present (act_payload a !! "entity_id")) as [eid|] eqn:Hid;
      [| sent_nothing].
    apply present_id in Hid.
    sent_one Hperm (Entity_remove eid). by simpl. }
  destruct (String.eqb (act_type a) "rename_device") eqn:E7.
  { apply String.eqb_eq in E7.
    destruct (present (act_payload a !! "device_id")) as [did|] eqn:Hid;
      [| sent_nothing].
    destruct (present (act_payload a !! "name")) as [v|] eqn:Hv;
      [| sent_nothing].
    apply present_id in Hid, Hv.
    sent_one Hperm (Device_update did (before_field "name_by_user" (Some v))).
    simpl. split; [done |]. right. eauto. }
  destruct (String.eqb (act_type a) "rename_area") eqn:E8.
  { apply String.eqb_eq in E8.
    destruct (present (act_payload a !! "area_id")) as [aid|] eqn:Hid;
      [| sent_nothing].
    destruct (present (act_payload a !! "name")) as [v|] eqn:Hv;
      [| sent_nothing].
    apply present_id in Hid, Hv.
    sent_one Hperm (Area_update aid v). by simpl. }
  sent_nothing.
Qed.

Lemma from_permitted_cons {A} approved a acts (R : Action -> A -> Prop) l :
  Forall (from_permitted approved acts R) l ->
  Forall (from_permitted approved (a :: acts) R) l.
Proof.
  intros H. eapply Forall_impl; [exact H |].
  intros x (b & Hb & Hp & HR). exists b. split; [by right | done].
Qed.

Lemma apply_loop_gated reg approved acts : forall st,
  exists new la,
    attempted (a_ha (apply_loop fault reg approved st acts).1)
    = attempted (a_ha st) ++ new
    /\ Forall (from_permitted approved acts asks) new
    /\ applied (apply_loop fault reg approved st acts).1 = applied st ++ la
    /\ Forall (from_permitted approved acts (fun a i => act_id a = i)) la.
Proof.
  induction acts as [|a acts IH]; intros st; simpl.
  - exists [], []. by rewrite !app_nil_r.
  - destruct (apply_action_gated reg approved st a)
      as (new & Hatt & Hperm & Hasks & Happ).
    assert (Hnew : Forall (from_permitted approved (a :: acts) asks) new).
    { destruct new as [|q new]; [constructor |].
      specialize (Hperm ltac:(done)).
      eapply Forall_impl; [exact Hasks |].
      intros r Hr. exists a. split; [by left | done]. }
    assert (Hla : exists la,
               applied (apply_action fault reg approved st a).1
               = applied st ++ la
               /\ Forall (from_permitted approved (a :: acts)
                            (fun a i => act_id a = i)) la).
    { destruct Happ as [-> | [Hp ->]].
      - exists []. by rewrite app_nil_r.
      - exists [act_id a]. split; [done |].
        constructor; [| constructor]. exists a. split; [by left | done]. }
    destruct Hla as (la & Hla & Hla').
    destruct (apply_action fault reg approved st a) as [st1 [ex|]]; simpl in *.
    + by exists new, la.
    + destruct (IH st1) as (new' & la' & Hatt' & Hnew' & Happ' & Hla'').
      exists (new ++ new'), (la ++ la').
      rewrite Hatt', Hatt, Happ', Hla, <- !app_assoc.
      split; [done |]. split.
      * apply Forall_app. split; [done | by apply from_permitted_cons].
      * split; [done |].
        apply Forall_app. split; [done | by apply from_permitted_cons].
Qed.

Lemma send_list_spec {A} h r (get : ha_state -> A) :
  let res := send fault h r (fun h => Some (h, get h)) in
  registry res.1 = registry h
  /\ attempted res.1 = attempted h ++ [r]
  /\ _msg_id res.1 = S (_msg_id h)
  /\ (forall x, res.2 = Some x ->
                x = get (mk_ha (reg_areas h) (reg_devices h) (reg_entities h)
                               (reg_states h) (S (_msg_id h))
                               (attempted h ++ [r]))).
Proof.
  unfold send. destruct (fault (_msg_id h)); simpl.
  - by repeat split.
  - repeat split; try done. by intros x [= <-].
Qed.

Lemma snapshot_registries_requests h :
  registry (snapshot_registries fault h).1 = registry h
  /\ exists fetched,
       attempted (snapshot_registries fault h).1 = attempted h ++ fetched
       /\ fetched `prefix_of` [Entity_list; Area_list; Device_list]
       /\ (is_Some (snapshot_registries fault h).2 ->
           fetched = [Entity_list; Area_list; Device_list]).
Proof.
  unfold snapshot_registries, entity_list, area_list, device_list.
  destruct (send_list_spec h Entity_list reg_entities) as (R1 & A1 & _).
  destruct (send fault h Entity_list _) as [h1 [ents|]]; simpl in *.
  2: { split; [done |]. exists [Entity_list]. split; [done |].
       split; [by exists [Area_list; Device_list] | by intros [? ?]]. }
  destruct (send_list_spec h1 Area_list reg_areas) as (R2 & A2 & _).
  destruct (send fault h1 Area_list _) as [h2 [ars|]]; simpl in *.
  2: { split; [congruence |]. exists [Entity_list; Area_list].
       rewrite A2, A1, <- app_assoc.
       split; [done |]. split; [by exists [Device_list] | by intros [? ?]]. }
  destruct (send_list_spec h2 Device_list reg_devices) as (R3 & A3 & _).
  destruct (send fault h2 Device_list _) as [h3 [dvs|]]; simpl in *.
  all: split; [congruence |]; exists [Entity_list; Area_list; Device_list];
    rewrite A3, A2, A1, <- !app_assoc; split; [done |]; split; done.
Qed.

(** X10.  The approval gate.  Every request [apply] sends after the three
    registry listings is one that an action of the stored plan stands
    for, an action that needs no approval or whose id was approved;
    the same holds of every id reported as applied, and of the
    requests a run has sent when it ends with an exception.  Without
    a stored plan nothing is sent. *)
Theorem apply_sends_only_permitted now e approved_action_ids :
  let approved : gset string := list_to_set approved_action_ids in
  let run := apply fault now e approved_action_ids in
  match load_plan e with
  | None => run.1 = e
  | Some plan =>
      exists fetched new,
        attempted (ha run.1) = attempted (ha e) ++ fetched ++ new
        /\ fetched `prefix_of` [Entity_list; Area_list; Device_list]
        /\ Forall (from_permitted approved (pl_actions plan) asks) new
        /\ match run.2 with
           | Returned res =>
               Forall (from_permitted approved (pl_actions plan)
                         (fun a i => act_id a = i))
                      (applied_action_ids res)
           | Raised _ => True
           end
  end.
Proof.
  intros approved run. subst run. unfold apply.
  destruct (load_plan e) as [plan|]; [| done].
  destruct (snapshot_registries_requests (ha e))
    as (_ & fetched & Hfetched & Hprefix & _).
  destruct (snapshot_registries fault (ha e)) as [h [reg|]]; simpl in *.
  2: { exists fetched, []. rewrite app_nil_r. by repeat split. }
  destruct (apply_loop_gated reg approved (pl_actions plan)
              (mk_astate h [] [] []))
    as (new & la & Hatt & Hnew & Happ & Hla).
  fold approved.
  destruct (apply_loop fault reg approved _ (pl_actions plan))
    as [st [ex|]]; simpl in *;
    exists fetched, new; rewrite Hatt, Hfetched, <- app_assoc;
    repeat split; try done.
  by rewrite Happ.
Qed.

Lemma apply_loop_nothing_permitted reg approved acts
    (Hnone : forall a, a ∈ acts -> permitted approved a = false) :
  forall st,
    apply_loop fault reg approved st acts
    = (mk_astate (a_ha st) (rollback_steps st) (applied st)
                 (skipped st
                    ++ ((fun a => (act_id a, "requires_approval")) <$> acts)),
       None).
Proof.
  induction acts as [|a acts IH]; intros st; simpl.
  - rewrite app_nil_r. by destruct st.
  - assert (Hgate : act_requires_approval a
                    && negb (bool_decide (act_id a ∈ approved)) = true).
    { specialize (Hnone a ltac:(by left)). unfold permitted in Hnone.
      apply orb_false_elim in Hnone as [H1 H2].
      apply negb_false_iff in H1. by rewrite H1, H2. }
    unfold apply_action. rewrite Hgate.
    rewrite IH by (intros b Hb; apply Hnone; by right).
    unfold skip. simpl. by rewrite <- app_assoc.
Qed.

(** X11.  A run in which no action passes the gate changes nothing: the
    registry is as before, the plan too; when the three listings
    succeed, every action is reported as skipped for want of approval,
    in the order of the plan, nothing is reported as applied, and the
    rollback record written has no step. *)
Theorem apply_nothing_permitted now e approved_action_ids plan
    (Hplan : load_plan e = Some plan)
    (Hnone : Forall (fun a => permitted (list_to_set approved_action_ids) a
                               = false)
                    (pl_actions plan)) :
  let run := apply fault now e approved_action_ids in
  registry (ha run.1) = registry (ha e)
  /\ plan_json run.1 = plan_json e
  /\ attempted (ha run.1) `prefix_of`
       attempted (ha e) ++ [Entity_list; Area_list; Device_list]
  /\ match run.2 with
     | Returned res =>
         applied_action_ids res = []
         /\ res_skipped res
            = (fun a => (act_id a, "requires_approval")) <$> pl_actions plan
         /\ steps (res_rollback res) = []
         /\ rollback_json run.1 = Some (res_rollback res)
     | Raised _ => rollback_json run.1 = rollback_json e
     end.
Proof.
  intros run. subst run. unfold apply. rewrite Hplan.
  rewrite Forall_forall in Hnone.
  destruct (snapshot_registries_requests (ha e))
    as (Hreg & fetched & Hfetched & Hprefix & Hall).
  destruct (snapshot_registries fault (ha e)) as [h [reg|]]; simpl in *.
  - rewrite apply_loop_nothing_permitted by done. simpl.
    rewrite Hfetched, (Hall ltac:(eauto)). by repeat split.
  - rewrite Hfetched. repeat split; try done.
    by apply prefix_app.
Qed.

(** *** Reading the registry *)
Lemma fetch_spec h :
  registry (_fetch fault h).1 = registry h
  /\ (exists fetched,
         attempted (_fetch fault h).1 = attempted h ++ fetched
         /\ fetched `prefix_of` [Area_list; Device_list; Entity_list; Get_states])
  /\ (forall snap, (_fetch fault h).2 = Some snap ->
        snap = mk_snapshot (reg_areas h) (reg_devices h) (reg_entities h)
                           (index_by st_entity_id (reg_states h))).
Proof.
  unfold _fetch, entity_list, area_list, device_list, get_states.
  destruct (send_list_spec h Area_list reg_areas) as (R1 & A1 & _ & V1).
  destruct (send fault h Area_list _) as [h1 [ars|]]; simpl in *.
  2: { split; [done |]. split; [| done]. exists [Area_list]. split; [done |].
       by exists [Device_list; Entity_list; Get_states]. }
  destruct (send_list_spec h1 Device_list reg_devices) as (R2 & A2 & _ & V2).
  destruct (send fault h1 Device_list _) as [h2 [dvs|]]; simpl in *.
  2: { split; [congruence |]. split; [| done]. exists [Area_list; Device_list].
       rewrite A2, A1, <- app_assoc.
       split; [done |]. by exists [Entity_list; Get_states]. }
  destruct (send_list_spec h2 Entity_list reg_entities) as (R3 & A3 & _ & V3).
  destruct (send fault h2 Entity_list _) as [h3 [ents|]]; simpl in *.
  2: { split; [congruence |]. split; [| done].
       exists [Area_list; Device_list; Entity_list].
       rewrite A3, A2, A1, <- !app_assoc.
       split; [done |]. by exists [Get_states]. }
  destruct (send_list_spec h3 Get_states reg_states) as (R4 & A4 & _ & V4).
  destruct (send fault h3 Get_states _) as [h4 [sts|]]; simpl in *.
  all: split; [congruence |]; split;
    [ exists [Area_list; Device_list; Entity_list; Get_states];
      rewrite A4, A3, A2, A1, <- !app_assoc; by split |].
  2: done.
  intros snap [= <-].
  rewrite (V1 _ eq_refl), (V2 _ eq_refl), (V3 _ eq_refl), (V4 _ eq_refl).
  simpl. unfold registry in *.
  injection R1 as ????. injection R2 as ????. injection R3 as ????.
  f_equal; congruence.
Qed.

(** X12.  [plan] only reads the registry: whatever fails, the registry, the
    rollback record and the ignore list are as before, and the
    requests sent are the four listings, in order, up to the first
    that fails.  A run that returns has planned on the registry as it
    is and has stored the plan it returns; a run that raises leaves
    the stored plan alone. *)
Theorem plan_reads_only uuid4 _compile_regex onbekend_area_name now loaded
    e include_onbekend_fallback :
  let run := plan fault uuid4 _compile_regex onbekend_area_name now loaded
                  e include_onbekend_fallback in
  registry (ha run.1) = registry (ha e)
  /\ rollback_json run.1 = rollback_json e
  /\ ignored_json run.1 = ignored_json e
  /\ (exists fetched,
         attempted (ha run.1) = attempted (ha e) ++ fetched
         /\ fetched `prefix_of`
              [Area_list; Device_list; Entity_list; Get_states])
  /\ match run.2 with
     | Returned p =>
         plan_json run.1 = Some p
         /\ p = build_plan uuid4 _compile_regex onbekend_area_name now
                  (mk_snapshot (reg_areas (ha e)) (reg_devices (ha e))
                               (reg_entities (ha e))
                               (index_by st_entity_id (reg_states (ha e))))
                  loaded.1 loaded.2 (load_ignored e)
                  include_onbekend_fallback
     | Raised _ => plan_json run.1 = plan_json e
     end.
Proof.
  intros run. subst run. unfold plan.
  destruct (fetch_spec (ha e)) as (Hreg & Hatt & Hsnap).
  destruct (_fetch fault (ha e)) as [h [snap|]]; simpl in *.
  - rewrite (Hsnap snap eq_refl). by repeat split.
  - by repeat split.
Qed.

(** X13.  [audit] only reads too: registry and documents are as before,
    only listings are sent, and the report is the one of the registry
    as it is, with counts that are the lengths of its lists. *)
Theorem audit_reads_only now e :
  let run := Audit.audit fault now e in
  registry (ha run.1) = registry (ha e)
  /\ plan_json run.1 = plan_json e
  /\ rollback_json run.1 = rollback_json e
  /\ ignored_json run.1 = ignored_json e
  /\ (exists fetched,
         attempted (ha run.1) = attempted (ha e) ++ fetched
         /\ fetched `prefix_of`
              [Area_list; Device_list; Entity_list; Get_states])
  /\ forall r c, run.2 = Returned (r, c) ->
       let snap := mk_snapshot (reg_areas (ha e)) (reg_devices (ha e))
                               (reg_entities (ha e))
                               (index_by st_entity_id (reg_states (ha e))) in
       r = Audit.build_report now snap
       /\ c = Audit.report_counts snap r.
Proof.
  intros run. subst run. unfold Audit.audit.
  destruct (fetch_spec (ha e)) as (Hreg & Hatt & Hsnap).
  destruct (_fetch fault (ha e)) as [h [snap|]]; simpl in *.
  - rewrite (Hsnap snap eq_refl).
    do 5 (split; [done |]). by intros r c [= <- <-].
  - by do 5 (split; [done |]).
Qed.

(** *** The record [apply] writes *)
Lemma dom_before_field k (v : option string) : dom (before_field k v) = {[ k ]}.
Proof. unfold before_field. apply dom_singleton_L. Qed.

Lemma apply_action_replayable reg approved st a :
  Forall (fun s => replayable s = true) (rollback_steps st) ->
  Forall (fun s => replayable s = true)
         (rollback_steps (apply_action fault reg approved st a).1).
Proof.
  intros Hst. unfold apply_action, skip.
  repeat case_match; simplify_eq/=; try exact Hst;
    rewrite ?finish_steps;
    apply Forall_app; (split; [exact Hst |]);
    (constructor; [| constructor]); simpl; try done;
    apply bool_decide_pack;
    rewrite ?dom_insert_L, dom_before_field;
    unfold entity_keywords, device_keywords, area_keywords; set_solver.
Qed.

Lemma apply_loop_replayable reg approved acts : forall st,
  Forall (fun s => replayable s = true) (rollback_steps st) ->
  Forall (fun s => replayable s = true)
         (rollback_steps (apply_loop fault reg approved st acts).1).
Proof.
  induction acts as [|a acts IH]; intros st Hst; simpl; [done |].
  pose proof (apply_action_replayable reg approved st a Hst) as H1.
  destruct (apply_action fault reg approved st a) as [st1 [ex|]]; simpl in *;
    [done | by apply IH].
Qed.
End Gate.

Section Replay.
Variable fault : nat -> bool.

Lemma not_in_dom (before : gmap string (option string)) (keys : gset string) k :
  dom before ⊆ keys -> k ∉ keys -> before !! k = None.
Proof. intros Hsub Hk. apply not_elem_of_dom. set_solver. Qed.

Lemma reverted_one_errors {A} st s (r : ha_state * option A) :
  Forall (fun x => x.2 <> TypeError) (errors st) ->
  Forall (fun x => x.2 <> TypeError) (errors (reverted_one st s r)).
Proof.
  intros H. destruct r as [h [x|]]; simpl; [done |].
  apply Forall_app. split; [done |]. by repeat constructor.
Qed.

Lemma rollback_step_replayable st s :
  replayable s = true ->
  Forall (fun x => x.2 <> TypeError) (errors st) ->
  Forall (fun x => x.2 <> TypeError) (errors (rollback_step fault st s)).
Proof.
  intros Hs Hst. destruct s as [| eid before | did before | aid before |];
    simpl in *; try done.
  - apply bool_decide_eq_true in Hs.
    rewrite bool_decide_false; [by apply reverted_one_errors |].
    rewrite (not_in_dom before entity_keywords) by (done || set_solver).
    by intros [? ?].
  - apply bool_decide_eq_true in Hs.
    rewrite bool_decide_false; [by apply reverted_one_errors |].
    rewrite (not_in_dom before device_keywords) by (done || set_solver).
    by intros [? ?].
  - apply bool_decide_eq_true in Hs.
    case_bool_decide as Hclean; [done |].
    set (clean := omap (fun v => v) before : gmap string string) in *.
    assert (Hother : forall k, k <> "name" -> clean !! k = None).
    { intros k Hk. unfold clean. rewrite lookup_omap.
      rewrite (not_in_dom before area_keywords) by (done || set_solver).
      done. }
    destruct (clean !! "name") as [name|] eqn:Hname.
    + rewrite bool_decide_true; [by apply reverted_one_errors |].
      apply map_eq. intros k. destruct (decide (k = "name")) as [-> | Hk].
      * by rewrite lookup_singleton_eq.
      * rewrite lookup_singleton_ne by done. by apply Hother.
    + exfalso. apply Hclean. apply map_eq. intros k.
      rewrite lookup_empty. destruct (decide (k = "name")) as [-> | Hk];
        [done | by apply Hother].
Qed.

Lemma rollback_fold_replayable l : forall st,
  Forall (fun s => replayable s = true) l ->
  Forall (fun x => x.2 <> TypeError) (errors st) ->
  Forall (fun x => x.2 <> TypeError)
         (errors (foldl (rollback_step fault) st l)).
Proof.
  induction l as [|s l IH]; intros st Hl Hst; simpl; [done |].
  apply Forall_cons in Hl as [Hs Hl].
  apply IH; [done |]. by apply rollback_step_replayable.
Qed.

(** X14.  The record a returning [apply] writes is one [rollback] can replay:
    each of its steps holds only keyword arguments of the call that
    undoes it, so in the rollback that follows, under whatever
    failures of the connection, no step is lost to a call that is
    malformed: no error recorded is a [TypeError]. *)
Theorem applied_record_replays apply_fault now e approved_action_ids e1 res
    (Hrun : apply apply_fault now e approved_action_ids = (e1, Returned res)) :
  Forall (fun s => replayable s = true) (steps (res_rollback res))
  /\ load_rollback e1 = Some (res_rollback res)
  /\ Forall (fun x => x.2 <> TypeError)
            (result_errors (rollback fault e1).2).
Proof.
  unfold apply in Hrun.
  destruct (load_plan e) as [plan|]; [| done].
  destruct (snapshot_registries apply_fault (ha e)) as [h [reg|]]; [| done].
  pose proof (apply_loop_replayable apply_fault reg
                (list_to_set approved_action_ids) (pl_actions plan)
                (mk_astate h [] [] []) ltac:(constructor)) as Hsteps.
  destruct (apply_loop apply_fault reg _ _ (pl_actions plan)) as [st [ex|]];
    [done |].
  simplify_eq/=. split; [done |]. split; [done |].
  unfold rollback, load_rollback. simpl. unfold rollback_loop.
  apply rollback_fold_replayable; [| constructor].
  by apply Forall_reverse.
Qed.
End Replay.
End ApplyFacts.

Module OriginFacts.
Import Engine HA Executor Spec Notions FingerprintFacts PlanFacts.

Local Arguments String.append !_ _ / : simpl nomatch.

Section Passes.
Variable uuid4 : nat -> string.
Variable _compile_regex : string -> option (string -> bool).
Variable onbekend_area_name : string.
Variable snap : snapshot.
Variable rules : rules.

Local Abbreviation origin := (origin snap rules onbekend_area_name).
Local Abbreviation ok := (fun s : pstate => Forall origin (actions s)).

Lemma ok_emit s type payload reason confidence req :
  ok s ->
  (forall id, origin (mk_action id type payload reason confidence req)) ->
  ok (emit uuid4 s type payload reason confidence req).
Proof.
  intros Hs Ha. simpl. apply Forall_app. split; [done |].
  constructor; [apply Ha | constructor].
Qed.

Lemma ok_foldl {A} (f : pstate -> A -> pstate) (Q : A -> Prop) l :
  (forall s x, Q x -> ok s -> ok (f s x)) ->
  Forall Q l -> forall s, ok s -> ok (foldl f s l).
Proof.
  intros Hf. induction l as [|x l IH]; intros Hl s Hs; simpl; [done |].
  apply Forall_cons in Hl as [Hx Hl]. apply IH; [done |]. by apply Hf.
Qed.

Lemma present_nonempty o v : present o = Some v -> v <> EmptyString.
Proof. by intros [_ ?]%present_Some. Qed.

Lemma nonempty_ne s : nonempty s = true -> s <> EmptyString.
Proof. by destruct s. Qed.

Lemma known_entity_of er eid :
  er ∈ entities snap -> present (er_entity_id er) = Some eid ->
  known_entity snap eid.
Proof. intros. apply entity_ids_of_elem. eauto. Qed.

Lemma str_or_empty_present o :
  nonempty (str_or_empty o) = true -> present o = Some (str_or_empty o).
Proof. by destruct o as [[|c s]|]. Qed.

Lemma by_rule_elem (o : option bool) :
  o ∈ approval_flags rules -> by_rule rules (flag true o).
Proof. intros. by exists o. Qed.

Lemma effective_own er d :
  truthy (_effective_area_id er d) = false -> truthy (er_area_id er) = false.
Proof.
  unfold _effective_area_id. destruct (truthy (er_area_id er)) eqn:E; [| done].
  by rewrite E.
Qed.

(** *** The passes *)
Lemma rename_area_rule_ok s r :
  r ∈ area_renames rules -> ok s ->
  ok (rename_area_rule uuid4 (area_by_name_ci_of (areas snap)) s r).
Proof.
  intros Hr Hs. unfold rename_area_rule.
  repeat case_match; try done.
  apply ok_emit; [done |]. intros id.
  match goal with
  | H : _ || _ || _ = false |- _ =>
      apply orb_false_elim in H as [[_ Hdst]%orb_false_elim _]
  end.
  apply negb_false_iff in Hdst.
  constructor; [by eapply present_nonempty | by apply nonempty_ne |].
  apply by_rule_elem. unfold approval_flags.
  apply elem_of_app. left. by apply list_elem_of_fmap_2.
Qed.

Ltac emitted :=
  simpl; apply Forall_app; split; [assumption |];
  constructor; [| constructor].

Ltac flag_found :=
  apply by_rule_elem; unfold approval_flags; rewrite !elem_of_app;
  first [ left; by apply list_elem_of_fmap_2
        | right; left; by apply list_elem_of_fmap_2
        | right; right; left; by apply list_elem_of_fmap_2
        | right; right; right; left; by apply list_elem_of_fmap_2
        | right; right; right; right; left; by apply list_elem_of_fmap_2
        | right; right; right; right; right; by apply list_elem_of_fmap_2 ].

Ltac is_active :=
  match goal with
  | H : negb (_is_active_state ?x) = false |- _ =>
      apply negb_false_iff in H; exact H
  end.

Ltac is_known :=
  first [ assumption
        | eapply known_entity_of; eassumption
        | match goal with
          | H : bool_decide (?x ∈ ?X) = true |- _ =>
              apply bool_decide_eq_true in H; exact H
          end ].

Ltac not_empty :=
  first [ eapply present_nonempty; eassumption
        | apply nonempty_ne; assumption
        | assumption ].

Lemma remove_listed_ok s eid :
  ok s -> ok (remove_listed uuid4 (entity_ids_of (entities snap)) s eid).
Proof.
  intros Hs. unfold remove_listed. case_match; [| done].
  match goal with
  | H : _ && _ = true |- _ => apply andb_prop in H as [Hin _]
  end.
  emitted. apply origin_removal; [is_known | by left].
Qed.

Lemma sorted_ids_known :
  Forall (known_entity snap)
         (sorted String.leb (elements (entity_ids_of (entities snap)))).
Proof.
  apply Forall_forall. intros eid Hin.
  by apply sorted_elem, elem_of_elements in Hin.
Qed.

Lemma remove_regex_ok s rr :
  rr ∈ ir_regex (Model.entity_remove rules) -> ok s ->
  ok (remove_regex uuid4 _compile_regex (entity_ids_of (entities snap)) s rr).
Proof.
  intros Hr Hs. unfold remove_regex. case_match; [| done].
  apply (ok_foldl _ (known_entity snap)); [| apply sorted_ids_known | done].
  intros s' eid Hk Hs'. repeat case_match; try done.
  emitted. apply origin_removal; [done |]. right. left. split; [done |].
  flag_found.
Qed.

Lemma hide_listed_ok s eid :
  ok s -> ok (hide_listed uuid4 (entity_ids_of (entities snap)) s eid).
Proof.
  intros Hs. unfold hide_listed. case_match; [| done].
  match goal with
  | H : _ && _ = true |- _ => apply andb_prop in H as [Hin _]
  end.
  emitted. apply origin_hide; [is_known | by left].
Qed.

Lemma hide_regex_ok s rr :
  rr ∈ ir_regex (Model.entity_hide rules) -> ok s ->
  ok (hide_regex uuid4 _compile_regex (entity_ids_of (entities snap)) s rr).
Proof.
  intros Hr Hs. unfold hide_regex. case_match; [| done].
  apply (ok_foldl _ (known_entity snap)); [| apply sorted_ids_known | done].
  intros s' eid Hk Hs'. repeat case_match; try done.
  emitted. apply origin_hide; [done |]. right. left. split; [done |].
  flag_found.
Qed.

Lemma inherit_entity_ok s er :
  er ∈ entities snap -> ok s ->
  ok (inherit_entity uuid4 snap (index_by dv_id (devices snap)) s er).
Proof.
  intros Her Hs. unfold inherit_entity. repeat case_match; try done.
  emitted.
  apply origin_entity_area; [is_known | is_active | not_empty |].
  left. split; [done |]. split; [done |]. by exists er.
Qed.

Lemma linked_explicit_areas_nonempty linked a :
  a ∈ linked_explicit_areas snap linked -> a <> EmptyString.
Proof.
  unfold linked_explicit_areas.
  assert (H0 : forall x, x ∈ (∅ : gset string) -> x <> EmptyString)
    by set_solver.
  revert H0. generalize (∅ : gset string). revert a.
  induction linked as [|er l IH]; intros a acc Hacc; simpl; [apply Hacc |].
  apply IH. repeat case_match; try done.
  intros x [->%elem_of_singleton | Hx]%elem_of_union; [| by apply Hacc].
  by eapply present_nonempty.
Qed.

Lemma backfill_device_ok s dv :
  dv ∈ devices snap -> ok s ->
  ok (backfill_device uuid4 snap (entities_by_device_id_of (entities snap))
                      s dv).
Proof.
  intros Hdv Hs. unfold backfill_device. repeat case_match; try done.
  emitted. apply origin_device_area; [by exists dv | | by left].
  eapply linked_explicit_areas_nonempty.
  apply elem_of_elements.
  match goal with H : elements _ = [_] |- _ => rewrite H end.
  by left.
Qed.

Lemma token_match_entity_ok incl s er :
  er ∈ entities snap -> ok s ->
  ok (token_match_entity uuid4 snap (index_by dv_id (devices snap))
                         (area_tokens_of (areas snap)) incl s er).
Proof.
  intros Her Hs. unfold token_match_entity.
  repeat case_match; try done;
    (emitted; apply origin_entity_area;
     [ is_known | is_active
     | match goal with
      | H : token_matches _ ?ht = [(?i, ?n)] |- _ =>
          assert (Hin : (i, n) ∈ token_matches (area_tokens_of (areas snap)) ht)
            by (rewrite H; by left)
      end;
      apply (token_matches_spec _compile_regex) in Hin
        as ((a & _ & Hi & _) & _);
       by eapply present_nonempty
     | right; left; split; [done |]; split; [done |];
      exists er; split; [done |]; split; [done |];
      unfold _effective_area_id;
      match goal with
      | Ha : truthy (er_area_id er) = false |- _ => rewrite Ha
      end;
      match goal with
      | Hd : present (er_device_id er) = _ |- _ => by rewrite Hd
      end ]).
Qed.

Lemma create_fallback_area_ok incl s :
  ok s ->
  ok (create_fallback_area uuid4 onbekend_area_name
                           (area_names_of (areas snap)) incl s).
Proof.
  intros Hs. unfold create_fallback_area. case_match; [| done].
  emitted. apply origin_create_area.
Qed.

Lemma fallback_entity_ok onbekend_area_id s er :
  onbekend_area_id <> EmptyString -> er ∈ entities snap -> ok s ->
  ok (fallback_entity uuid4 onbekend_area_name snap
                      (index_by dv_id (devices snap)) onbekend_area_id s er).
Proof.
  intros Hid Her Hs. unfold fallback_entity. repeat case_match; try done.
  emitted.
  apply origin_entity_area; [is_known | is_active | done |].
  right. right. left. split; [done |]. split; [done |]. by exists er.
Qed.

Lemma Forall_self {A} (l : list A) : Forall (fun x => x ∈ l) l.
Proof. by apply Forall_forall. Qed.

Lemma fallback_placement_ok incl s :
  ok s ->
  ok (fallback_placement uuid4 onbekend_area_name snap
                         (index_by dv_id (devices snap)) incl s).
Proof.
  intros Hs. unfold fallback_placement. repeat case_match; try done.
  apply (ok_foldl _ (fun er => er ∈ entities snap));
    [| apply Forall_self | done].
  intros s' er Her Hs'. apply fallback_entity_ok; [| done | done].
  by eapply present_nonempty.
Qed.

Lemma suffix_duplicate_entity_ok s er :
  er ∈ entities snap -> ok s ->
  ok (suffix_duplicate_entity uuid4 (entity_ids_of (entities snap)) s er).
Proof.
  intros Her Hs. unfold suffix_duplicate_entity. repeat case_match; try done.
  emitted. apply origin_removal; [is_known | by right; right].
Qed.

(** Insertion-ordered dictionaries of lists. *)
Lemma setdefault_append_elem {K V} `{EqDecision K} (k : K) (v : V) d k' vs x :
  (k', vs) ∈ setdefault_append k v d -> x ∈ vs ->
  (k' = k /\ x = v) \/ exists vs0, (k', vs0) ∈ d /\ x ∈ vs0.
Proof.
  induction d as [|[k0 vs0] d IH]; simpl.
  - intros [= -> ->]%list_elem_of_singleton ->%list_elem_of_singleton.
    by left.
  - destruct (decide (k = k0)) as [-> | Hne].
    + intros [Heq | Hin]%elem_of_cons Hx.
      * injection Heq as -> ->.
        apply elem_of_app in Hx as [Hx | ->%list_elem_of_singleton];
          [| by left].
        right. eexists. split; [by left | done].
      * right. eexists. split; [by right | done].
    + intros [Heq | Hin]%elem_of_cons Hx.
      * injection Heq as -> ->. right. eexists. split; [by left | done].
      * destruct (IH Hin Hx) as [? | (vs1 & ? & ?)]; [by left |].
        right. exists vs1. split; [by right | done].
Qed.

Lemma by_unique_id_of_elem ents uid eids eid :
  (uid, eids) ∈ by_unique_id_of ents -> eid ∈ eids ->
  exists er, er ∈ ents /\ present (er_unique_id er) = Some uid
             /\ present (er_entity_id er) = Some eid.
Proof.
  unfold by_unique_id_of. revert uid eids eid.
  induction ents as [|er ents IH] using rev_ind; intros uid eids eid; simpl.
  - by intros ?%elem_of_nil.
  - rewrite foldl_app. simpl. intros Hin Hx.
    assert (Hold : forall d, (uid, eids) ∈ d ->
              d = foldl (fun d er =>
                           match present (er_unique_id er),
                                 present (er_entity_id er) with
                           | Some uid, Some eid => setdefault_append uid eid d
                           | _, _ => d
                           end) [] ents ->
              exists er0, er0 ∈ ents ++ [er]
                          /\ present (er_unique_id er0) = Some uid
                          /\ present (er_entity_id er0) = Some eid).
    { intros d Hd ->. destruct (IH _ _ _ Hd Hx) as (er0 & ? & ?).
      exists er0. split; [apply elem_of_app; by left | done]. }
    destruct (present (er_unique_id er)) as [u|] eqn:Hu; [| by eapply Hold].
    destruct (present (er_entity_id er)) as [i|] eqn:Hi; [| by eapply Hold].
    destruct (setdefault_append_elem _ _ _ _ _ _ Hin Hx)
      as [[-> ->] | (vs0 & Hin0 & Hx0)].
    + exists er. split; [apply elem_of_app; right; by left | done].
    + destruct (IH _ _ _ Hin0 Hx0) as (er0 & ? & ?).
      exists er0. split; [apply elem_of_app; by left | done].
Qed.

Lemma hide_unique_id_group_ok s g :
  g ∈ by_unique_id_of (entities snap) -> ok s ->
  ok (hide_unique_id_group uuid4 s g).
Proof.
  intros Hg Hs. destruct g as [uid eids]. unfold hide_unique_id_group.
  destruct (sorted String.leb eids) as [|kept [|e rest]] eqn:Hsorted;
    [done | done |].
  apply (ok_foldl _ (known_entity snap)); [| | done].
  - intros s' eid Hk Hs'. case_match; [done |].
    emitted. apply origin_hide; [done | by right; right].
  - apply Forall_forall. intros eid Hin.
    assert (Helem : eid ∈ eids).
    { apply (sorted_elem String.leb). rewrite Hsorted. by right. }
    destruct (by_unique_id_of_elem _ _ _ _ Hg Helem) as (er & Her & _ & Hid).
    by eapply known_entity_of.
Qed.

Lemma entity_area_rule_ok s rr :
  rr ∈ entity_area rules -> ok s ->
  ok (entity_area_rule uuid4 _compile_regex snap
        (index_by dv_id (devices snap))
        (area_id_by_name_lower_of (areas snap)) s rr).
Proof.
  intros Hr Hs. unfold entity_area_rule. repeat case_match; try done.
  apply (ok_foldl _ (fun er => er ∈ entities snap));
    [| apply Forall_self | done].
  intros s' er Her Hs'. repeat case_match; try done.
  match goal with
  | H : _ || _ = false |- _ => apply orb_false_elim in H as [Hne _]
  end.
  apply negb_false_iff, str_or_empty_present in Hne.
  emitted.
  apply origin_entity_area; [is_known | is_active | |].
  - unfold target_area in *. not_empty.
  - do 3 right. left. split; [done |]. flag_found.
Qed.

Lemma device_area_rule_ok s rr :
  rr ∈ device_area rules -> ok s ->
  ok (device_area_rule uuid4 _compile_regex snap
        (area_id_by_name_lower_of (areas snap)) s rr).
Proof.
  intros Hr Hs. unfold device_area_rule. repeat case_match; try done.
  apply (ok_foldl _ (fun dv => dv ∈ devices snap));
    [| apply Forall_self | done].
  intros s' dv Hdv Hs'. repeat case_match; try done.
  emitted.
  apply origin_device_area; [by exists dv | |].
  - unfold target_area in *. not_empty.
  - right. split; [done |]. flag_found.
Qed.

Lemma first_helper_rule_spec m tokens rs t name req :
  first_helper_rule m tokens rs = Some (t, name, req) ->
  t <> EmptyString
  /\ exists hr, hr ∈ rs /\ req = flag true (hr_requires_approval hr).
Proof.
  induction rs as [|hr rs IH]; simpl; [done |].
  intros H.
  assert (Hrest : first_helper_rule m tokens rs = Some (t, name, req) ->
            t <> EmptyString
            /\ exists hr0, hr0 ∈ hr :: rs
                           /\ req = flag true (hr_requires_approval hr0)).
  { intros Hr. destruct (IH Hr) as (? & hr0 & ? & ?).
    split; [done |]. exists hr0. split; [by right | done]. }
  repeat case_match; try by apply Hrest.
  simplify_eq. split.
  - unfold target_area in *. not_empty.
  - exists hr. split; [by left | done].
Qed.

Lemma helper_entity_ok s er :
  er ∈ entities snap -> ok s ->
  ok (helper_entity uuid4 snap (index_by dv_id (devices snap))
        (area_id_by_name_lower_of (areas snap)) (helper_area_rules rules)
        s er).
Proof.
  intros Her Hs. unfold helper_entity. repeat case_match; try done.
  match goal with
  | H : first_helper_rule _ _ _ = Some _ |- _ =>
      apply first_helper_rule_spec in H as (Harea & hr & Hhr & ->)
  end.
  match goal with
  | H : negb (nonempty _) = false |- _ =>
      apply negb_false_iff, str_or_empty_present in H; rename H into Hid
  end.
  emitted.
  apply origin_entity_area; [is_known | is_active | done |].
  do 4 right. split; [done |]. split; [flag_found | by exists er].
Qed.

Lemma media_grouped_elem cands k items x :
  (k, items) ∈ media_grouped cands -> x ∈ items ->
  (k.1, k.2, x.1, x.2) ∈ cands.
Proof.
  unfold media_grouped. revert k items x.
  induction cands as [|[[[a b] e] c] cands IH] using rev_ind;
    intros k items x; simpl.
  - by intros ?%elem_of_nil.
  - rewrite foldl_app. simpl. intros Hin Hx.
    destruct (setdefault_append_elem _ _ _ _ _ _ Hin Hx)
      as [[-> ->] | (vs0 & Hin0 & Hx0)].
    + apply elem_of_app. right. by left.
    + apply elem_of_app. left. by eapply IH.
Qed.

Lemma media_candidate_spec er area base eid cur :
  media_candidate snap (index_by dv_id (devices snap)) er
  = Some (area, base, eid, cur) ->
  present (er_entity_id er) = Some eid /\ active snap eid.
Proof.
  unfold media_candidate, active. repeat case_match; try done.
  intros [= <- <- <- <-]. split; [done |].
  match goal with
  | H : negb (_is_active_state _) = false |- _ =>
      by apply negb_false_iff in H
  end.
Qed.

Lemma append_space_nonempty (a b : string) : a +:+ " " +:+ b <> EmptyString.
Proof. by destruct a. Qed.

Lemma media_group_ok s g :
  g ∈ media_grouped
        (omap (media_candidate snap (index_by dv_id (devices snap)))
              (entities snap)) ->
  ok s -> ok (media_group uuid4 (area_name_by_id_of (areas snap)) s g).
Proof.
  intros Hg Hs. destruct g as [[area_id base] items].
  unfold media_group.
  set (items_sorted := sorted (fun x y => String.leb x.1 y.1) items).
  apply (ok_foldl _ (fun x => x.2 ∈ items)); [| | done].
  - intros s' [idx [eid cur]] Hx Hs'. simpl in Hx.
    pose proof (media_grouped_elem _ _ _ _ Hg Hx) as Hc. simpl in Hc.
    apply list_elem_of_omap in Hc as (er & Her & Hc).
    apply media_candidate_spec in Hc as [Hid Hact].
    emitted.
    apply origin_rename_entity;
      [by eapply known_entity_of | done | apply append_space_nonempty].
  - apply Forall_forall. intros [idx x] Hin.
    apply elem_of_zip_r in Hin. simpl.
    by apply (sorted_elem (fun x y => String.leb x.1 y.1)).
Qed.

(** Every action of a run of the passes has one of the origins. *)
Lemma run_passes_origin incl :
  Forall origin
    (all_actions uuid4 _compile_regex onbekend_area_name snap rules incl).
Proof.
  unfold all_actions, asdict_action. rewrite list_fmap_id.
  unfold run_passes, after_suffix_duplicates, before_suffix_duplicates,
    before_fallback, before_token_match.
  unfold pass_media, pass_helpers, pass_device_area, pass_entity_area,
    pass_unique_id, pass_suffix_duplicates, pass_fallback,
    pass_create_fallback, pass_token_match, pass_backfill, pass_inherit,
    pass_hide_regex, pass_hide_ids, pass_remove_regex, pass_remove_ids,
    pass_area_renames.
  apply (ok_foldl _ _ _ media_group_ok (Forall_self _)).
  apply (ok_foldl _ _ _ helper_entity_ok (Forall_self _)).
  apply (ok_foldl _ _ _ device_area_rule_ok (Forall_self _)).
  apply (ok_foldl _ _ _ entity_area_rule_ok (Forall_self _)).
  apply (ok_foldl _ _ _ hide_unique_id_group_ok (Forall_self _)).
  apply (ok_foldl _ _ _ suffix_duplicate_entity_ok (Forall_self _)).
  apply fallback_placement_ok, create_fallback_area_ok.
  apply (ok_foldl _ _ _ (token_match_entity_ok incl) (Forall_self _)).
  apply (ok_foldl _ _ _ backfill_device_ok (Forall_self _)).
  apply (ok_foldl _ _ _ inherit_entity_ok (Forall_self _)).
  apply (ok_foldl _ _ _ hide_regex_ok (Forall_self _)).
  apply (ok_foldl _ (fun _ => True) _ (fun s x _ => hide_listed_ok s x));
    [by apply Forall_forall |].
  apply (ok_foldl _ _ _ remove_regex_ok (Forall_self _)).
  apply (ok_foldl _ (fun _ => True) _ (fun s x _ => remove_listed_ok s x));
    [by apply Forall_forall |].
  apply (ok_foldl _ _ _ rename_area_rule_ok (Forall_self _)).
  constructor.
Qed.




Lemma lacks_effective_own eid :
  lacks_effective_area snap eid -> lacks_own_area snap eid.
Proof.
  intros (er & Her & Hid & Hno). exists er.
  split; [done |]. split; [done |]. by eapply effective_own.
Qed.

Ltac lookups :=
  unfold entity_id_payload, entity_area_payload, device_area_payload,
    hide_payload, rename_payload;
  rewrite ?lookup_insert_eq, ?lookup_insert_ne, ?lookup_singleton_eq,
    ?lookup_singleton_ne by done.


Lemma plan_actions_all now meta ignored incl a :
  a ∈ pl_actions (build_plan uuid4 _compile_regex onbekend_area_name now snap
                             rules meta ignored incl) ->
  a ∈ all_actions uuid4 _compile_regex onbekend_area_name snap rules incl.
Proof.
  unfold build_plan, visible_actions. simpl.
  by intros [_ ?]%list_elem_of_filter.
Qed.

Lemma plan_Forall (P : Action -> Prop) now meta ignored incl :
  Forall P (all_actions uuid4 _compile_regex onbekend_area_name snap rules incl) ->
  Forall P (pl_actions (build_plan uuid4 _compile_regex onbekend_area_name
                                   now snap rules meta ignored incl)).
Proof.
  rewrite !Forall_forall. intros H a Ha. by eapply H, plan_actions_all.
Qed.

(** X15.  Every action a plan holds names its target as the registry does:
    an [entity_id] in a payload is the id of an entity of the
    snapshot, a [device_id] the id of a device of the snapshot; an
    area assignment or a rename of an entity is for an entity whose
    state is active. *)
Theorem plan_targets_registry now meta ignored incl :
  Forall (fun a =>
            (forall eid, act_payload a !! "entity_id" = Some eid ->
                         known_entity snap eid)
            /\ (forall did, act_payload a !! "device_id" = Some did ->
                            known_device snap did)
            /\ (act_type a = "set_entity_area" \/ act_type a = "rename_entity" ->
                exists eid, act_payload a !! "entity_id" = Some eid
                            /\ active snap eid))
         (pl_actions (build_plan uuid4 _compile_regex onbekend_area_name
                                 now snap rules meta ignored incl)).
Proof.
  apply plan_Forall.
  eapply Forall_impl; [apply run_passes_origin |].
  intros a Ha. destruct Ha; cbn [act_type act_payload]; lookups.
  all: split; [intros ? ?; by simplify_eq |].
  all: split; [intros ? ?; by simplify_eq |].
  all: try (intros [? | ?]; discriminate).
  all: intros _; eexists; split; [| eassumption]; by lookups.
Qed.

Lemma by_rule_waived : by_rule rules false -> Some false ∈ approval_flags rules.
Proof. intros ([[|]|] & Hin & Hflag); simplify_eq/=. done. Qed.

(** X16.  The approval policy of the planner.  Creating an area, renaming,
    hiding or removing an entity always need approval, unless a rule of
    the rules file waives it.  Whatever the rules, an action that needs
    no approval is an area inheritance (confidence 1), a token match
    (0.95) or a device backfill (0.98), or it comes from a rule, and
    then some rule says [requires_approval: false]; the creation of
    the fallback area, a placement into it and a rename of a media
    player need approval under all rules. *)
Theorem approval_policy now meta ignored incl :
  Forall (fun a =>
            (act_requires_approval a = false ->
             (act_type a = "set_entity_area"
              /\ (act_confidence a = 1%Q \/ act_confidence a = 0.95%Q))
             \/ (act_type a = "set_device_area"
                 /\ act_confidence a = 0.98%Q)
             \/ Some false ∈ approval_flags rules)
            /\ (act_type a = "create_area" \/ act_type a = "rename_entity"
                \/ act_confidence a = 0.6%Q ->
                act_requires_approval a = true))
         (pl_actions (build_plan uuid4 _compile_regex onbekend_area_name
                                 now snap rules meta ignored incl)).
Proof.
  apply plan_Forall.
  eapply Forall_impl; [apply run_passes_origin |].
  intros a Ha. destruct Ha; cbn [act_type act_confidence act_requires_approval].
  - split; [| by intros [? | [? | ?]]].
    intros ->. right. right. by apply by_rule_waived.
  - split.
    + intros ->. right. right.
      destruct H0 as [[_ ?] | [[_ ?] | [_ ?]]]; try done.
      by apply by_rule_waived.
    + intros [? | [? | ->]]; try done.
      by destruct H0 as [[? _] | [[? _] | [? _]]].
  - split.
    + intros ->. right. right.
      destruct H0 as [[_ ?] | [[_ ?] | [_ ?]]]; try done.
      by apply by_rule_waived.
    + intros [? | [? | ->]]; try done.
      by destruct H0 as [[? _] | [[? _] | [? _]]].
  - split.
    + intros ->.
      destruct H2 as [[-> _] | [[-> _] | [[_ [? _]] | [[_ ?] | [_ [? _]]]]]];
        try done.
      * left. split; [done | by left].
      * left. split; [done | by right].
      * right. right. by apply by_rule_waived.
      * right. right. by apply by_rule_waived.
    + intros [? | [? | ->]]; try done.
      by destruct H2 as [[? _] | [[? _] | [[_ [? _]] | [[? _] | [? _]]]]].
  - split.
    + intros ->. destruct H1 as [[-> _] | [_ ?]].
      * right. left. done.
      * right. right. by apply by_rule_waived.
    + intros [? | [? | ->]]; try done.
      by destruct H1 as [[? _] | [? _]].
  - done.
  - done.
Qed.

(** X17.  The planner fills gaps and leaves what is set alone: an area
    assignment for an entity, other than the one an entity-area rule
    asks for (confidence 0.9), is for an entity of the snapshot without
    an [area_id] of its own, and, unless it is the inheritance from the
    device (confidence 1), without effective area at all; every area
    named in an assignment or a rename is a non-empty id. *)
Theorem area_assignments_fill_gaps now meta ignored incl :
  Forall (fun a =>
            (act_type a = "set_entity_area" ->
             act_confidence a <> 0.9%Q ->
             exists eid, act_payload a !! "entity_id" = Some eid
                         /\ lacks_own_area snap eid
                         /\ (act_confidence a <> 1%Q ->
                             lacks_effective_area snap eid))
            /\ (forall area_id, act_payload a !! "area_id" = Some area_id ->
                                area_id <> EmptyString))
         (pl_actions (build_plan uuid4 _compile_regex onbekend_area_name
                                 now snap rules meta ignored incl)).
Proof.
  apply plan_Forall.
  eapply Forall_impl; [apply run_passes_origin |].
  intros a Ha.
  destruct Ha; cbn [act_type act_payload act_confidence]; lookups.
  all: split; [| intros ? ?; by simplify_eq].
  all: try (intros ?; discriminate).
  intros _ Hconf. exists entity_id. split; [by lookups |].
  destruct H2 as [(-> & _ & ?) | [(-> & _ & ?) | [(-> & _ & ?)
                 | [[-> _] | (-> & _ & ?)]]]]; try done.
  all: split; [by apply lacks_effective_own | done].
Qed.

End Passes.
End OriginFacts.

Module PlanApplyFacts.
Import Engine HA Executor Spec Notions FingerprintFacts ExecutorFacts
  ApplyFacts OriginFacts.

Section Run.
Variable fault : nat -> bool.






End Run.
End PlanApplyFacts.

Module CoverageFacts.
Import Engine HA Executor Spec Notions FingerprintFacts PlanFacts IgnoreFacts
  OriginFacts.

Section Markers.
Variable uuid4 : nat -> string.
Variable _compile_regex : string -> option (string -> bool).
Variable onbekend_area_name : string.

Local Abbreviation ids_in_order := (ids_in_order uuid4).
Local Abbreviation pstep := (pstep uuid4).
Local Abbreviation psteps := (psteps uuid4).
Local Abbreviation all_actions :=
  (all_actions uuid4 _compile_regex onbekend_area_name).
Local Abbreviation run_passes :=
  (run_passes uuid4 _compile_regex onbekend_area_name).

Lemma ids_in_order_emit s type payload reason confidence req :
  ids_in_order s ->
  ids_in_order (emit uuid4 s type payload reason confidence req).
Proof.
  unfold ids_in_order. simpl. intros H.
  rewrite fmap_app, length_app, seq_app, fmap_app, H. done.
Qed.

Lemma pstep_ids_in_order s s' : pstep s s' -> ids_in_order s -> ids_in_order s'.
Proof.
  destruct 1; intros Hs; try done;
    by apply (ids_in_order_emit s).
Qed.

Lemma psteps_ids_in_order s s' :
  psteps s s' -> ids_in_order s -> ids_in_order s'.
Proof.
  induction 1 as [s|s1 s2 s3 H12 _ IH]; [done |].
  intros H. by eapply IH, pstep_ids_in_order.
Qed.

Lemma backed_more s (l : list Action) (P : Action -> Prop) (M : gset string) :
  (forall eid, eid ∈ M -> exists a, a ∈ actions s /\ P a) ->
  forall eid, eid ∈ M -> exists a, a ∈ actions s ++ l /\ P a.
Proof.
  intros H eid Hin. destruct (H eid Hin) as (a & Ha & HP).
  exists a. split; [apply elem_of_app; by left | done].
Qed.

Ltac old_marker H :=
  let eid := fresh "eid" in
  let Hin := fresh "Hin" in
  let a := fresh "a" in
  intros eid Hin; destruct (H eid Hin) as (a & ? & ? & ?);
  exists a; split; [apply elem_of_app; by left | done].

Ltac new_marker H :=
  let eid := fresh "eid" in
  let Hin := fresh "Hin" in
  let a := fresh "a" in
  intros eid [->%elem_of_singleton | Hin]%elem_of_union;
  [ eexists; split; [apply elem_of_app; right; by left |];
    split; [reflexivity |];
    first [ apply target_entity_id_payload | apply target_hide_payload
          | apply target_entity_area_payload ]
  | destruct (H eid Hin) as (a & ? & ? & ?);
    exists a; split; [apply elem_of_app; by left | done] ].

Lemma pstep_backed s s' : pstep s s' -> backed s -> backed s'.
Proof.
  destruct 1; intros (Ha & Hr & Hh); try done; simpl;
    (split; [| split]); simpl;
    first [ new_marker Ha | old_marker Ha
          | new_marker Hr | old_marker Hr
          | new_marker Hh | old_marker Hh ].
Qed.

Lemma psteps_backed s s' : psteps s s' -> backed s -> backed s'.
Proof.
  induction 1 as [s|s1 s2 s3 H12 _ IH]; [done |].
  intros H. by eapply IH, pstep_backed.
Qed.

Lemma run_passes_backed snap rules incl : backed (run_passes snap rules incl).
Proof.
  eapply psteps_backed; [apply run_passes_steps |].
  unfold backed, init_pstate. simpl. set_solver.
Qed.

Lemma run_passes_ids snap rules incl :
  ids_in_order (run_passes snap rules incl).
Proof. eapply psteps_ids_in_order; [apply run_passes_steps | done]. Qed.

(** The marker sets of a state, and their growth. *)
Lemma psteps_markers s s' :
  psteps s s' ->
  planned_entity_area s ⊆ planned_entity_area s'
  /\ planned_entity_remove s ⊆ planned_entity_remove s'
  /\ planned_entity_hide s ⊆ planned_entity_hide s'.
Proof. intros H. by destruct (psteps_grows uuid4 _ _ H) as (_ & ? & ? & ?). Qed.

(** A loop whose every round marks what it hits has marked, at its
    end, whatever any round hit. *)
Lemma foldl_marks {A} (f : pstate -> A -> pstate) (M : pstate -> gset string)
    (hit : A -> string -> Prop) l :
  (forall s x, psteps s (f s x)) ->
  (forall s s', psteps s s' -> M s ⊆ M s') ->
  (forall s x eid, hit x eid -> eid ∈ M (f s x)) ->
  forall s x eid, x ∈ l -> hit x eid -> eid ∈ M (foldl f s l).
Proof.
  intros Hsteps Hmono Hhit.
  induction l as [|y l IH]; intros s x eid Hx Hh; simpl.
  - by apply elem_of_nil in Hx.
  - apply elem_of_cons in Hx as [-> | Hx]; [| by eapply IH].
    eapply Hmono; [apply psteps_foldl; exact Hsteps |].
    by apply Hhit.
Qed.

Lemma area_or_removal_mono s s' :
  psteps s s' -> area_or_removal s ⊆ area_or_removal s'.
Proof.
  intros (? & ? & ?)%psteps_markers. unfold area_or_removal. set_solver.
Qed.

Lemma hide_or_removal_mono s s' :
  psteps s s' -> hide_or_removal s ⊆ hide_or_removal s'.
Proof.
  intros (? & ? & ?)%psteps_markers. unfold hide_or_removal. set_solver.
Qed.

Lemma removal_mono s s' :
  psteps s s' -> planned_entity_remove s ⊆ planned_entity_remove s'.
Proof. by intros (? & ? & ?)%psteps_markers. Qed.

(** *** The fallback placement *)
Lemma fallback_entity_marks snap area_id s er eid :
  present (er_entity_id er) = Some eid ->
  active snap eid ->
  truthy (_effective_area_id er (index_by dv_id (devices snap))) = false ->
  eid ∈ area_or_removal
          (fallback_entity uuid4 onbekend_area_name snap
                           (index_by dv_id (devices snap)) area_id s er).
Proof.
  intros Hid Hact Hno. unfold fallback_entity, area_or_removal, active in *.
  rewrite Hid, Hact, Hno. simpl.
  repeat case_bool_decide; simpl; set_solver.
Qed.

Lemma pass_fallback_marks snap rules area_id er eid :
  present (find_onbekend_area_id onbekend_area_name (areas snap))
  = Some area_id ->
  er ∈ entities snap ->
  present (er_entity_id er) = Some eid ->
  active snap eid ->
  truthy (_effective_area_id er (index_by dv_id (devices snap))) = false ->
  eid ∈ area_or_removal (run_passes snap rules true).
Proof.
  intros Harea Her Hid Hact Hno.
  eapply area_or_removal_mono; [apply before_suffix_to_end_steps |].
  unfold before_suffix_duplicates, pass_fallback, fallback_placement.
  rewrite Harea.
  apply (foldl_marks _ area_or_removal
           (fun er eid =>
              present (er_entity_id er) = Some eid /\ active snap eid
              /\ truthy (_effective_area_id er (index_by dv_id (devices snap)))
                 = false))
    with (x := er); try done.
  - intros. apply fallback_entity_steps.
  - apply area_or_removal_mono.
  - intros s x e (? & ? & ?). by apply fallback_entity_marks.
Qed.

Lemma marked_area_or_removal snap rules incl eid :
  eid ∈ area_or_removal (run_passes snap rules incl) ->
  exists a, a ∈ all_actions snap rules incl /\ target a = Some eid
            /\ (act_type a = "set_entity_area" \/ is_removal a).
Proof.
  destruct (run_passes_backed snap rules incl) as (Ha & Hr & _).
  intros [Hin | Hin]%elem_of_union.
  - destruct (Ha eid Hin) as (a & ? & ? & ?). exists a.
    split; [by apply (all_actions_elem uuid4) |]. eauto.
  - destruct (Hr eid Hin) as (a & ? & ? & ?). exists a.
    split; [by apply (all_actions_elem uuid4) |]. eauto.
Qed.

Lemma marked_hide_or_removal snap rules incl eid :
  eid ∈ hide_or_removal (run_passes snap rules incl) ->
  exists a, a ∈ all_actions snap rules incl /\ target a = Some eid
            /\ (is_hide a \/ is_removal a).
Proof.
  destruct (run_passes_backed snap rules incl) as (_ & Hr & Hh).
  intros [Hin | Hin]%elem_of_union.
  - destruct (Hh eid Hin) as (a & ? & ? & ?). exists a.
    split; [by apply (all_actions_elem uuid4) |]. eauto.
  - destruct (Hr eid Hin) as (a & ? & ? & ?). exists a.
    split; [by apply (all_actions_elem uuid4) |]. eauto.
Qed.

(** X19.  With the fallback enabled and the fallback area in the registry,
    no active entity is left without an area: for every entity the
    audit reports as without effective area, the un-filtered plan
    holds an area assignment, or else a removal. *)
Theorem reported_area_gaps_are_planned now snap rules onbekend_area_id
    (Harea : present (find_onbekend_area_id onbekend_area_name (areas snap))
             = Some onbekend_area_id) :
  Forall (fun entry =>
            exists a, a ∈ all_actions snap rules true
                      /\ target a = Some (fst (fst entry))
                      /\ (act_type a = "set_entity_area" \/ is_removal a))
         (Audit.entities_without_effective_area
            (Audit.build_report now snap)).
Proof.
  apply Forall_forall. intros [[eid name] did] Hin. simpl in *.
  apply list_elem_of_omap in Hin as (er & Her & Hentry).
  unfold Audit.entity_without_effective_area in Hentry.
  destruct (present (er_entity_id er)) as [eid'|] eqn:Hid; [| done].
  destruct (_is_active_state (states_by_entity_id snap !! eid')) eqn:Hact;
    [| done].
  destruct (truthy (_effective_area_id er (index_by dv_id (devices snap))))
    eqn:Hno; [done |].
  simpl in Hentry. injection Hentry as -> _ _.
  apply marked_area_or_removal.
  by eapply pass_fallback_marks.
Qed.

(** *** Suffix duplicates *)
Lemma pass_suffix_marks snap rules incl er eid :
  er ∈ entities snap ->
  present (er_entity_id er) = Some eid ->
  flagged (entity_ids_of (entities snap)) eid ->
  eid ∈ planned_entity_remove (run_passes snap rules incl).
Proof.
  intros Her Hid Hfl.
  eapply removal_mono; [apply after_suffix_to_end_steps |].
  unfold after_suffix_duplicates, Engine.after_suffix_duplicates,
    pass_suffix_duplicates.
  apply (foldl_marks _ planned_entity_remove
           (fun er eid =>
              present (er_entity_id er) = Some eid
              /\ flagged (entity_ids_of (entities snap)) eid))
    with (x := er); try done.
  - intros. apply suffix_duplicate_entity_steps.
  - apply removal_mono.
  - intros s x e [Hx He].
    destruct (suffix_step_cases uuid4 _compile_regex onbekend_area_name
                (entity_ids_of (entities snap)) s x)
      as [(eid0 & Hid0 & _ & _ & ->) | (-> & Hskip)].
    + simpl. rewrite Hx in Hid0. injection Hid0 as ->. set_solver.
    + by apply Hskip.
Qed.

(** X20.  What the audit reports as a suffix duplicate, the plan proposes to
    remove: each entry of the report is an entity id classified as a
    duplicate whose base is an id of the registry and is the base
    reported, and the un-filtered plan holds a removal of that
    entity, whatever the rules. *)
Theorem reported_suffix_duplicates_are_planned now snap rules incl :
  Forall (fun entry =>
            flagged (entity_ids_of (entities snap)) (fst entry)
            /\ snd entry = snd (is_suffix_duplicate_entity (fst entry))
            /\ exists a, a ∈ all_actions snap rules incl
                         /\ is_removal a /\ target a = Some (fst entry))
         (Audit.suffix_duplicate_entities (Audit.build_report now snap)).
Proof.
  apply Forall_forall. intros [eid base] Hin. simpl in *.
  apply list_elem_of_omap in Hin as (er & Her & Hentry).
  unfold Audit.suffix_duplicate in Hentry.
  destruct (present (er_entity_id er)) as [eid'|] eqn:Hid; [| done].
  destruct (is_suffix_duplicate_entity eid') as [is_dup base'] eqn:Hdup.
  destruct (is_dup && bool_decide (base' ∈ entity_ids_of (entities snap)))
    eqn:Hcond; [| done].
  injection Hentry as -> ->.
  apply andb_prop in Hcond as [-> Hbase%bool_decide_eq_true].
  assert (Hfl : flagged (entity_ids_of (entities snap)) eid).
  { unfold flagged. by rewrite Hdup. }
  split; [done |]. split; [by rewrite Hdup |].
  destruct (run_passes_backed snap rules incl) as (_ & Hr & _).
  destruct (Hr eid (pass_suffix_marks snap rules incl er eid Her Hid Hfl))
    as (a & ? & ? & ?).
  exists a. split; [by apply (all_actions_elem uuid4) | done].
Qed.

(** *** Entities sharing a unique id *)
Lemma unique_id_to_end_steps snap rules incl :
  psteps (pass_unique_id uuid4 snap
            (after_suffix_duplicates uuid4 _compile_regex onbekend_area_name
                                     snap rules incl))
         (run_passes snap rules incl).
Proof.
  unfold Engine.run_passes, pass_media, pass_helpers, pass_device_area,
    pass_entity_area.
  repeat (eapply rtc_trans; [| apply psteps_foldl; intros;
    first [ apply (media_group_steps uuid4 _compile_regex)
          | apply helper_entity_steps
          | apply device_area_rule_steps | apply entity_area_rule_steps ]]).
  apply rtc_refl.
Qed.

Lemma hide_round_steps uid kept s eid :
  psteps s
    (if bool_decide (eid ∈ planned_entity_hide s)
        || bool_decide (eid ∈ planned_entity_remove s) then s
     else
       add_planned_hide eid
         (emit uuid4 s "hide_entity" (hide_payload eid)
               ("Duplicate unique_id '" +:+ uid +:+ "'. Keeping '"
                  +:+ kept +:+ "', hiding '" +:+ eid +:+ "'.")
               0.9 true)).
Proof.
  destruct (bool_decide (eid ∈ planned_entity_hide s)) eqn:Hh; simpl;
    [apply rtc_refl |].
  destruct (bool_decide (eid ∈ planned_entity_remove s)); simpl;
    [apply rtc_refl |].
  apply rtc_once, step_hide. by apply bool_decide_eq_false in Hh.
Qed.

Lemma hide_unique_id_group_marks s uid eids kept rest eid :
  sorted String.leb eids = kept :: rest -> eid ∈ rest ->
  eid ∈ hide_or_removal (hide_unique_id_group uuid4 s (uid, eids)).
Proof.
  intros Hsorted Hin. unfold hide_unique_id_group. rewrite Hsorted.
  destruct rest as [|e rest]; [by apply elem_of_nil in Hin |].
  apply (foldl_marks _ hide_or_removal (fun x eid => x = eid))
    with (x := eid); try done.
  - intros. apply hide_round_steps.
  - apply hide_or_removal_mono.
  - intros s' x ? <-. unfold hide_or_removal.
    repeat case_bool_decide; simpl; set_solver.
Qed.

Lemma pass_unique_id_marks snap rules incl uid eids kept rest eid :
  (uid, eids) ∈ by_unique_id_of (entities snap) ->
  sorted String.leb eids = kept :: rest -> eid ∈ rest ->
  eid ∈ hide_or_removal (run_passes snap rules incl).
Proof.
  intros Hg Hsorted Hin.
  eapply hide_or_removal_mono; [apply unique_id_to_end_steps |].
  unfold pass_unique_id.
  apply (foldl_marks _ hide_or_removal
           (fun g eid => exists kept rest,
                sorted String.leb (snd g) = kept :: rest /\ eid ∈ rest))
    with (x := (uid, eids)); try done.
  - intros. apply hide_unique_id_group_steps.
  - apply hide_or_removal_mono.
  - intros s [u l] e (k & r & Hs & He).
    by eapply hide_unique_id_group_marks.
  - by exists kept, rest.
Qed.

(** X21.  What the audit reports as a group of entities sharing a unique id,
    the plan reduces to one entity: each group reported has at least
    two ids, in ascending order, and for every id but the first the
    un-filtered plan holds a hide, or else a removal. *)
Theorem reported_unique_id_groups_are_planned now snap rules incl :
  Forall (fun g =>
            exists kept rest,
              snd g = kept :: rest /\ rest <> []
              /\ StronglySorted String.le (snd g)
              /\ Forall (fun eid =>
                           exists a, a ∈ all_actions snap rules incl
                                     /\ target a = Some eid
                                     /\ (is_hide a \/ is_removal a))
                        rest)
         (Audit.unique_id_duplicates (Audit.build_report now snap)).
Proof.
  apply Forall_forall. intros [uid ids] Hin. simpl in *.
  apply list_elem_of_omap in Hin as ([uid' eids] & Hg & Hentry).
  unfold Audit.unique_id_group in Hentry.
  destruct (1 <? length eids)%nat eqn:Hlen; [| done].
  injection Hentry as -> <-.
  apply Nat.ltb_lt in Hlen.
  pose proof (sorted_perm String.leb eids) as Hperm.
  apply Permutation_length in Hperm.
  destruct (sorted String.leb eids) as [|kept [|e rest]] eqn:Hsorted;
    simpl in Hperm; [lia | lia |].
  exists kept, (e :: rest). split; [done |]. split; [done |]. split.
  - rewrite <- Hsorted. apply sorted_ordered.
  - apply Forall_forall. intros eid Heid.
    apply marked_hide_or_removal.
    by eapply pass_unique_id_marks.
Qed.

(** *** Media players with a generic name *)
Lemma foldl_emits {A B} (f : pstate -> A -> pstate) (hit : A -> B -> Prop)
    (Q : B -> Action -> Prop) l :
  (forall s x, psteps s (f s x)) ->
  (forall s x b, hit x b -> exists a, a ∈ actions (f s x) /\ Q b a) ->
  forall s x b, x ∈ l -> hit x b ->
                exists a, a ∈ actions (foldl f s l) /\ Q b a.
Proof.
  intros Hsteps Hhit.
  induction l as [|y l IH]; intros s x b Hx Hh; simpl.
  - by apply elem_of_nil in Hx.
  - apply elem_of_cons in Hx as [-> | Hx]; [| by eapply IH].
    destruct (Hhit s y b Hh) as (a & Ha & HQ). exists a. split; [| done].
    eapply (psteps_actions_elem uuid4); [| exact Ha].
    apply psteps_foldl. exact Hsteps.
Qed.

Lemma setdefault_append_new {K V} `{EqDecision K} (k : K) (v : V) d :
  exists vs, (k, vs) ∈ setdefault_append k v d /\ v ∈ vs.
Proof.
  induction d as [|[k0 vs0] d IH]; simpl.
  - exists [v]. split; by left.
  - destruct (decide (k = k0)) as [-> | Hne].
    + exists (vs0 ++ [v]). split; [by left |].
      apply elem_of_app. right. by left.
    + destruct IH as (vs & ? & ?). exists vs. split; [by right | done].
Qed.

Lemma setdefault_append_old {K V} `{EqDecision K} (k : K) (v : V) d k' vs x :
  (k', vs) ∈ d -> x ∈ vs ->
  exists vs', (k', vs') ∈ setdefault_append k v d /\ x ∈ vs'.
Proof.
  induction d as [|[k0 vs0] d IH]; simpl; [by intros ?%elem_of_nil |].
  intros [Heq | Hin]%elem_of_cons Hx.
  - injection Heq as -> ->. destruct (decide (k = k0)) as [-> | Hne].
    + exists (vs0 ++ [v]). split; [by left |]. apply elem_of_app. by left.
    + exists vs0. split; [by left | done].
  - destruct (decide (k = k0)) as [-> | Hne].
    + exists vs. split; [by right | done].
    + destruct (IH Hin Hx) as (vs' & ? & ?).
      exists vs'. split; [by right | done].
Qed.

Lemma media_grouped_complete cands area base eid cur :
  (area, base, eid, cur) ∈ cands ->
  exists items, ((area, base), items) ∈ media_grouped cands
                /\ (eid, cur) ∈ items.
Proof.
  unfold media_grouped.
  induction cands as [|[[[a b] e] c] cands IH] using rev_ind.
  - by intros ?%elem_of_nil.
  - rewrite foldl_app. simpl.
    intros [Hin | Hin%list_elem_of_singleton]%elem_of_app.
    + destruct (IH Hin) as (items & Hg & Hi).
      by eapply setdefault_append_old.
    + injection Hin as -> -> -> ->. apply setdefault_append_new.
Qed.

Lemma elem_of_zip_seq {A} (l : list A) x j :
  x ∈ l -> exists i, (i, x) ∈ zip (seq j (length l)) l.
Proof.
  revert j. induction l as [|y l IH]; intros j; simpl.
  - by intros ?%elem_of_nil.
  - intros [-> | Hx]%elem_of_cons.
    + exists j. by left.
    + destruct (IH (S j) Hx) as (i & Hi). exists i. by right.
Qed.

Lemma media_group_emits snap s area base items eid cur :
  (eid, cur) ∈ items -> base = _media_base_label eid cur ->
  exists a, a ∈ actions (media_group uuid4 (area_name_by_id_of (areas snap)) s
                                     ((area, base), items))
            /\ renames snap area (eid, cur) a.
Proof.
  intros Hin ->. unfold media_group.
  set (items_sorted := sorted (fun x y => String.leb (fst x) (fst y)) items).
  assert (Hs : (eid, cur) ∈ items_sorted)
    by by apply (sorted_elem (fun x y => String.leb (fst x) (fst y))).
  destruct (elem_of_zip_seq items_sorted (eid, cur) 1 Hs) as (idx & Hidx).
  apply (foldl_emits _ (fun x b => snd x = (eid, cur) /\ b = (eid, cur))
           (renames snap area))
    with (x := (idx, (eid, cur))); try done.
  - intros s' [i [e c]]. apply rtc_once, step_other. set_solver.
  - intros s' [i [e c]] b [[= -> ->] ->]. eexists. split.
    + cbn [actions emit]. apply elem_of_app. right. by left.
    + unfold renames, media_name.
      cbn [act_type act_requires_approval act_payload fst snd].
      split; [done |]. split; [done |]. eexists. reflexivity.
Qed.

(** X22.  What the audit reports as a media player with a generic name, the
    plan renames after its area when it has one: for every entry of
    the report with an effective area, the un-filtered plan holds a
    rename of that entity, to be approved, to a name made of the label
    of the device kind, a space and the name of the area (its id when
    the area has no name), and what the numbering adds behind it. *)
Theorem reported_media_players_are_renamed now snap rules incl :
  Forall (fun entry =>
            forall area_id,
              present (snd entry) = Some area_id ->
              exists a, a ∈ all_actions snap rules incl
                        /\ renames snap area_id (fst entry) a)
         (Audit.generic_media_players (Audit.build_report now snap)).
Proof.
  apply Forall_forall. intros [[eid cur] eff] Hin area Harea. simpl in *.
  apply list_elem_of_omap in Hin as (er & Her & Hentry).
  assert (Hcand : media_candidate snap (index_by dv_id (devices snap)) er
                  = Some (area, _media_base_label eid cur, eid, cur)).
  { unfold Audit.generic_media_player in Hentry. unfold media_candidate.
    destruct (present (er_entity_id er)) as [eid'|]; [| done].
    destruct (negb (startswith eid' "media_player.")); [done |].
    destruct (negb (_is_active_state (states_by_entity_id snap !! eid')));
      [done |].
    destruct (_looks_generic_media_name
                (media_current er (states_by_entity_id snap !! eid')))
      eqn:Hgen; [| done].
    injection Hentry as -> <- <-. by rewrite Harea. }
  assert (Hc : (area, _media_base_label eid cur, eid, cur)
               ∈ omap (media_candidate snap (index_by dv_id (devices snap)))
                      (entities snap)).
  { apply list_elem_of_omap. by exists er. }
  apply media_grouped_complete in Hc as (items & Hg & Hi).
  unfold Engine.all_actions, asdict_action. rewrite list_fmap_id.
  unfold Engine.run_passes, pass_media.
  apply (foldl_emits _ (fun g b => exists items,
                            g = ((area, _media_base_label (fst b) (snd b)), items)
                            /\ b ∈ items)
           (renames snap area))
    with (x := ((area, _media_base_label eid cur), items)); try done.
  - intros. apply (media_group_steps uuid4 _compile_regex).
  - intros s g [e c] (its & -> & Hb). by apply media_group_emits.
  - by exists items.
Qed.

(** *** Action identifiers *)

(** X23.  The identifiers of the un-filtered plan are the successive draws of
    [uuid4], one for each action in order; so, as long as [uuid4] never
    returns the same value twice, no identifier is given to two
    actions, in the un-filtered plan and in the plan document. *)
Theorem action_ids_unique now snap rules meta ignored incl
    (Hfresh : forall i j, uuid4 i = uuid4 j -> i = j) :
  act_id <$> all_actions snap rules incl
  = uuid4 <$> seq 0 (length (all_actions snap rules incl))
  /\ NoDup (act_id <$> all_actions snap rules incl)
  /\ NoDup (act_id <$> pl_actions
              (build_plan uuid4 _compile_regex onbekend_area_name now snap
                          rules meta ignored incl)).
Proof.
  assert (Hids : act_id <$> all_actions snap rules incl
                 = uuid4 <$> seq 0 (length (all_actions snap rules incl))).
  { unfold Engine.all_actions, asdict_action. rewrite list_fmap_id.
    apply (run_passes_ids snap rules incl). }
  assert (Hall : NoDup (act_id <$> all_actions snap rules incl)).
  { rewrite Hids. apply NoDup_fmap_2; [exact Hfresh | apply NoDup_seq]. }
  split; [done |]. split; [done |].
  eapply sublist_NoDup; [exact Hall |].
  apply fmap_sublist. unfold build_plan, visible_actions. simpl.
  apply sublist_filter.
Qed.

End Markers.
End CoverageFacts.

Module DependenciesFacts.
Import Notions Dependencies.

Section Environment.
Variable environ : string -> option string.
Variable file_at : string -> file.

Lemma nonempty_false s : nonempty s = false <-> s = EmptyString.
Proof. by destruct s. Qed.

Lemma s6_token_spec dirs :
  (Forall (blank file_at) dirs /\ s6_token file_at EmptyString dirs = EmptyString)
  \/ exists before dir after text,
       dirs = before ++ dir :: after
       /\ Forall (blank file_at) before
       /\ file_at (dir +:+ "/SUPERVISOR_TOKEN") = Content text
       /\ strip text <> EmptyString
       /\ s6_token file_at EmptyString dirs = strip text.
Proof.
  induction dirs as [|d dirs IH]; simpl.
  - left. by split.
  - assert (Hrest : blank file_at d ->
              (Forall (blank file_at) (d :: dirs)
               /\ s6_token file_at EmptyString dirs = EmptyString)
              \/ exists before dir after text,
                   d :: dirs = before ++ dir :: after
                   /\ Forall (blank file_at) before
                   /\ file_at (dir +:+ "/SUPERVISOR_TOKEN") = Content text
                   /\ strip text <> EmptyString
                   /\ s6_token file_at EmptyString dirs = strip text).
    { intros Hd. destruct IH as [[Hall Hs] | (b & x & a & t & -> & Hb & Hf & Ht & Hs)].
      - left. split; [by constructor | done].
      - right. exists (d :: b), x, a, t. repeat split; try done.
        by constructor. }
    unfold blank in Hrest.
    destruct (file_at (d +:+ "/SUPERVISOR_TOKEN")) as [| |text] eqn:Hfile;
      [by apply Hrest | by apply Hrest |].
    destruct (nonempty (strip text)) eqn:Hne.
    + right. exists [], d, dirs, text. repeat split; try done.
      by destruct (strip text).
    + apply nonempty_false in Hne. rewrite Hne. by apply Hrest.
Qed.

(** X24.  Where the Supervisor token comes from.  The environment variable
    wins when it is set to a non-empty value, and is returned as it is;
    otherwise the first s6 file whose stripped text is not empty gives
    the token, stripped; otherwise the legacy variable does.  The
    token is empty, and the client is then built without
    authentication, exactly when all three sources are. *)
Theorem supervisor_token_sources :
  let token := _get_supervisor_token environ file_at in
  let primary := getenv environ "SUPERVISOR_TOKEN" in
  let legacy := getenv environ "HASSIO_TOKEN" in
  (primary <> EmptyString -> token = primary)
  /\ (primary = EmptyString ->
      forall before dir after text,
        s6_dirs = before ++ dir :: after ->
        Forall (blank file_at) before ->
        file_at (dir +:+ "/SUPERVISOR_TOKEN") = Content text ->
        strip text <> EmptyString ->
        token = strip text)
  /\ (primary = EmptyString -> Forall (blank file_at) s6_dirs ->
      token = legacy)
  /\ (token = EmptyString
      <-> primary = EmptyString /\ Forall (blank file_at) s6_dirs
          /\ legacy = EmptyString).
Proof.
  intros token primary legacy. subst token. unfold _get_supervisor_token.
  fold primary legacy.
  assert (Hfirst : forall dirs before dir after text,
            dirs = before ++ dir :: after ->
            Forall (blank file_at) before ->
            file_at (dir +:+ "/SUPERVISOR_TOKEN") = Content text ->
            strip text <> EmptyString ->
            s6_token file_at EmptyString dirs = strip text).
  { intros dirs before. revert dirs.
    induction before as [|b before IH]; intros dirs dir after text -> Hb Hf Ht;
      simpl.
    - rewrite Hf. by destruct (strip text).
    - apply Forall_cons in Hb as [Hb0 Hb]. unfold blank in Hb0.
      destruct (file_at (b +:+ "/SUPERVISOR_TOKEN")) as [| |t0];
        try by eapply IH.
      rewrite Hb0. simpl. by eapply IH. }
  assert (Hblank : forall dirs, Forall (blank file_at) dirs ->
            s6_token file_at EmptyString dirs = EmptyString).
  { induction dirs as [|d dirs IH]; intros Hd; simpl; [done |].
    apply Forall_cons in Hd as [Hd0 Hd]. unfold blank in Hd0.
    destruct (file_at (d +:+ "/SUPERVISOR_TOKEN")) as [| |t0];
      try by apply IH.
    rewrite Hd0. simpl. by apply IH. }
  split; [| split; [| split]].
  - intros Hp. by destruct primary.
  - intros Hp before dir after text Hdirs Hb Hf Ht. rewrite Hp. cbn [nonempty].
    rewrite (Hfirst _ _ _ _ _ Hdirs Hb Hf Ht). by destruct (strip text).
  - intros Hp Hall. rewrite Hp. cbn [nonempty]. by rewrite (Hblank _ Hall).
  - split.
    + intros Htoken. destruct primary eqn:Hp; [| done]. cbn [nonempty] in Htoken.
      split; [done |].
      destruct (s6_token_spec s6_dirs)
        as [[Hall Hs] | (b & x & a & t & Hd & Hb & Hf & Ht & Hs)].
      * rewrite Hs in Htoken. by cbn [nonempty] in Htoken.
      * rewrite Hs in Htoken. destruct (strip t); [done |]. done.
    + intros (Hp & Hall & Hl). rewrite Hp. cbn [nonempty].
      by rewrite (Hblank _ Hall).
Qed.
End Environment.
End DependenciesFacts.

Module RunSamples.
Import Engine HA Executor Spec Notions Samples Cases SuffixFacts
  ApplyFacts PlanApplyFacts CoverageFacts.

Local Arguments String.append !_ _ / : simpl nomatch.

Lemma apply_nothing_permitted_witness :
  load_plan engine_unapproved = Some unapproved_plan
  /\ Forall (fun a => permitted (list_to_set []) a = false)
            (pl_actions unapproved_plan)
  /\ let run := apply no_fault "2024-01-02T00:00:00+00:00" engine_unapproved [] in
     registry (ha (fst run)) = registry (ha engine_unapproved)
     /\ plan_json (fst run) = plan_json engine_unapproved
     /\ attempted (ha (fst run)) `prefix_of`
          attempted (ha engine_unapproved)
            ++ [Entity_list; Area_list; Device_list]
     /\ match snd run with
        | Returned res =>
            applied_action_ids res = []
            /\ res_skipped res
               = (fun a => (act_id a, "requires_approval"))
                   <$> pl_actions unapproved_plan
            /\ steps (res_rollback res) = []
            /\ rollback_json (fst run) = Some (res_rollback res)
        | Raised _ => rollback_json (fst run) = rollback_json engine_unapproved
        end.
Proof.
  split; [reflexivity |].
  split; [constructor; [vm_compute; reflexivity | constructor] |].
  apply (apply_nothing_permitted no_fault "2024-01-02T00:00:00+00:00"
           engine_unapproved [] unapproved_plan).
  - reflexivity.
  - constructor; [vm_compute; reflexivity | constructor].
Defined.

Lemma applied_record_replays_witness :
  apply no_fault "2024-01-02T00:00:00+00:00" engine_twice []
  = (fst run_twice, Returned result_twice)
  /\ Forall (fun s => replayable s = true) (steps (res_rollback result_twice))
  /\ load_rollback (fst run_twice) = Some (res_rollback result_twice)
  /\ Forall (fun x => snd x <> TypeError)
            (result_errors (snd (rollback no_fault (fst run_twice)))).
Proof.
  assert (Hrun : apply no_fault "2024-01-02T00:00:00+00:00" engine_twice []
                 = (fst run_twice, Returned result_twice))
    by (vm_compute; reflexivity).
  split; [exact Hrun |].
  exact (applied_record_replays no_fault no_fault "2024-01-02T00:00:00+00:00"
           engine_twice [] (fst run_twice) result_twice Hrun).
Defined.


Lemma reported_area_gaps_are_planned_witness :
  present (find_onbekend_area_id "Onbekend" (areas house_with_fallback))
  = Some "onbekend"
  /\ Forall (fun entry =>
               exists a, a ∈ all_actions sample_uuid4 literal_search "Onbekend"
                                         house_with_fallback empty_rules true
                         /\ target a = Some (fst (fst entry))
                         /\ (act_type a = "set_entity_area" \/ is_removal a))
            (Audit.entities_without_effective_area
               (Audit.build_report "2024-01-01T00:00:00+00:00"
                                   house_with_fallback)).
Proof.
  split; [vm_compute; reflexivity |].
  apply (reported_area_gaps_are_planned sample_uuid4 literal_search "Onbekend"
           "2024-01-01T00:00:00+00:00" house_with_fallback empty_rules
           "onbekend").
  vm_compute. reflexivity.
Defined.

Lemma to_uint_not_nil n : Nat.to_uint n <> Decimal.Nil.
Proof.
  intros H. pose proof (to_uint_normal n) as Hn. rewrite H in Hn.
  discriminate.
Qed.

Lemma str_nat_inj i j : str_nat i = str_nat j -> i = j.
Proof.
  unfold str_nat. intros H.
  apply (f_equal NilZero.uint_of_string) in H.
  rewrite !NilZero.usu in H by apply to_uint_not_nil.
  injection H as H. by apply DecimalNat.Unsigned.to_uint_inj.
Qed.

Lemma sample_uuid4_inj i j : sample_uuid4 i = sample_uuid4 j -> i = j.
Proof.
  unfold sample_uuid4. simpl. intros [= H]. by apply str_nat_inj.
Qed.

Lemma action_ids_unique_witness :
  (forall i j, sample_uuid4 i = sample_uuid4 j -> i = j)
  /\ act_id <$> all_actions sample_uuid4 literal_search "Onbekend"
                            house empty_rules true
     = sample_uuid4
         <$> seq 0 (length (all_actions sample_uuid4 literal_search "Onbekend"
                                        house empty_rules true))
  /\ NoDup (act_id <$> all_actions sample_uuid4 literal_search "Onbekend"
                                    house empty_rules true)
  /\ NoDup (act_id <$> pl_actions
              (build_plan sample_uuid4 literal_search "Onbekend"
                          "2024-01-01T00:00:00+00:00" house empty_rules
                          (mk_rules_meta None None) [] true)).
Proof.
  split; [exact sample_uuid4_inj |].
  apply (action_ids_unique sample_uuid4 literal_search "Onbekend"
           "2024-01-01T00:00:00+00:00" house empty_rules
           (mk_rules_meta None None) [] true).
  exact sample_uuid4_inj.
Defined.

End RunSamples.
